(** * The SQLite session store of agent-tars-server

    A shallow embedding of [SQLiteStorageProvider]: the two tables it keeps
    (sessions, events), the statements it sends to the engine, and the
    methods built from them, followed by the properties of the store. *)

From stdpp Require Import base strings gmap list sorting.
From Stdlib Require Import ZArith Lia Ascii.

(** ** JavaScript values and the JSON interface *)

(** Modelled from the spec: the type [AgentEventStream.Event] of
    [@agent-tars/core] is not among the sources; the spec has the payload as
    an opaque, serializable, arbitrarily structured value.  Tag lists are
    values of the same kind. *)
#[warnings="-register-all"]
Inductive JSValue : Type :=
  | JNull
  | JBool (b : bool)
  | JNum (n : Z)
  | JStr (s : string)
  | JArr (items : list JSValue)
  | JObj (props : list (string * JSValue)).

(** [JSON.stringify] and [JSON.parse] belong to the runtime, not to the
    store.  [None] stands for the exception either of them raises (a
    [TypeError] on a value without a textual form, a [SyntaxError] on text
    that is not JSON). *)
Class JSON := {
  JSON_stringify : JSValue → option string;
  JSON_parse : string → option JSValue
}.

Definition TypeError_message : string := "Converting circular structure to JSON".
Definition SyntaxError_message : string := "Unexpected token in JSON".

(** The message of the [RangeError] that reading a row raises. *)
Definition RangeError_message : string :=
  "Value is too large to be represented as a JavaScript number".

(** Truthiness of a value, as the conditional operator and [||] see it. *)
Definition truthy (v : JSValue) : bool :=
  match v with
  | JNull => false
  | JBool b => b
  | JNum n => negb (n =? 0)%Z
  | JStr s => negb (String.eqb s "")
  | JArr _ | JObj _ => true
  end.

(** [s || null] and [s || undefined] on an optional string: the empty string
    is falsy and therefore lost. *)
Definition or_absent (s : option string) : option string :=
  match s with
  | Some "" => None
  | _ => s
  end.

(** ** Rows and records *)

Module SessionRow.
Record t := mk {
  id : string;
  createdAt : Z;
  updatedAt : Z;
  name : option string;
  workingDirectory : string;
  tags : option string
}.
End SessionRow.

Module EventRow.
Record t := mk {
  id : Z;
  sessionId : string;
  timestamp : Z;
  eventData : string
}.
End EventRow.

Module ExistsResult.
Record t := mk { existsFlag : Z }.
End ExistsResult.

(** Modelled from the spec: the interface [SessionMetadata] of [./types] is
    not among the sources; its fields are those of the spec's Session.  The
    timestamps are optional on the way in ([createSession] fills them in),
    [tags] holds whatever [JSON.parse] produced on the way out, the cast to
    [string[]] being unchecked. *)
Module SessionMetadata.
Record t := mk {
  id : string;
  createdAt : option Z;
  updatedAt : option Z;
  name : option string;
  workingDirectory : string;
  tags : option JSValue
}.
End SessionMetadata.

(** [Partial<Omit<SessionMetadata, 'id'>>]: [None] is a property that the
    caller did not supply. *)
Module Partial.
Record t := mk {
  createdAt : option Z;
  updatedAt : option Z;
  name : option string;
  workingDirectory : option string;
  tags : option JSValue
}.
End Partial.

(** ** The database file and its connection *)

(** A table that was never created is [None].  The sessions table is keyed
    by its primary key; the events table lists its rows in rowid order. *)
Record Database := mkDatabase {
  isOpen : bool;
  journal_mode_wal : bool;
  foreign_keys : bool;
  sessions : option (gmap string SessionRow.t);
  events : option (list EventRow.t);
  idx_events_sessionId : bool;
  sqlite_sequence : Z
}.

Definition session_rows (d : Database) : gmap string SessionRow.t :=
  default ∅ (sessions d).

Definition event_rows (d : Database) : list EventRow.t :=
  default [] (events d).

(** The store instance ([db], [initialized]) together with what it reads from
    its environment: the clock behind [Date.now()], given as the sequence of
    its readings, and the schedule of the engine, which says for each
    coming statement whether it runs ([None]) or is refused with an error
    such as a locked database or a full disk ([Some message]).  An exhausted
    schedule refuses nothing. *)
Record World := mkWorld {
  db : Database;
  initialized : bool;
  time : nat → Z;
  ticks : nat;
  faults : list (option string)
}.

Definition with_db (w : World) (d : Database) : World :=
  mkWorld d (initialized w) (time w) (ticks w) (faults w).

Definition with_initialized (w : World) (b : bool) : World :=
  mkWorld (db w) b (time w) (ticks w) (faults w).

Definition with_ticks (w : World) (n : nat) : World :=
  mkWorld (db w) (initialized w) (time w) n (faults w).

Definition with_faults (w : World) (f : list (option string)) : World :=
  mkWorld (db w) (initialized w) (time w) (ticks w) f.

(** ** Computations that may throw *)

Inductive Outcome (A : Type) : Type :=
  | Return (a : A)
  | Throw (message : string).
Arguments Return {A} a.
Arguments Throw {A} message.

Definition Js (A : Type) : Type := World → Outcome A * World.

Definition ret {A} (a : A) : Js A := λ w, (Return a, w).

Definition throw {A} (message : string) : Js A := λ w, (Throw message, w).

Definition bind {A B} (m : Js A) (k : A → Js B) : Js B := λ w,
  match m w with
  | (Return a, w') => k a w'
  | (Throw e, w') => (Throw e, w')
  end.

(** [try { m } catch (error) { handler(error.message) }]: what [m] wrote
    before it threw stays written. *)
Definition try_catch {A} (m : Js A) (handler : string → Js A) : Js A := λ w,
  match m w with
  | (Return a, w') => (Return a, w')
  | (Throw e, w') => handler e w'
  end.

Declare Scope js_scope.
Delimit Scope js_scope with js.
Notation "'let!' x ':=' m 'in' k" := (bind m (λ x, k))
  (at level 10, x name, m at level 100, k at level 200) : js_scope.
Notation "m ';;;' k" := (bind m (λ _, k))
  (at level 100, k at level 200, right associativity) : js_scope.
Open Scope js_scope.

Definition Date_now : Js Z := λ w,
  (Return (time w (ticks w)), with_ticks w (S (ticks w))).

Fixpoint mapM {A B} (f : A → Js B) (l : list A) : Js (list B) :=
  match l with
  | [] => ret []
  | x :: l' => let! y := f x in let! ys := mapM f l' in ret (y :: ys)
  end.

(** ** The engine *)

Module RunResult.
Record t := mk { changes : Z }.
End RunResult.

Definition set_sessions (d : Database) (s : gmap string SessionRow.t) : Database :=
  mkDatabase (isOpen d) (journal_mode_wal d) (foreign_keys d) (Some s)
    (events d) (idx_events_sessionId d) (sqlite_sequence d).

Definition set_events (d : Database) (l : list EventRow.t) (seq : Z) : Database :=
  mkDatabase (isOpen d) (journal_mode_wal d) (foreign_keys d) (sessions d)
    (Some l) (idx_events_sessionId d) seq.

(** What [prepare] (or [exec]) refuses before anything runs. *)
Definition prepare (needs_sessions needs_events : bool) (d : Database) : option string :=
  if negb (isOpen d) then Some "database is not open"
  else if needs_sessions && negb (bool_decide (is_Some (sessions d)))
  then Some "no such table: sessions"
  else if needs_events && negb (bool_decide (is_Some (events d)))
  then Some "no such table: events"
  else None.

(** One statement: compiled, then run unless the engine refuses it. *)
Definition statement {A} (needs_sessions needs_events : bool)
    (run : Database → Outcome A * Database) : Js A := λ w,
  match prepare needs_sessions needs_events (db w) with
  | Some e => (Throw e, w)
  | None =>
    match faults w with
    | Some e :: rest => (Throw e, with_faults w rest)
    | None :: rest =>
      let '(r, d) := run (db w) in (r, with_db (with_faults w rest) d)
    | [] => let '(r, d) := run (db w) in (r, with_db w d)
    end
  end.

(** [this.db.open()] *)
Definition db_open : Js unit := λ w,
  if isOpen (db w) then (Throw "database is already open", w)
  else
    let opened d := mkDatabase true (journal_mode_wal d) (foreign_keys d)
      (sessions d) (events d) (idx_events_sessionId d) (sqlite_sequence d) in
    match faults w with
    | Some e :: rest => (Throw e, with_faults w rest)
    | None :: rest => (Return tt, with_db (with_faults w rest) (opened (db w)))
    | [] => (Return tt, with_db w (opened (db w)))
    end.

(** [this.db.close()] *)
Definition db_close : Js unit := λ w,
  let d := db w in
  (Return tt, with_db w (mkDatabase false (journal_mode_wal d) (foreign_keys d)
    (sessions d) (events d) (idx_events_sessionId d) (sqlite_sequence d))).

(** [PRAGMA journal_mode = WAL] *)
Definition PRAGMA_journal_mode_WAL : Js unit :=
  statement false false (λ d,
    (Return tt, mkDatabase (isOpen d) true (foreign_keys d) (sessions d)
      (events d) (idx_events_sessionId d) (sqlite_sequence d))).

(** [CREATE TABLE IF NOT EXISTS sessions (...)] *)
Definition CREATE_TABLE_sessions : Js unit :=
  statement false false (λ d, (Return tt, set_sessions d (session_rows d))).

(** [CREATE TABLE IF NOT EXISTS events (...)] *)
Definition CREATE_TABLE_events : Js unit :=
  statement false false (λ d,
    (Return tt, set_events d (event_rows d) (sqlite_sequence d))).

(** [CREATE INDEX IF NOT EXISTS idx_events_sessionId ON events (sessionId)] *)
Definition CREATE_INDEX_idx_events_sessionId : Js unit :=
  statement false true (λ d,
    (Return tt, mkDatabase (isOpen d) (journal_mode_wal d) (foreign_keys d)
      (sessions d) (events d) true (sqlite_sequence d))).

(** [PRAGMA foreign_keys = ON] *)
Definition PRAGMA_foreign_keys_ON : Js unit :=
  statement false false (λ d,
    (Return tt, mkDatabase (isOpen d) (journal_mode_wal d) true (sessions d)
      (events d) (idx_events_sessionId d) (sqlite_sequence d))).

(** [INSERT INTO sessions (id, createdAt, updatedAt, name, workingDirectory, tags)
    VALUES (?, ?, ?, ?, ?, ?)] *)
Definition INSERT_INTO_sessions (row : SessionRow.t) : Js RunResult.t :=
  statement true false (λ d,
    match session_rows d !! SessionRow.id row with
    | Some _ => (Throw "UNIQUE constraint failed: sessions.id", d)
    | None =>
      (Return (RunResult.mk 1),
       set_sessions d (<[SessionRow.id row := row]> (session_rows d)))
    end).

(** The assignments of an [UPDATE sessions SET ...], in the order the
    clauses were pushed. *)
Inductive SetClause :=
  | SET_name (v : option string)
  | SET_workingDirectory (v : string)
  | SET_tags (v : option string)
  | SET_updatedAt (v : Z).

Definition assign (row : SessionRow.t) (c : SetClause) : SessionRow.t :=
  match c with
  | SET_name v =>
    SessionRow.mk (SessionRow.id row) (SessionRow.createdAt row)
      (SessionRow.updatedAt row) v (SessionRow.workingDirectory row)
      (SessionRow.tags row)
  | SET_workingDirectory v =>
    SessionRow.mk (SessionRow.id row) (SessionRow.createdAt row)
      (SessionRow.updatedAt row) (SessionRow.name row) v (SessionRow.tags row)
  | SET_tags v =>
    SessionRow.mk (SessionRow.id row) (SessionRow.createdAt row)
      (SessionRow.updatedAt row) (SessionRow.name row)
      (SessionRow.workingDirectory row) v
  | SET_updatedAt v =>
    SessionRow.mk (SessionRow.id row) (SessionRow.createdAt row) v
      (SessionRow.name row) (SessionRow.workingDirectory row)
      (SessionRow.tags row)
  end.

(** [UPDATE sessions SET ... WHERE id = ?] *)
Definition UPDATE_sessions (setClauses : list SetClause) (id : string) : Js RunResult.t :=
  statement true false (λ d,
    match session_rows d !! id with
    | Some row =>
      (Return (RunResult.mk 1),
       set_sessions d (<[id := foldl assign row setClauses]> (session_rows d)))
    | None => (Return (RunResult.mk 0), d)
    end).

(** [Number.MAX_SAFE_INTEGER] *)
Definition MAX_SAFE_INTEGER : Z := 9007199254740991.

Definition is_safe_integer (v : Z) : bool := (Z.abs v <=? MAX_SAFE_INTEGER)%Z.

(** A number bound to a column of INTEGER affinity is kept as a 64-bit
    integer when it fits one, and as a float otherwise. *)
Definition kept_as_integer (v : Z) : bool :=
  (Z.abs v <? 9223372036854775808)%Z.

(** The statements are prepared without [readBigInts]: reading a row,
    [stmt.get] and [stmt.all] throw a [RangeError] on a 64-bit integer that
    is not a safe integer, and return a float as it is. *)
Definition column_readable (v : Z) : bool :=
  is_safe_integer v || negb (kept_as_integer v).

Definition row_readable (row : SessionRow.t) : bool :=
  column_readable (SessionRow.createdAt row) &&
  column_readable (SessionRow.updatedAt row).

(** [SELECT id, createdAt, updatedAt, name, workingDirectory, tags
    FROM sessions WHERE id = ?] *)
Definition SELECT_session (id : string) : Js (option SessionRow.t) :=
  statement true false (λ d,
    (match session_rows d !! id with
     | Some row =>
       if row_readable row then Return (Some row) else Throw RangeError_message
     | None => Return None
     end, d)).

(** [SELECT 1 as existsFlag FROM sessions WHERE id = ?] *)
Definition SELECT_existsFlag (id : string) : Js (option ExistsResult.t) :=
  statement true false (λ d,
    (Return (match session_rows d !! id with
             | Some _ => Some (ExistsResult.mk 1)
             | None => None
             end), d)).

Definition of_session (sessionId : string) (l : list EventRow.t) : list EventRow.t :=
  filter (λ r, EventRow.sessionId r = sessionId) l.

Definition not_of_session (sessionId : string) (l : list EventRow.t) : list EventRow.t :=
  filter (λ r, EventRow.sessionId r ≠ sessionId) l.

(** [DELETE FROM events WHERE sessionId = ?] *)
Definition DELETE_FROM_events (sessionId : string) : Js RunResult.t :=
  statement false true (λ d,
    (Return (RunResult.mk (Z.of_nat (length (of_session sessionId (event_rows d))))),
     set_events d (not_of_session sessionId (event_rows d)) (sqlite_sequence d))).

(** [DELETE FROM sessions WHERE id = ?]; with foreign keys enforced the
    events of the session go with it ([ON DELETE CASCADE]). *)
Definition DELETE_FROM_sessions (id : string) : Js RunResult.t :=
  statement true false (λ d,
    match session_rows d !! id with
    | Some _ =>
      let d' := set_sessions d (delete id (session_rows d)) in
      (Return (RunResult.mk 1),
       if foreign_keys d
       then match events d with
            | Some l => set_events d' (not_of_session id l) (sqlite_sequence d)
            | None => d'
            end
       else d')
    | None => (Return (RunResult.mk 0), d)
    end).

(** The rowid an [AUTOINCREMENT] key gets: one more than the largest ever
    given out. *)
Definition next_rowid (d : Database) : Z :=
  1 + foldr Z.max (sqlite_sequence d) (EventRow.id <$> event_rows d).

(** [INSERT INTO events (sessionId, timestamp, eventData) VALUES (?, ?, ?)] *)
Definition INSERT_INTO_events (sessionId : string) (timestamp : Z)
    (eventData : string) : Js RunResult.t :=
  statement false true (λ d,
    if foreign_keys d && negb (bool_decide (is_Some (session_rows d !! sessionId)))
    then (Throw "FOREIGN KEY constraint failed", d)
    else
      let rowid := next_rowid d in
      (Return (RunResult.mk 1),
       set_events d
         (event_rows d ++ [EventRow.mk rowid sessionId timestamp eventData])
         rowid)).

(** [ORDER BY timestamp ASC, id ASC] *)
Definition timestamp_id_le (a b : EventRow.t) : Prop :=
  (EventRow.timestamp a < EventRow.timestamp b)%Z ∨
  (EventRow.timestamp a = EventRow.timestamp b ∧ (EventRow.id a ≤ EventRow.id b)%Z).

#[global] Instance timestamp_id_le_dec : RelDecision timestamp_id_le.
Proof. intros a b. unfold timestamp_id_le. apply _. Defined.

Definition ORDER_BY_timestamp_id (l : list EventRow.t) : list EventRow.t :=
  merge_sort timestamp_id_le l.

(** [SELECT eventData FROM events WHERE sessionId = ?
    ORDER BY timestamp ASC, id ASC] *)
Definition SELECT_eventData (sessionId : string) : Js (list string) :=
  statement false true (λ d,
    (Return (EventRow.eventData <$>
               ORDER_BY_timestamp_id (of_session sessionId (event_rows d))), d)).

(** ** SQLiteStorageProvider *)

Section SQLiteStorageProvider.
Context `{JSON}.

(** [JSON.stringify(v)] and [JSON.parse(text)] as statements of a method. *)
Definition stringify (v : JSValue) : Js string :=
  match JSON_stringify v with
  | Some text => ret text
  | None => throw TypeError_message
  end.

Definition parse (text : string) : Js JSValue :=
  match JSON_parse text with
  | Some v => ret v
  | None => throw SyntaxError_message
  end.

(** [t || Date.now()]: the clock is read only when [t] is missing or zero. *)
Definition or_now (t : option Z) : Js Z :=
  match t with
  | Some t => if (t =? 0)%Z then Date_now else ret t
  | None => Date_now
  end.

(** [tags ? JSON.stringify(tags) : null] *)
Definition tags_column (tags : option JSValue) : Js (option string) :=
  match tags with
  | Some v => if truthy v then let! text := stringify v in ret (Some text)
              else ret None
  | None => ret None
  end.

(** [row.tags ? JSON.parse(row.tags) : undefined] *)
Definition tags_property (tags : option string) : Js (option JSValue) :=
  match or_absent tags with
  | Some text => let! v := parse text in ret (Some v)
  | None => ret None
  end.

Definition initialize : Js unit := λ w,
  if negb (initialized w) then
    try_catch
      (db_open ;;;
       PRAGMA_journal_mode_WAL ;;;
       CREATE_TABLE_sessions ;;;
       CREATE_TABLE_events ;;;
       CREATE_INDEX_idx_events_sessionId ;;;
       PRAGMA_foreign_keys_ON ;;;
       (λ w, (Return tt, with_initialized w true)))
      (λ error, throw error) w
  else (Return tt, w).

Definition ensureInitialized : Js unit := λ w,
  if negb (initialized w) then initialize w else (Return tt, w).

Definition createSession (metadata : SessionMetadata.t) : Js SessionMetadata.t :=
  ensureInitialized ;;;
  let! createdAt := or_now (SessionMetadata.createdAt metadata) in
  let! updatedAt := or_now (SessionMetadata.updatedAt metadata) in
  let sessionData :=
    SessionMetadata.mk (SessionMetadata.id metadata) (Some createdAt)
      (Some updatedAt) (SessionMetadata.name metadata)
      (SessionMetadata.workingDirectory metadata)
      (SessionMetadata.tags metadata) in
  let! tagsJson := tags_column (SessionMetadata.tags sessionData) in
  try_catch
    (INSERT_INTO_sessions
       (SessionRow.mk (SessionMetadata.id sessionData) createdAt updatedAt
          (or_absent (SessionMetadata.name sessionData))
          (SessionMetadata.workingDirectory sessionData) tagsJson) ;;;
     ret sessionData)
    (λ error, throw ("Failed to create session: " +:+ error)).

Definition getSessionMetadata (sessionId : string) : Js (option SessionMetadata.t) :=
  ensureInitialized ;;;
  try_catch
    (let! row := SELECT_session sessionId in
     match row with
     | None => ret None
     | Some row =>
       let! tags := tags_property (SessionRow.tags row) in
       ret (Some (SessionMetadata.mk (SessionRow.id row)
                    (Some (SessionRow.createdAt row))
                    (Some (SessionRow.updatedAt row))
                    (or_absent (SessionRow.name row))
                    (SessionRow.workingDirectory row) tags))
     end)
    (λ error, throw ("Failed to get session: " +:+ error)).

(** [{ ...session, ...metadata, updatedAt }] *)
Definition merged (session : SessionMetadata.t) (metadata : Partial.t)
    (updatedAt : Z) : SessionMetadata.t :=
  SessionMetadata.mk (SessionMetadata.id session)
    (match Partial.createdAt metadata with
     | Some t => Some t
     | None => SessionMetadata.createdAt session
     end)
    (Some updatedAt)
    (match Partial.name metadata with
     | Some n => Some n
     | None => SessionMetadata.name session
     end)
    (match Partial.workingDirectory metadata with
     | Some d => d
     | None => SessionMetadata.workingDirectory session
     end)
    (match Partial.tags metadata with
     | Some t => Some t
     | None => SessionMetadata.tags session
     end).

(** The clauses [updateSessionMetadata] pushes, one per supplied property,
    the timestamp last. *)
Definition setClauses (metadata : Partial.t) (updatedAt : Z) : Js (list SetClause) :=
  let name_clause :=
    match Partial.name metadata with
    | Some n => [SET_name (or_absent (Some n))]
    | None => []
    end in
  let workingDirectory_clause :=
    match Partial.workingDirectory metadata with
    | Some d => [SET_workingDirectory d]
    | None => []
    end in
  let! tags_clause :=
    match Partial.tags metadata with
    | Some v => let! column := tags_column (Some v) in ret [SET_tags column]
    | None => ret []
    end in
  ret (name_clause ++ workingDirectory_clause ++ tags_clause
       ++ [SET_updatedAt updatedAt]).

Definition updateSessionMetadata (sessionId : string) (metadata : Partial.t)
    : Js SessionMetadata.t :=
  ensureInitialized ;;;
  let! session := getSessionMetadata sessionId in
  match session with
  | None => throw ("Session not found: " +:+ sessionId)
  | Some session =>
    let! now := Date_now in
    let updatedSession := merged session metadata now in
    try_catch
      (let! clauses := setClauses metadata now in
       if (length clauses =? 0)%nat then ret updatedSession
       else
         UPDATE_sessions clauses sessionId ;;;
         ret updatedSession)
      (λ error, throw ("Failed to update session: " +:+ error))
  end.

Definition deleteSession (sessionId : string) : Js bool :=
  ensureInitialized ;;;
  try_catch
    (DELETE_FROM_events sessionId ;;;
     let! result := DELETE_FROM_sessions sessionId in
     ret (0 <? RunResult.changes result)%Z)
    (λ error, throw ("Failed to delete session: " +:+ error)).

(** [!sessionExists || !sessionExists.existsFlag] *)
Definition missing (sessionExists : option ExistsResult.t) : bool :=
  match sessionExists with
  | None => true
  | Some r => (ExistsResult.existsFlag r =? 0)%Z
  end.

Definition saveEvent (sessionId : string) (event : JSValue) : Js unit :=
  ensureInitialized ;;;
  try_catch
    (let! sessionExists := SELECT_existsFlag sessionId in
     if missing sessionExists then throw ("Session not found: " +:+ sessionId)
     else
       let! timestamp := Date_now in
       let! eventData := stringify event in
       INSERT_INTO_events sessionId timestamp eventData ;;;
       UPDATE_sessions [SET_updatedAt timestamp] sessionId ;;;
       ret tt)
    (λ error, throw ("Failed to save event: " +:+ error)).

(** The record that stands in for a row whose text does not parse. *)
Definition placeholder (timestamp : Z) : JSValue :=
  JObj [("type", JStr "system");
        ("message", JStr "Failed to parse event data");
        ("timestamp", JNum timestamp)].

(** The callback of [rows.map]. *)
Definition decode (eventData : string) : Js JSValue :=
  try_catch (parse eventData)
    (λ _, let! now := Date_now in ret (placeholder now)).

Definition getSessionEvents (sessionId : string) : Js (list JSValue) :=
  ensureInitialized ;;;
  try_catch
    (let! sessionExists := SELECT_existsFlag sessionId in
     if missing sessionExists then throw ("Session not found: " +:+ sessionId)
     else
       let! rows := SELECT_eventData sessionId in
       mapM decode rows)
    (λ error, throw ("Failed to get session events: " +:+ error)).

Definition close : Js unit := λ w,
  if isOpen (db w) then db_close w else (Return tt, w).

End SQLiteStorageProvider.


(** ** The listing of sessions, and the methods as a caller sees them *)

(** [ORDER BY updatedAt DESC] *)
Definition updatedAt_ge (a b : SessionRow.t) : Prop :=
  (SessionRow.updatedAt b ≤ SessionRow.updatedAt a)%Z.

#[global] Instance updatedAt_ge_dec : RelDecision updatedAt_ge.
Proof. intros a b. unfold updatedAt_ge. apply _. Defined.

(** [SELECT id, createdAt, updatedAt, name, workingDirectory, tags
    FROM sessions ORDER BY updatedAt DESC].  Among rows of equal
    [updatedAt] the order is the engine's to choose; here it is that of the
    keys.  [stmt.all] reads every row, and throws when one of them cannot
    be read. *)
Definition SELECT_sessions : Js (list SessionRow.t) :=
  statement true false (λ d,
    let rows := merge_sort updatedAt_ge ((map_to_list (session_rows d)).*2) in
    (if forallb row_readable rows then Return rows
     else Throw RangeError_message, d)).

Section Listing.
Context `{JSON}.

(** The callback of [rows.map] in [getAllSessions]. *)
Definition listed (row : SessionRow.t) : Js SessionMetadata.t :=
  let! tags := tags_property (SessionRow.tags row) in
  ret (SessionMetadata.mk (SessionRow.id row)
         (Some (SessionRow.createdAt row))
         (Some (SessionRow.updatedAt row))
         (or_absent (SessionRow.name row))
         (SessionRow.workingDirectory row) tags).

Definition getAllSessions : Js (list SessionMetadata.t) :=
  ensureInitialized ;;;
  try_catch
    (let! rows := SELECT_sessions in
     mapM listed rows)
    (λ error, throw ("Failed to get all sessions: " +:+ error)).

End Listing.

(** One call of a public method of the provider. *)
Inductive Call : Type :=
  | Initialize
  | CreateSession (metadata : SessionMetadata.t)
  | UpdateSessionMetadata (sessionId : string) (metadata : Partial.t)
  | GetSessionMetadata (sessionId : string)
  | GetAllSessions
  | DeleteSession (sessionId : string)
  | SaveEvent (sessionId : string) (event : JSValue)
  | GetSessionEvents (sessionId : string)
  | Close.

(** The world a call leaves, whether it returned or threw. *)
Definition after `{JSON} (c : Call) (w : World) : World :=
  match c with
  | Initialize => (initialize w).2
  | CreateSession metadata => (createSession metadata w).2
  | UpdateSessionMetadata sessionId metadata =>
    (updateSessionMetadata sessionId metadata w).2
  | GetSessionMetadata sessionId => (getSessionMetadata sessionId w).2
  | GetAllSessions => (getAllSessions w).2
  | DeleteSession sessionId => (deleteSession sessionId w).2
  | SaveEvent sessionId event => (saveEvent sessionId event w).2
  | GetSessionEvents sessionId => (getSessionEvents sessionId w).2
  | Close => (close w).2
  end.

(** A sequence of calls, one after the other, none of them awaited
    concurrently with another. *)
Definition history `{JSON} (calls : list Call) (w : World) : World :=
  foldl (λ w c, after c w) w calls.

(** ** Running the store *)

(** A store that went through [initialize] and was not closed since. *)
Definition ready (w : World) : Prop :=
  initialized w = true ∧ isOpen (db w) = true ∧
  is_Some (sessions (db w)) ∧ is_Some (events (db w)).

(** The engine refuses none of the coming statements. *)
Definition undisturbed (w : World) : Prop := faults w = [].

(** The rows of both tables are those of [w]. *)
Definition same_rows (w w' : World) : Prop :=
  session_rows (db w') = session_rows (db w) ∧
  event_rows (db w') = event_rows (db w).

(** The log of a session, in the order its events were inserted. *)
Definition log (sessionId : string) (w : World) : list EventRow.t :=
  of_session sessionId (event_rows (db w)).

Definition same_tables (d d' : Database) : Prop :=
  session_rows d' = session_rows d ∧ event_rows d' = event_rows d.

(** Whatever [m] does and however it ends, the worlds before and after
    are related by [R]. *)
Definition keeps {A} (R : World → World → Prop) (m : Js A) : Prop :=
  ∀ w r w', m w = (r, w') → R w w'.

(** Appending a batch of events, one [saveEvent] each. *)
Definition saveEvents `{JSON} (sessionId : string) (batch : list JSValue) : Js unit :=
  foldr (λ event rest, saveEvent sessionId event ;;; rest) (ret tt) batch.

(** The rowids of a table grow along its rows. *)
Definition rowid_ordered (l : list EventRow.t) : Prop :=
  StronglySorted (λ a b, (EventRow.id a < EventRow.id b)%Z) l.


(** A [saveEvent] that took [w] to [w'] either wrote nothing, or wrote the
    event row and moved [updatedAt] of the session to the timestamp of that
    row. *)
Definition both_or_neither (sessionId : string) (w w' : World) : Prop :=
  (event_rows (db w') = event_rows (db w) ∧
   session_rows (db w') = session_rows (db w)) ∨
  (∃ ev row,
     event_rows (db w') = event_rows (db w) ++ [ev] ∧
     session_rows (db w') !! sessionId = Some row ∧
     SessionRow.updatedAt row = EventRow.timestamp ev).

(** [!t] for an optional timestamp. *)
Definition falsy_time (t : option Z) : bool :=
  match t with
  | Some t => (t =? 0)%Z
  | None => true
  end.

(** What [tags_column] returns when [JSON.stringify] does not throw, and
    what [tags_property] returns when [JSON.parse] does not. *)
Definition column_of_tags `{JSON} (tags : option JSValue) : option string :=
  match tags with
  | Some v => if truthy v then JSON_stringify v else None
  | None => None
  end.

Definition tags_of_column `{JSON} (column : option string) : option JSValue :=
  match or_absent column with
  | Some text => JSON_parse text
  | None => None
  end.

Definition tags_storable `{JSON} (tags : option JSValue) : Prop :=
  ∀ v, tags = Some v → truthy v = true → is_Some (JSON_stringify v).

Definition tags_readable `{JSON} (column : option string) : Prop :=
  ∀ text, or_absent column = Some text → is_Some (JSON_parse text).

(** The record [getSessionMetadata] makes of a row. *)
Definition metadata_of_row `{JSON} (row : SessionRow.t) : SessionMetadata.t :=
  SessionMetadata.mk (SessionRow.id row) (Some (SessionRow.createdAt row))
    (Some (SessionRow.updatedAt row)) (or_absent (SessionRow.name row))
    (SessionRow.workingDirectory row) (tags_of_column (SessionRow.tags row)).

(** The row [updateSessionMetadata] leaves in place of [row]. *)
Definition updated_row `{JSON} (row : SessionRow.t) (metadata : Partial.t)
    (updatedAt : Z) : SessionRow.t :=
  SessionRow.mk (SessionRow.id row) (SessionRow.createdAt row) updatedAt
    (match Partial.name metadata with
     | Some n => or_absent (Some n)
     | None => SessionRow.name row
     end)
    (match Partial.workingDirectory metadata with
     | Some d => d
     | None => SessionRow.workingDirectory row
     end)
    (match Partial.tags metadata with
     | Some v => column_of_tags (Some v)
     | None => SessionRow.tags row
     end).

(** The law of an encoding that loses nothing: what [JSON.stringify] writes,
    [JSON.parse] reads back. *)
Definition round_trips `{JSON} : Prop :=
  ∀ v text, JSON_stringify v = Some text → JSON_parse text = Some v.

(** After a [deleteSession] that took [w] to [w'], the session and its log
    have gone together or stayed together. *)
Definition deleted_together (sessionId : string) (w w' : World) : Prop :=
  (session_rows (db w') !! sessionId = None ∧ log sessionId w' = []) ∨
  (session_rows (db w') !! sessionId = session_rows (db w) !! sessionId ∧
   log sessionId w' = log sessionId w).

(** What a sparse update of the name does to a session, in the words of the
    specification: it returns, leaves [workingDirectory], [tags] and
    [createdAt] as they were and moves [updatedAt] to the present. *)
Definition renamed `{JSON} (sessionId name : string) (w : World) : Prop :=
  ∃ record w' row row',
    session_rows (db w) !! sessionId = Some row ∧
    updateSessionMetadata sessionId (Partial.mk None None (Some name) None None) w =
      (Return record, w') ∧
    session_rows (db w') !! sessionId = Some row' ∧
    SessionRow.workingDirectory row' = SessionRow.workingDirectory row ∧
    SessionRow.tags row' = SessionRow.tags row ∧
    SessionRow.createdAt row' = SessionRow.createdAt row ∧
    SessionRow.updatedAt row' = time w (ticks w).

(** What becomes of an empty name given to [createSession], in the words of
    the specification: the column is NULL and [getSessionMetadata] returns
    the record without a name. *)
Definition comes_back_unnamed `{JSON} (metadata : SessionMetadata.t) (w : World)
    : Prop :=
  ∃ record w' row record',
    createSession metadata w = (Return record, w') ∧
    session_rows (db w') !! SessionMetadata.id metadata = Some row ∧
    SessionRow.name row = None ∧
    getSessionMetadata (SessionMetadata.id metadata) w' =
      (Return (Some record'), w') ∧
    SessionMetadata.name record' = None.

(** ** Invariants of the tables *)

(** Every event row belongs to a session that is there. *)
Definition referential (d : Database) : Prop :=
  ∀ ev, ev ∈ event_rows d →
    is_Some (session_rows d !! EventRow.sessionId ev).

(** No rowid in the events table is beyond the largest one given out. *)
Definition rowids_bounded (d : Database) : Prop :=
  Forall (λ ev, (EventRow.id ev ≤ sqlite_sequence d)%Z) (event_rows d).

(** A session is stored under its own id. *)
Definition keyed (d : Database) : Prop :=
  ∀ k row, session_rows d !! k = Some row → SessionRow.id row = k.

(** What holds of a store however it was used: foreign keys are enforced
    once it is initialised, and the tables are as above. *)
Definition consistent (w : World) : Prop :=
  (initialized w = true → foreign_keys (db w) = true) ∧
  referential (db w) ∧
  rowid_ordered (event_rows (db w)) ∧
  rowids_bounded (db w) ∧
  keyed (db w).

(** The same, for a store whose [initialized] flag is set. *)
Definition consistent_initialized (w : World) : Prop :=
  initialized w = true ∧ consistent w.

(** [w'] satisfies [P] if [w] did. *)
Definition stable (P : World → Prop) (w w' : World) : Prop := P w → P w'.

(** Neither the database nor the flag of the store has changed. *)
Definition same_store (w w' : World) : Prop :=
  db w' = db w ∧ initialized w' = initialized w.

(** The row and the log of every session but [sessionId] are those of [w]. *)
Definition others_untouched (sessionId : string) (w w' : World) : Prop :=
  ∀ other, other ≠ sessionId →
    session_rows (db w') !! other = session_rows (db w) !! other ∧
    log other w' = log other w.

(** The rowids given out never go back, and a row of [w'] either was in [w]
    or has a rowid beyond every one given out by then. *)
Definition rowids_fresh (w w' : World) : Prop :=
  (sqlite_sequence (db w) ≤ sqlite_sequence (db w'))%Z ∧
  ∀ ev, ev ∈ event_rows (db w') →
    ev ∈ event_rows (db w) ∨ (sqlite_sequence (db w) < EventRow.id ev)%Z.

(** A tags column that [JSON.parse] rejects. *)
Definition tags_unreadable `{JSON} (column : option string) : Prop :=
  ∃ text, or_absent column = Some text ∧ JSON_parse text = None.

(** The rows of the sessions table, as a scan finds them. *)
Definition scanned (d : Database) : list SessionRow.t :=
  (map_to_list (session_rows d)).*2.

(** The rows of both tables and the largest rowid given out are those of
    [w]. *)
Definition same_data (w w' : World) : Prop :=
  same_rows w w' ∧ sqlite_sequence (db w') = sqlite_sequence (db w).

(** Foreign keys stay enforced once they are, and the flag of the store is
    not set without them. *)
Definition enforcing (w w' : World) : Prop :=
  (foreign_keys (db w) = true → foreign_keys (db w') = true) ∧
  (initialized w' = initialized w ∨ foreign_keys (db w') = true).

(** ** A JSON implementation to run the store on *)

(** Integers, strings with escaped quotes and backslashes, arrays and
    objects, without insignificant white space on the way out and with it
    accepted on the way in. *)
Module Runtime.

Definition quote : ascii := "034"%char.
Definition backslash : ascii := "092"%char.

Fixpoint digits (fuel : nat) (n : N) (acc : string) : string :=
  match fuel with
  | O => acc
  | S fuel =>
    let acc' := String (Ascii.ascii_of_N (48 + n `mod` 10)) acc in
    if (n `div` 10 =? 0)%N then acc' else digits fuel (n `div` 10)%N acc'
  end.

Definition number_text (z : Z) : string :=
  let n := Z.abs_N z in
  let body := digits (S (N.size_nat n)) n EmptyString in
  if (z <? 0)%Z then String "-" body else body.

Fixpoint escaped (s : string) : string :=
  match s with
  | EmptyString => EmptyString
  | String c rest =>
    if Ascii.eqb c quote || Ascii.eqb c backslash
    then String backslash (String c (escaped rest))
    else String c (escaped rest)
  end.

Definition quoted (s : string) : string :=
  String quote (escaped s +:+ String quote EmptyString).

Fixpoint text_of (v : JSValue) : string :=
  match v with
  | JNull => "null"
  | JBool true => "true"
  | JBool false => "false"
  | JNum n => number_text n
  | JStr s => quoted s
  | JArr items =>
    "[" +:+
    (fix go (l : list JSValue) : string :=
       match l with
       | [] => EmptyString
       | [x] => text_of x
       | x :: l' => text_of x +:+ "," +:+ go l'
       end) items +:+ "]"
  | JObj props =>
    "{" +:+
    (fix go (l : list (string * JSValue)) : string :=
       match l with
       | [] => EmptyString
       | [(k, x)] => quoted k +:+ ":" +:+ text_of x
       | (k, x) :: l' => quoted k +:+ ":" +:+ text_of x +:+ "," +:+ go l'
       end) props +:+ "}"
  end.

(** The items of an array and the properties of an object, as [text_of]
    joins them. *)
Definition items_text : list JSValue → string :=
  fix go (l : list JSValue) : string :=
    match l with
    | [] => EmptyString
    | [x] => text_of x
    | x :: l' => text_of x +:+ "," +:+ go l'
    end.

Definition props_text : list (string * JSValue) → string :=
  fix go (l : list (string * JSValue)) : string :=
    match l with
    | [] => EmptyString
    | [(k, x)] => quoted k +:+ ":" +:+ text_of x
    | (k, x) :: l' => quoted k +:+ ":" +:+ text_of x +:+ "," +:+ go l'
    end.

Fixpoint skip_space (s : string) : string :=
  match s with
  | String c rest => if Ascii.is_space c then skip_space rest else s
  | EmptyString => EmptyString
  end.

(** The text after an opening quote, up to the closing one. *)
Fixpoint read_string (s : string) : option (string * string) :=
  match s with
  | EmptyString => None
  | String c rest =>
    if Ascii.eqb c quote then Some (EmptyString, rest)
    else if Ascii.eqb c backslash then
      match rest with
      | String c' rest' =>
        if Ascii.eqb c' quote || Ascii.eqb c' backslash then
          match read_string rest' with
          | Some (body, r) => Some (String c' body, r)
          | None => None
          end
        else None
      | EmptyString => None
      end
    else
      match read_string rest with
      | Some (body, r) => Some (String c body, r)
      | None => None
      end
  end.

Fixpoint read_digits (s : string) (acc : N) (seen : bool) : option (N * string) :=
  match s with
  | String c rest =>
    match Ascii.is_nat c with
    | Some d => read_digits rest (10 * acc + N.of_nat d)%N true
    | None => if seen then Some (acc, s) else None
    end
  | EmptyString => if seen then Some (acc, s) else None
  end.

Fixpoint read_keyword (word s : string) : option string :=
  match word, s with
  | EmptyString, _ => Some s
  | String a word', String b s' =>
    if Ascii.eqb a b then read_keyword word' s' else None
  | String _ _, EmptyString => None
  end.

Fixpoint parse_value (fuel : nat) (s : string) : option (JSValue * string) :=
  match fuel with
  | O => None
  | S fuel =>
    match skip_space s with
    | EmptyString => None
    | String c rest =>
      if Ascii.eqb c "n" then
        r ← read_keyword "ull" rest; Some (JNull, r)
      else if Ascii.eqb c "t" then
        r ← read_keyword "rue" rest; Some (JBool true, r)
      else if Ascii.eqb c "f" then
        r ← read_keyword "alse" rest; Some (JBool false, r)
      else if Ascii.eqb c quote then
        '(body, r) ← read_string rest; Some (JStr body, r)
      else if Ascii.eqb c "-" then
        '(n, r) ← read_digits rest 0 false; Some (JNum (- Z.of_N n), r)
      else if Ascii.eqb c "[" then
        match skip_space rest with
        | String c' rest' =>
          if Ascii.eqb c' "]" then Some (JArr [], rest')
          else '(items, r) ← parse_items fuel rest; Some (JArr items, r)
        | EmptyString => None
        end
      else if Ascii.eqb c "{" then
        match skip_space rest with
        | String c' rest' =>
          if Ascii.eqb c' "}" then Some (JObj [], rest')
          else '(props, r) ← parse_props fuel rest; Some (JObj props, r)
        | EmptyString => None
        end
      else
        '(n, r) ← read_digits (String c rest) 0 false; Some (JNum (Z.of_N n), r)
    end
  end
with parse_items (fuel : nat) (s : string) : option (list JSValue * string) :=
  match fuel with
  | O => None
  | S fuel =>
    '(v, rest) ← parse_value fuel s;
    match skip_space rest with
    | String c rest' =>
      if Ascii.eqb c "," then
        '(vs, r) ← parse_items fuel rest'; Some (v :: vs, r)
      else if Ascii.eqb c "]" then Some ([v], rest')
      else None
    | EmptyString => None
    end
  end
with parse_props (fuel : nat) (s : string)
    : option (list (string * JSValue) * string) :=
  match fuel with
  | O => None
  | S fuel =>
    match skip_space s with
    | String q rest0 =>
      if Ascii.eqb q quote then
        '(key, rest1) ← read_string rest0;
        match skip_space rest1 with
        | String colon rest2 =>
          if Ascii.eqb colon ":" then
            '(v, rest) ← parse_value fuel rest2;
            match skip_space rest with
            | String c rest' =>
              if Ascii.eqb c "," then
                '(ps, r) ← parse_props fuel rest'; Some ((key, v) :: ps, r)
              else if Ascii.eqb c "}" then Some ([(key, v)], rest')
              else None
            | EmptyString => None
            end
          else None
        | EmptyString => None
        end
      else None
    | EmptyString => None
    end
  end.

(** Fuel that is enough to parse the text of a value. *)
Fixpoint need (v : JSValue) : nat :=
  match v with
  | JArr items =>
    S ((fix go (l : list JSValue) : nat :=
          match l with
          | [] => O
          | x :: l' => S (need x + go l')
          end) items)
  | JObj props =>
    S ((fix go (l : list (string * JSValue)) : nat :=
          match l with
          | [] => O
          | (_, x) :: l' => S (need x + go l')
          end) props)
  | _ => 1
  end.

Definition need_items : list JSValue → nat :=
  fix go (l : list JSValue) : nat :=
    match l with
    | [] => O
    | x :: l' => S (need x + go l')
    end.

Definition need_props : list (string * JSValue) → nat :=
  fix go (l : list (string * JSValue)) : nat :=
    match l with
    | [] => O
    | (_, x) :: l' => S (need x + go l')
    end.

(** What may follow a number: not a digit. *)
Definition ends_number (rest : string) : Prop :=
  match rest with
  | String c _ => Ascii.is_nat c = None
  | EmptyString => True
  end.

(** The text of [v], followed by anything that does not continue a number,
    parses back to [v]. *)
Definition parses (v : JSValue) : Prop :=
  ∀ fuel rest, (need v ≤ fuel)%nat → ends_number rest →
    parse_value fuel (text_of v +:+ rest) = Some (v, rest).

Definition value_of (text : string) : option JSValue :=
  '(v, rest) ← parse_value (2 * String.length text + 2) text;
  match skip_space rest with
  | EmptyString => Some v
  | String _ _ => None
  end.

#[global] Instance json : JSON := {|
  JSON_stringify v := Some (text_of v);
  JSON_parse := value_of
|}.

End Runtime.

(** ** A store to run *)

Module Sample.

(** A clock of millisecond readings that gives each reading twice, so that
    consecutive events can share a timestamp. *)
Definition clock (n : nat) : Z := Z.of_nat (n `div` 2) + 1700000000000.

(** [new SQLiteStorageProvider(path)] on a path where no database file
    exists yet. *)
Definition fresh : World :=
  mkWorld (mkDatabase false false false None None false 0) false clock 0 [].

Definition s1 : SessionMetadata.t :=
  SessionMetadata.mk "s1" None None (Some "demo") "/tmp"
    (Some (JArr [JStr "alpha"; JStr "beta"])).

Definition unnamed : SessionMetadata.t :=
  SessionMetadata.mk "s2" None None (Some EmptyString) "/srv" None.

Definition a : JSValue := JObj [("type", JStr "a")].
Definition b : JSValue := JObj [("type", JStr "b"); ("n", JNum 2)].
Definition c : JSValue := JObj [("type", JStr "c"); ("items", JArr [JNull; JBool true])].

(** The store after [createSession(s1)], which initialises it on the way. *)
Definition started : World := (createSession s1 fresh).2.

(** ... and after three events. *)
Definition recorded : World := (saveEvents "s1" [a; b; c] started).2.

(** The second row of the events table overwritten with text that is not
    JSON. *)
Definition damaged : World :=
  with_db recorded
    (set_events (db recorded)
       (alter (λ r, EventRow.mk (EventRow.id r) (EventRow.sessionId r)
                      (EventRow.timestamp r) "{oops")
          1%nat (event_rows (db recorded)))
       (sqlite_sequence (db recorded))).

(** An engine that runs two statements and refuses the third. *)
Definition interrupted : World :=
  with_faults started [None; None; Some "database is locked"].

Definition rename : Partial.t := Partial.mk None None (Some "X") None None.

Definition unname : Partial.t := Partial.mk None None (Some EmptyString) None None.

End Sample.

(** ** More stores to run *)

Module Scenario.

Definition s2 : SessionMetadata.t :=
  SessionMetadata.mk "s2" None None (Some "later") "/srv"
    (Some (JObj [("kind", JStr "scratch")])).

(** The sample store with a second session, which has one event. *)
Definition two : World :=
  (saveEvent "s2" Sample.b (createSession s2 Sample.recorded).2).2.

(** The tags column of the first session overwritten with text that is not
    JSON. *)
Definition mistagged : World :=
  with_db two
    (set_sessions (db two)
       (alter (λ r, SessionRow.mk (SessionRow.id r) (SessionRow.createdAt r)
                      (SessionRow.updatedAt r) (SessionRow.name r)
                      (SessionRow.workingDirectory r) (Some "[oops"))
          "s1" (session_rows (db two)))).

(** A store on which the engine opens the file and then refuses the first
    statement. *)
Definition unlucky : World :=
  with_faults Sample.fresh [None; Some "disk I/O error"].

(** A life of the store: two sessions, an event for a session that is not
    there, a deletion, and reads in between. *)
Definition calls : list Call :=
  [CreateSession Sample.s1; SaveEvent "s1" Sample.a; SaveEvent "ghost" Sample.b;
   GetAllSessions; CreateSession s2; SaveEvent "s2" Sample.b;
   GetSessionEvents "s1"; DeleteSession "s1"; SaveEvent "s2" Sample.c;
   UpdateSessionMetadata "s2" Sample.rename; Close].

(** What is done to the sample store once its three events are in. *)
Definition later : list Call :=
  [DeleteSession "s1"; CreateSession Sample.s1; SaveEvent "s1" Sample.a].

Definition dated : SessionMetadata.t :=
  SessionMetadata.mk "s3" (Some 0%Z) (Some 0%Z) None "/var" None.

Definition redate : Partial.t :=
  Partial.mk (Some 5%Z) (Some 7%Z) None None None.

(** The sample store with an engine that runs one statement and refuses
    the next. *)
Definition halfway : World :=
  with_faults Sample.recorded [None; Some "database is locked"].

(** A session with an empty name, created at a time that is an integer but
    not a safe one ([2^53]). *)
Definition oversized : SessionMetadata.t :=
  SessionMetadata.mk "s9" (Some 9007199254740992%Z) None (Some EmptyString)
    "/big" None.

Definition overdated : World := (createSession oversized Sample.started).2.

(** A [JSON] whose [stringify] throws, as the one of the runtime does on a
    value that refers to itself. *)
Definition circular : JSON := {|
  JSON_stringify _ := None;
  JSON_parse := Runtime.value_of
|}.

End Scenario.

(** ** Laws of the computations *)

Lemma bind_Return {A B} (m : Js A) (k : A → Js B) w a w' :
  m w = (Return a, w') → bind m k w = k a w'.
Proof. intros E. unfold bind. by rewrite E. Qed.

Lemma bind_Throw {A B} (m : Js A) (k : A → Js B) w e w' :
  m w = (Throw e, w') → bind m k w = (Throw e, w').
Proof. intros E. unfold bind. by rewrite E. Qed.

Lemma try_catch_Return {A} (m : Js A) h w a w' :
  m w = (Return a, w') → try_catch m h w = (Return a, w').
Proof. intros E. unfold try_catch. by rewrite E. Qed.

Lemma try_catch_Throw {A} (m : Js A) h w e w' :
  m w = (Throw e, w') → try_catch m h w = h e w'.
Proof. intros E. unfold try_catch. by rewrite E. Qed.

(** ** What a statement can do *)

Lemma prepare_ready a b w : ready w → prepare a b (db w) = None.
Proof.
  intros (_ & Ho & Hs & He). unfold prepare. rewrite Ho. simpl.
  rewrite !bool_decide_eq_true_2 by done. simpl.
  by rewrite !andb_false_r.
Qed.

Lemma statement_runs {A} a b (run : Database → Outcome A * Database) w :
  ready w → undisturbed w →
  statement a b run w = (let '(r, d) := run (db w) in (r, with_db w d)).
Proof.
  intros Hr Hu. unfold statement. rewrite prepare_ready by done.
  by rewrite Hu.
Qed.

(** A statement that returned was prepared and ran; the store instance and
    the clock are as before. *)
Lemma statement_Return {A} a b (run : Database → Outcome A * Database) w x w' :
  statement a b run w = (Return x, w') →
  prepare a b (db w) = None ∧ run (db w) = (Return x, db w') ∧
  initialized w' = initialized w ∧ time w' = time w ∧ ticks w' = ticks w ∧
  (undisturbed w → undisturbed w').
Proof.
  unfold statement, undisturbed. destruct (prepare a b (db w)); [done|].
  destruct (faults w) as [|[f|] fs] eqn:Ef; [| done |];
    destruct (run (db w)) as [r d]; intros [= -> <-]; simpl;
    repeat split; try done.
Qed.

(** A statement that threw either was refused, leaving the database as it
    was, or ran and raised the error itself. *)
Lemma statement_Throw {A} a b (run : Database → Outcome A * Database) w e w' :
  statement a b run w = (Throw e, w') →
  initialized w' = initialized w ∧ time w' = time w ∧ ticks w' = ticks w ∧
  (db w' = db w ∨ run (db w) = (Throw e, db w')).
Proof.
  unfold statement. destruct (prepare a b (db w)).
  { intros [= <- <-]. naive_solver. }
  destruct (faults w) as [|[f|] fs].
  - destruct (run (db w)) as [r d]; intros [= -> <-]; simpl; naive_solver.
  - intros [= <- <-]. simpl. naive_solver.
  - destruct (run (db w)) as [r d]; intros [= -> <-]; simpl; naive_solver.
Qed.

(** ** Computations that leave the rows alone *)

#[global] Instance same_rows_preorder : PreOrder same_rows.
Proof.
  split.
  - by intros w.
  - intros w1 w2 w3 [E1 E2] [E3 E4]. split; congruence.
Qed.

Section keeps.
Context {R : World → World → Prop} `{!PreOrder R}.

Lemma keeps_ret {A} (a : A) : keeps R (ret a).
Proof. intros w r w' [= <- <-]. reflexivity. Qed.

Lemma keeps_throw {A} e : keeps R (@throw A e).
Proof. intros w r w' [= <- <-]. reflexivity. Qed.

Lemma keeps_bind {A B} (m : Js A) (k : A → Js B) :
  keeps R m → (∀ a, keeps R (k a)) → keeps R (bind m k).
Proof.
  intros Hm Hk w r w'. unfold bind.
  destruct (m w) as [[a|e] w1] eqn:E; intros E'.
  - transitivity w1; [by eapply Hm | by eapply Hk].
  - injection E' as <- <-. by eapply Hm.
Qed.

Lemma keeps_try_catch {A} (m : Js A) h :
  keeps R m → (∀ e, keeps R (h e)) → keeps R (try_catch m h).
Proof.
  intros Hm Hh w r w'. unfold try_catch.
  destruct (m w) as [[a|e] w1] eqn:E; intros E'.
  - injection E' as <- <-. by eapply Hm.
  - transitivity w1; [by eapply Hm | by eapply Hh].
Qed.

Lemma keeps_mapM {A B} (f : A → Js B) l :
  (∀ x, keeps R (f x)) → keeps R (mapM f l).
Proof.
  intros Hf. induction l as [|x l IH]; simpl.
  - apply keeps_ret.
  - apply keeps_bind; [done|]. intros y.
    apply keeps_bind; [done|]. intros ys. apply keeps_ret.
Qed.
End keeps.

Lemma keeps_statement {A} a b (run : Database → Outcome A * Database) :
  (∀ d r d', run d = (r, d') → same_tables d d') →
  keeps same_rows (statement a b run).
Proof.
  intros Hrun w r w'. unfold statement.
  destruct (prepare a b (db w)); [by intros [= <- <-]|].
  destruct (faults w) as [|[f|] fs].
  - destruct (run (db w)) as [r0 d] eqn:E. intros [= <- <-]. by eapply Hrun.
  - by intros [= <- <-].
  - destruct (run (db w)) as [r0 d] eqn:E. intros [= <- <-]. by eapply Hrun.
Qed.

Lemma keeps_Date_now : keeps same_rows Date_now.
Proof. by intros w r w' [= <- <-]. Qed.

Lemma keeps_db_open : keeps same_rows db_open.
Proof.
  intros w r w'. unfold db_open. destruct (isOpen (db w)); [by intros [= <- <-]|].
  destruct (faults w) as [|[f|] fs]; by intros [= <- <-].
Qed.

Lemma keeps_stringify `{JSON} v : keeps same_rows (stringify v).
Proof. unfold stringify. destruct (JSON_stringify v); [apply keeps_ret | apply keeps_throw]. Qed.

Lemma keeps_parse `{JSON} text : keeps same_rows (parse text).
Proof. unfold parse. destruct (JSON_parse text); [apply keeps_ret | apply keeps_throw]. Qed.

Lemma keeps_decode `{JSON} text : keeps same_rows (decode text).
Proof.
  apply keeps_try_catch; [apply keeps_parse|]. intros _.
  apply keeps_bind; [apply keeps_Date_now|]. intros t. apply keeps_ret.
Qed.

Lemma event_rows_set_events d l seq : event_rows (set_events d l seq) = l.
Proof. done. Qed.

Lemma session_rows_set_events d l seq :
  session_rows (set_events d l seq) = session_rows d.
Proof. done. Qed.

Lemma session_rows_set_sessions d s : session_rows (set_sessions d s) = s.
Proof. done. Qed.

Lemma event_rows_set_sessions d s :
  event_rows (set_sessions d s) = event_rows d.
Proof. done. Qed.

Lemma keeps_initialize : keeps same_rows initialize.
Proof.
  intros w r w'. unfold initialize.
  destruct (negb (initialized w)); [|by intros [= <- <-]].
  revert w r w'. apply keeps_try_catch; [|intros e; apply keeps_throw].
  repeat (apply keeps_bind; [|intros _]);
    try (apply keeps_statement; by intros d r d' [= <- <-]).
  - apply keeps_db_open.
  - by intros w r w' [= <- <-].
Qed.

Lemma keeps_ensureInitialized : keeps same_rows ensureInitialized.
Proof.
  intros w r w'. unfold ensureInitialized.
  destruct (negb (initialized w)); [apply keeps_initialize | by intros [= <- <-]].
Qed.

Lemma keeps_SELECT_existsFlag id : keeps same_rows (SELECT_existsFlag id).
Proof. apply keeps_statement. by intros d r d' [= <- <-]. Qed.

Lemma keeps_SELECT_eventData id : keeps same_rows (SELECT_eventData id).
Proof. apply keeps_statement. by intros d r d' [= <- <-]. Qed.

Lemma keeps_SELECT_session id : keeps same_rows (SELECT_session id).
Proof. apply keeps_statement. by intros d r d' [= <- <-]. Qed.

(** ** Initialisation *)

Lemma bind_Return_inv {A B} (m : Js A) (k : A → Js B) w b w' :
  bind m k w = (Return b, w') →
  ∃ a w1, m w = (Return a, w1) ∧ k a w1 = (Return b, w').
Proof.
  unfold bind. destruct (m w) as [[a|e] w1]; [|done]. intros E. by exists a, w1.
Qed.

Lemma try_catch_rethrow_Return {A} (m : Js A) (wrap : string → string) w a w' :
  try_catch m (λ error, throw (wrap error)) w = (Return a, w') →
  m w = (Return a, w').
Proof. unfold try_catch. by destruct (m w) as [[a'|e] w1]. Qed.

Lemma db_open_Return w u w' :
  db_open w = (Return u, w') →
  isOpen (db w') = true ∧ sessions (db w') = sessions (db w) ∧
  events (db w') = events (db w) ∧
  initialized w' = initialized w ∧ time w' = time w ∧ ticks w' = ticks w ∧
  (undisturbed w → undisturbed w').
Proof.
  unfold db_open, undisturbed. destruct (isOpen (db w)); [done|].
  destruct (faults w) as [|[f|] fs] eqn:Ef; [| done |];
    intros [= <- <-]; simpl; repeat split; try done.
Qed.

(** The first [initialize] that succeeds leaves an open database with both
    tables, without touching a row or the clock. *)
Lemma initialize_Return w w1 :
  initialized w = false → initialize w = (Return tt, w1) →
  ready w1 ∧ time w1 = time w ∧ ticks w1 = ticks w ∧
  (undisturbed w → undisturbed w1).
Proof.
  intros Hi. unfold initialize. rewrite Hi. simpl. intros E.
  apply (try_catch_rethrow_Return _ (λ e, e)) in E.
  apply bind_Return_inv in E as ([] & w0 & E0 & E).
  apply db_open_Return in E0 as (Ho & Hs0 & He0 & Hi0 & Ht0 & Hk0 & Hu0).
  apply bind_Return_inv in E as ([] & w2 & E2 & E).
  apply statement_Return in E2 as (_ & [= Hd2] & Hi2 & Ht2 & Hk2 & Hu2).
  apply bind_Return_inv in E as ([] & w3 & E3 & E).
  apply statement_Return in E3 as (_ & [= Hd3] & Hi3 & Ht3 & Hk3 & Hu3).
  apply bind_Return_inv in E as ([] & w4 & E4 & E).
  apply statement_Return in E4 as (_ & [= Hd4] & Hi4 & Ht4 & Hk4 & Hu4).
  apply bind_Return_inv in E as ([] & w5 & E5 & E).
  apply statement_Return in E5 as (_ & [= Hd5] & Hi5 & Ht5 & Hk5 & Hu5).
  apply bind_Return_inv in E as ([] & w6 & E6 & E).
  apply statement_Return in E6 as (_ & [= Hd6] & Hi6 & Ht6 & Hk6 & Hu6).
  assert (w1 = with_initialized w6 true) as -> by congruence. unfold ready. simpl.
  rewrite <- Hd6, <- Hd5, <- Hd4, <- Hd3, <- Hd2. simpl.
  repeat split; eauto; try congruence.
  unfold undisturbed in *. simpl. auto 10.
Qed.

Lemma ensureInitialized_ready w : ready w → ensureInitialized w = (Return tt, w).
Proof. intros (Hi & _). unfold ensureInitialized. by rewrite Hi. Qed.

Lemma ensureInitialized_Return w w1 :
  ensureInitialized w = (Return tt, w1) →
  initialized w1 = true ∧ time w1 = time w ∧ ticks w1 = ticks w.
Proof.
  unfold ensureInitialized. destruct (initialized w) eqn:Hi; simpl.
  - by intros [= <-].
  - intros E. by apply initialize_Return in E as ((? & _) & ? & ? & _).
Qed.

(** ** Initialising twice *)

(** On a connection that is still closed, whatever the file holds, an
    engine that refuses nothing carries [initialize] through. *)
Lemma initialize_runs w :
  initialized w = false → isOpen (db w) = false → undisturbed w →
  ∃ w1, initialize w = (Return tt, w1).
Proof.
  destruct w as [[o wal fk s e idx seq] ini tm tk fl].
  unfold undisturbed. simpl. intros -> -> ->.
  unfold initialize, try_catch, bind, db_open, PRAGMA_journal_mode_WAL,
    CREATE_TABLE_sessions, CREATE_TABLE_events,
    CREATE_INDEX_idx_events_sessionId, PRAGMA_foreign_keys_ON, statement,
    prepare. simpl.
  by eexists.
Qed.

(** C7. On a store that is already initialised [initialize] returns without
    an error and changes nothing, and so does the [ensureInitialized] that
    every method starts with; whenever a call of [initialize] succeeds, the
    store is initialised, the schema is in place with the rows that were
    there, and calling it again (directly or through a method) gives the
    state the first call gave; and on a connection not yet opened the call
    succeeds, whether or not the file already has the schema, as long as the
    engine refuses nothing. *)
Theorem initialize_idempotent (w : World) :
  (initialized w = true →
   initialize w = (Return tt, w) ∧ ensureInitialized w = (Return tt, w)) ∧
  (∀ w1, initialize w = (Return tt, w1) →
     initialized w1 = true ∧ same_rows w w1 ∧
     (initialize ;;; initialize) w = (Return tt, w1) ∧
     ensureInitialized w1 = (Return tt, w1)) ∧
  (initialized w = false → isOpen (db w) = false → undisturbed w →
   ∃ w1, initialize w = (Return tt, w1) ∧ ready w1).
Proof.
  split; [|split].
  - intros Hi. unfold ensureInitialized, initialize. by rewrite Hi.
  - intros w1 E.
    assert (initialized w1 = true) as Hi1.
    { destruct (initialized w) eqn:Hi.
      - unfold initialize in E. rewrite Hi in E. by injection E as <-.
      - by apply initialize_Return in E as ((? & _) & _). }
    split; [done|]. split; [by eapply keeps_initialize|].
    split.
    + erewrite bind_Return by done. unfold initialize. by rewrite Hi1.
    + unfold ensureInitialized. by rewrite Hi1.
  - intros Hi Ho Hu. destruct (initialize_runs w Hi Ho Hu) as [w1 E].
    exists w1. split; [done|]. by apply initialize_Return in E as (? & _).
Qed.

(** ** Events for a session that does not exist *)

Lemma with_db_id w : with_db w (db w) = w.
Proof. by destruct w. Qed.

Lemma SELECT_existsFlag_runs id w :
  ready w → undisturbed w →
  SELECT_existsFlag id w =
    (Return (match session_rows (db w) !! id with
             | Some _ => Some (ExistsResult.mk 1)
             | None => None
             end), w).
Proof.
  intros Hr Hu. unfold SELECT_existsFlag. rewrite statement_runs by done.
  by rewrite with_db_id.
Qed.

Lemma SELECT_existsFlag_Return id w r w' :
  SELECT_existsFlag id w = (Return r, w') →
  same_rows w w' ∧
  missing r = bool_decide (session_rows (db w) !! id = None).
Proof.
  intros E. split; [by eapply keeps_SELECT_existsFlag|].
  apply statement_Return in E as (_ & [= <- _] & _).
  by destruct (session_rows (db w) !! id).
Qed.

(** C1. [saveEvent] for an id that is not in the sessions table throws,
    and leaves both tables as they were: no event row is added and no
    session appears.  Once the store is initialised and the engine answers
    the lookup, the error is [Session not found: <id>] (as wrapped by the
    method) and nothing at all has changed. *)
Theorem saveEvent_unknown_session `{JSON} (w : World) (sessionId : string)
    (event : JSValue) :
  session_rows (db w) !! sessionId = None →
  ∃ message w',
    saveEvent sessionId event w = (Throw message, w') ∧
    same_rows w w' ∧
    (∀ w1, ensureInitialized w = (Return tt, w1) → ready w1 → undisturbed w1 →
       message = "Failed to save event: Session not found: " +:+ sessionId ∧
       w' = w1).
Proof.
  intros Hnone. unfold saveEvent.
  destruct (ensureInitialized w) as [[[]|e0] w1] eqn:E0.
  - erewrite bind_Return by done.
    pose proof (keeps_ensureInitialized _ _ _ E0) as Hsame.
    assert (session_rows (db w1) !! sessionId = None) as Hnone1
      by (destruct Hsame as [-> _]; done).
    destruct (SELECT_existsFlag sessionId w1) as [[r|e1] w2] eqn:E1.
    + pose proof (SELECT_existsFlag_Return _ _ _ _ E1) as [Hsame2 Hmiss].
      rewrite bool_decide_eq_true_2 in Hmiss by done.
      erewrite try_catch_Throw
        by (erewrite bind_Return by done; rewrite Hmiss; reflexivity).
      eexists _, _. split; [reflexivity|]. split; [by etrans|].
      intros w1' [= <-] Hr Hu.
      rewrite SELECT_existsFlag_runs in E1 by done. by injection E1 as _ <-.
    + erewrite try_catch_Throw by (erewrite bind_Throw by done; reflexivity).
      eexists _, _. split; [reflexivity|].
      split; [etrans; [done|by eapply keeps_SELECT_existsFlag]|].
      intros w1' [= <-] Hr Hu.
      rewrite SELECT_existsFlag_runs in E1 by done. done.
  - erewrite bind_Throw by done.
    eexists _, _. split; [reflexivity|].
    split; [by eapply keeps_ensureInitialized|]. by intros w1' [=].
Qed.

(** ** The methods on a store in working order *)

Lemma ready_with_db w d :
  ready w → isOpen d = true → is_Some (sessions d) → is_Some (events d) →
  ready (with_db w d).
Proof. intros (? & _). by repeat split. Qed.

Lemma ready_with_ticks w n : ready w → ready (with_ticks w n).
Proof. done. Qed.

Lemma undisturbed_with_db w d : undisturbed w → undisturbed (with_db w d).
Proof. done. Qed.

Lemma undisturbed_with_ticks w n : undisturbed w → undisturbed (with_ticks w n).
Proof. done. Qed.

Lemma is_Some_sessions_set_sessions d s : is_Some (sessions (set_sessions d s)).
Proof. by eexists. Qed.

Lemma is_Some_events_set_events d l seq : is_Some (events (set_events d l seq)).
Proof. by eexists. Qed.

Create HintDb store discriminated.
#[global] Hint Resolve ready_with_db ready_with_ticks undisturbed_with_db
  undisturbed_with_ticks is_Some_sessions_set_sessions
  is_Some_events_set_events : store.

Lemma ready_set_sessions w s :
  ready w → ready (with_db w (set_sessions (db w) s)).
Proof. intros (? & ? & ? & ?). by repeat split; simpl; eauto. Qed.

Lemma ready_set_events w l seq :
  ready w → ready (with_db w (set_events (db w) l seq)).
Proof. intros (? & ? & ? & ?). by repeat split; simpl; eauto. Qed.

Lemma ready_saved w n l seq s :
  ready w →
  ready (with_db (with_ticks w n) (set_sessions (set_events (db w) l seq) s)).
Proof. intros (? & ? & ? & ?). by repeat split; simpl; eauto. Qed.

Lemma ready_rewritten w n s :
  ready w → ready (with_db (with_ticks w n) (set_sessions (db w) s)).
Proof. intros (? & ? & ? & ?). by repeat split; simpl; eauto. Qed.

#[global] Hint Resolve ready_set_sessions ready_set_events ready_saved
  ready_rewritten : store.

Ltac store := first [done | by eauto with store | by simpl; eauto with store].

Lemma INSERT_INTO_events_runs sessionId timestamp eventData w :
  ready w → undisturbed w →
  is_Some (session_rows (db w) !! sessionId) →
  INSERT_INTO_events sessionId timestamp eventData w =
    (Return (RunResult.mk 1),
     with_db w
       (set_events (db w)
          (event_rows (db w) ++
             [EventRow.mk (next_rowid (db w)) sessionId timestamp eventData])
          (next_rowid (db w)))).
Proof.
  intros Hr Hu Hrow. unfold INSERT_INTO_events.
  rewrite statement_runs by done.
  by rewrite bool_decide_eq_true_2, andb_false_r by done.
Qed.

Lemma UPDATE_sessions_runs clauses id w row :
  ready w → undisturbed w →
  session_rows (db w) !! id = Some row →
  UPDATE_sessions clauses id w =
    (Return (RunResult.mk 1),
     with_db w
       (set_sessions (db w)
          (<[id := foldl assign row clauses]> (session_rows (db w))))).
Proof.
  intros Hr Hu Hrow. unfold UPDATE_sessions.
  rewrite statement_runs by done. by rewrite Hrow.
Qed.

Lemma stringify_Some `{JSON} v text w :
  JSON_stringify v = Some text → stringify v w = (Return text, w).
Proof. intros E. unfold stringify. by rewrite E. Qed.

Lemma stringify_None `{JSON} v w :
  JSON_stringify v = None → stringify v w = (Throw TypeError_message, w).
Proof. intros E. unfold stringify. by rewrite E. Qed.

Lemma saveEvent_runs `{JSON} w sessionId event row text :
  ready w → undisturbed w →
  session_rows (db w) !! sessionId = Some row →
  JSON_stringify event = Some text →
  saveEvent sessionId event w =
    (Return tt,
     with_db (with_ticks w (S (ticks w)))
       (set_sessions
          (set_events (db w)
             (event_rows (db w) ++
                [EventRow.mk (next_rowid (db w)) sessionId (time w (ticks w)) text])
             (next_rowid (db w)))
          (<[sessionId := assign row (SET_updatedAt (time w (ticks w)))]>
             (session_rows (db w))))).
Proof.
  intros Hr Hu Hrow Htext. unfold saveEvent.
  erewrite bind_Return by by apply ensureInitialized_ready.
  apply try_catch_Return.
  erewrite bind_Return by by apply SELECT_existsFlag_runs.
  rewrite Hrow. simpl.
  erewrite bind_Return by reflexivity.
  erewrite bind_Return by by apply stringify_Some.
  erewrite bind_Return
    by (apply INSERT_INTO_events_runs; [store..|by exists row]).
  erewrite bind_Return by (eapply UPDATE_sessions_runs; [store..|exact Hrow]).
  reflexivity.
Qed.

(** ** Decoding the rows of a log *)

Lemma decode_parses `{JSON} text v w :
  JSON_parse text = Some v → decode text w = (Return v, w).
Proof. intros E. unfold decode, try_catch, parse. by rewrite E. Qed.

Lemma decode_corrupt `{JSON} text w :
  JSON_parse text = None →
  decode text w =
    (Return (placeholder (time w (ticks w))), with_ticks w (S (ticks w))).
Proof. intros E. unfold decode, try_catch, parse. by rewrite E. Qed.

Lemma mapM_decode_parses `{JSON} texts vs w :
  Forall2 (λ text v, JSON_parse text = Some v) texts vs →
  mapM decode texts w = (Return vs, w).
Proof.
  induction 1 as [|text v texts vs Hv _ IH]; [done|]. simpl.
  erewrite bind_Return by by apply decode_parses.
  by erewrite bind_Return by done.
Qed.

Lemma mapM_decode_one_corrupt `{JSON} before bad after vs_before vs_after w :
  Forall2 (λ text v, JSON_parse text = Some v) before vs_before →
  JSON_parse bad = None →
  Forall2 (λ text v, JSON_parse text = Some v) after vs_after →
  mapM decode (before ++ bad :: after) w =
    (Return (vs_before ++ placeholder (time w (ticks w)) :: vs_after),
     with_ticks w (S (ticks w))).
Proof.
  intros Hbefore Hbad Hafter.
  induction Hbefore as [|text v before vs_before Hv _ IH]; simpl.
  - erewrite bind_Return by by apply decode_corrupt.
    by erewrite bind_Return by by apply mapM_decode_parses.
  - erewrite bind_Return by by apply decode_parses.
    by erewrite bind_Return by done.
Qed.

(** Decoding never throws: every row gives a value, the parsed one when the
    text parses; only the clock moves. *)
Lemma mapM_decode_Return `{JSON} texts w :
  ∃ vs w', mapM decode texts w = (Return vs, w') ∧
    db w' = db w ∧ initialized w' = initialized w ∧ faults w' = faults w ∧
    time w' = time w ∧
    Forall2 (λ text v, ∀ u, JSON_parse text = Some u → v = u) texts vs.
Proof.
  revert w. induction texts as [|text texts IH]; intros w.
  { exists [], w. by repeat split. }
  simpl. destruct (JSON_parse text) as [u|] eqn:E.
  - erewrite bind_Return by by apply decode_parses.
    destruct (IH w) as (vs & w' & E' & ? & ? & ? & ? & Hvs).
    erewrite bind_Return by done. exists (u :: vs), w'.
    repeat split; try done. constructor; [|done]. intros u'. congruence.
  - erewrite bind_Return by by apply decode_corrupt.
    destruct (IH (with_ticks w (S (ticks w))))
      as (vs & w' & E' & ? & ? & ? & ? & Hvs).
    erewrite bind_Return by done. eexists (_ :: vs), w'.
    repeat split; try done. constructor; [|done]. intros u'. congruence.
Qed.

Lemma SELECT_eventData_runs sessionId w :
  ready w → undisturbed w →
  SELECT_eventData sessionId w =
    (Return (EventRow.eventData <$> ORDER_BY_timestamp_id (log sessionId w)), w).
Proof.
  intros Hr Hu. unfold SELECT_eventData. rewrite statement_runs by done.
  by rewrite with_db_id.
Qed.

Lemma getSessionEvents_runs `{JSON} sessionId w :
  ready w → undisturbed w →
  is_Some (session_rows (db w) !! sessionId) →
  getSessionEvents sessionId w =
    mapM decode (EventRow.eventData <$> ORDER_BY_timestamp_id (log sessionId w)) w.
Proof.
  intros Hr Hu [row Hrow]. unfold getSessionEvents.
  erewrite bind_Return by by apply ensureInitialized_ready.
  destruct (mapM_decode_Return
    (EventRow.eventData <$> ORDER_BY_timestamp_id (log sessionId w)) w)
    as (vs & w' & E & _).
  rewrite E. apply try_catch_Return.
  erewrite bind_Return by by apply SELECT_existsFlag_runs.
  rewrite Hrow. simpl.
  by erewrite bind_Return by by apply SELECT_eventData_runs.
Qed.

Lemma getSessionEvents_unknown `{JSON} sessionId w :
  ready w → undisturbed w →
  session_rows (db w) !! sessionId = None →
  getSessionEvents sessionId w =
    (Throw ("Failed to get session events: Session not found: " +:+ sessionId), w).
Proof.
  intros Hr Hu Hrow. unfold getSessionEvents.
  erewrite bind_Return by by apply ensureInitialized_ready.
  erewrite try_catch_Throw; [reflexivity|].
  erewrite bind_Return by by apply SELECT_existsFlag_runs.
  by rewrite Hrow.
Qed.

Lemma Forall_is_Some_Forall2 {A B} (f : A → option B) l :
  Forall (λ x, is_Some (f x)) l → ∃ ys, Forall2 (λ x y, f x = Some y) l ys.
Proof.
  induction 1 as [|x l [y Hy] _ [ys IH]]; [by exists []|].
  exists (y :: ys). by constructor.
Qed.

(** C4. When exactly one row of a session's log holds text that does not
    parse, [getSessionEvents] returns: the rows before and after it come
    back parsed, in their places, and the slot of the corrupt row holds the
    object with [type] the string [system], [message] the string
    [Failed to parse event data] and [timestamp] the reading of the clock
    at that moment, which is the one reading the call takes. *)
Theorem getSessionEvents_corrupt_record `{JSON} (w : World) (sessionId : string)
    (before : list EventRow.t) (bad : EventRow.t) (after : list EventRow.t) :
  ready w → undisturbed w →
  is_Some (session_rows (db w) !! sessionId) →
  ORDER_BY_timestamp_id (log sessionId w) = before ++ bad :: after →
  JSON_parse (EventRow.eventData bad) = None →
  Forall (λ r, is_Some (JSON_parse (EventRow.eventData r))) before →
  Forall (λ r, is_Some (JSON_parse (EventRow.eventData r))) after →
  ∃ vs_before vs_after,
    getSessionEvents sessionId w =
      (Return (vs_before ++
               JObj [("type", JStr "system");
                     ("message", JStr "Failed to parse event data");
                     ("timestamp", JNum (time w (ticks w)))] :: vs_after),
       with_ticks w (S (ticks w))) ∧
    Forall2 (λ r v, JSON_parse (EventRow.eventData r) = Some v) before vs_before ∧
    Forall2 (λ r v, JSON_parse (EventRow.eventData r) = Some v) after vs_after.
Proof.
  intros Hr Hu Hrow Hlog Hbad Hbefore Hafter.
  apply Forall_is_Some_Forall2 in Hbefore as [vs_before Hbefore].
  apply Forall_is_Some_Forall2 in Hafter as [vs_after Hafter].
  exists vs_before, vs_after. split; [|done].
  rewrite getSessionEvents_runs by done.
  rewrite Hlog, fmap_app, fmap_cons.
  apply mapM_decode_one_corrupt; [|done|]; by apply Forall2_fmap_l.
Qed.

(** ** Deleting a session *)

Lemma not_of_session_idemp sessionId l :
  not_of_session sessionId (not_of_session sessionId l) = not_of_session sessionId l.
Proof.
  unfold not_of_session. induction l as [|r l IH]; [done|].
  rewrite filter_cons. case_decide as Hr; [|done].
  rewrite filter_cons. rewrite decide_True by done. by rewrite IH.
Qed.

Lemma deleteSession_Return `{JSON} sessionId w b w' :
  deleteSession sessionId w = (Return b, w') →
  ready w' ∧
  session_rows (db w') = delete sessionId (session_rows (db w)) ∧
  event_rows (db w') = not_of_session sessionId (event_rows (db w)) ∧
  b = bool_decide (is_Some (session_rows (db w) !! sessionId)).
Proof.
  unfold deleteSession. intros E.
  apply bind_Return_inv in E as ([] & w1 & E1 & E).
  pose proof (ensureInitialized_Return _ _ E1) as (Hi1 & _).
  apply keeps_ensureInitialized in E1 as [Hs1 He1].
  apply try_catch_rethrow_Return in E.
  apply bind_Return_inv in E as (r2 & w2 & E2 & E).
  apply statement_Return in E2 as (Hp2 & [= _ Hd2] & Hi2 & _).
  apply bind_Return_inv in E as (r3 & w3 & E3 & E).
  apply statement_Return in E3 as (Hp3 & E3 & Hi3 & _).
  injection E as <- <-.
  assert (isOpen (db w2) = true ∧ is_Some (sessions (db w2))) as [Ho2 Hss2].
  { unfold prepare in Hp3. destruct (isOpen (db w2)); [|done]. simpl in Hp3.
    destruct (sessions (db w2)); [by eauto|done]. }
  assert (session_rows (db w2) = session_rows (db w)) as Hs2
    by (rewrite <- Hd2, <- Hs1; done).
  assert (event_rows (db w2) = not_of_session sessionId (event_rows (db w)))
    as He2 by (rewrite <- Hd2, <- He1; done).
  assert (is_Some (events (db w2))) as Hes2 by (rewrite <- Hd2; by eexists).
  rewrite Hs2 in E3.
  unfold ready. rewrite Hi3, Hi2, Hi1.
  destruct (session_rows (db w) !! sessionId) as [row|] eqn:Hrow.
  - injection E3 as <- Hd3. rewrite bool_decide_eq_true_2 by done.
    destruct Hes2 as [l El]. rewrite El in Hd3.
    unfold event_rows in He2. rewrite El in He2. simpl in He2. subst l.
    destruct (foreign_keys (db w2)); rewrite <- Hd3; simpl.
    + rewrite not_of_session_idemp, Ho2. repeat split; by eauto.
    + unfold event_rows. simpl. rewrite El, Ho2. repeat split; by eauto.
  - injection E3 as <- Hd3. rewrite bool_decide_eq_false_2 by by intros [? [=]].
    rewrite <- Hd3, Ho2, Hs2, He2. rewrite delete_id by done. done.
Qed.

(** The two deletes are separate statements: a [deleteSession] that throws
    has left the sessions table as it was, and the events table either as it
    was or without the events of the session. *)
Lemma deleteSession_Throw `{JSON} sessionId w e w' :
  deleteSession sessionId w = (Throw e, w') →
  session_rows (db w') = session_rows (db w) ∧
  (event_rows (db w') = event_rows (db w) ∨
   event_rows (db w') = not_of_session sessionId (event_rows (db w))).
Proof.
  unfold deleteSession. intros E.
  destruct (ensureInitialized w) as [[[]|e0] w1] eqn:E0.
  2:{ erewrite bind_Throw in E by done. injection E as _ <-.
      apply keeps_ensureInitialized in E0 as [-> ->]. auto. }
  erewrite bind_Return in E by done.
  apply keeps_ensureInitialized in E0 as [Hs1 He1].
  unfold try_catch, bind in E.
  destruct (DELETE_FROM_events sessionId w1) as [[r2|e2] w2] eqn:E2.
  2:{ injection E as _ <-.
      apply statement_Throw in E2 as (_ & _ & _ & [->|[=]]). auto. }
  apply statement_Return in E2 as (_ & [= _ Hd2] & _).
  destruct (DELETE_FROM_sessions sessionId w2) as [[r3|e3] w3] eqn:E3; [done|].
  injection E as _ <-.
  apply statement_Throw in E3 as (_ & _ & _ & [->|Hd3]).
  - rewrite <- Hd2, session_rows_set_events, event_rows_set_events, Hs1, He1. auto.
  - by destruct (session_rows (db w2) !! sessionId).
Qed.

(** Whatever its outcome, [deleteSession] leaves no event without its
    session when there was none before. *)
Lemma deleteSession_no_orphans `{JSON} sessionId w r w' :
  deleteSession sessionId w = (r, w') →
  (∀ ev, ev ∈ event_rows (db w) →
     is_Some (session_rows (db w) !! EventRow.sessionId ev)) →
  ∀ ev, ev ∈ event_rows (db w') →
    is_Some (session_rows (db w') !! EventRow.sessionId ev).
Proof.
  intros E Hw ev. destruct r as [b|e].
  - apply deleteSession_Return in E as (_ & -> & -> & _).
    unfold not_of_session. rewrite list_elem_of_filter. intros [Hne Hev].
    by rewrite lookup_delete_ne by done; apply Hw.
  - apply deleteSession_Throw in E as [-> [->| ->]]; [by apply Hw|].
    unfold not_of_session. rewrite list_elem_of_filter. intros [_ Hev].
    by apply Hw.
Qed.

Lemma not_of_session_spec sessionId l r :
  r ∈ not_of_session sessionId l → EventRow.sessionId r ≠ sessionId.
Proof. unfold not_of_session. rewrite list_elem_of_filter. by intros [? _]. Qed.

Lemma getSessionEvents_unknown_Throw `{JSON} sessionId w :
  session_rows (db w) !! sessionId = None →
  ∃ message w', getSessionEvents sessionId w = (Throw message, w').
Proof.
  intros Hnone. unfold getSessionEvents.
  destruct (ensureInitialized w) as [[[]|e0] w1] eqn:E0.
  - erewrite bind_Return by done.
    pose proof (keeps_ensureInitialized _ _ _ E0) as [Hsame _].
    destruct (SELECT_existsFlag sessionId w1) as [[r|e1] w2] eqn:E1.
    + pose proof (SELECT_existsFlag_Return _ _ _ _ E1) as [_ Hmiss].
      rewrite bool_decide_eq_true_2 in Hmiss by by rewrite Hsame.
      erewrite try_catch_Throw
        by (erewrite bind_Return by done; rewrite Hmiss; reflexivity).
      by eexists _, _.
    + erewrite try_catch_Throw by (erewrite bind_Throw by done; reflexivity).
      by eexists _, _.
  - erewrite bind_Throw by done. by eexists _, _.
Qed.

Lemma DELETE_FROM_events_runs sessionId w :
  ready w → undisturbed w →
  DELETE_FROM_events sessionId w =
    (Return (RunResult.mk
               (Z.of_nat (length (of_session sessionId (event_rows (db w)))))),
     with_db w (set_events (db w)
                  (not_of_session sessionId (event_rows (db w)))
                  (sqlite_sequence (db w)))).
Proof.
  intros Hr Hu. unfold DELETE_FROM_events. by rewrite statement_runs.
Qed.

Lemma deleteSession_returns `{JSON} sessionId w :
  ready w → undisturbed w →
  ∃ b w', deleteSession sessionId w = (Return b, w') ∧ undisturbed w' ∧
    isOpen (db w') = true ∧ foreign_keys (db w') = foreign_keys (db w) ∧
    journal_mode_wal (db w') = journal_mode_wal (db w) ∧
    idx_events_sessionId (db w') = idx_events_sessionId (db w) ∧
    sqlite_sequence (db w') = sqlite_sequence (db w) ∧
    is_Some (sessions (db w')) ∧ is_Some (events (db w')).
Proof.
  intros Hr Hu. unfold deleteSession.
  erewrite bind_Return by by apply ensureInitialized_ready.
  unfold try_catch.
  erewrite bind_Return by by apply DELETE_FROM_events_runs.
  unfold bind, DELETE_FROM_sessions. rewrite statement_runs by store.
  destruct Hr as (_ & Ho & Hs & He).
  cbn [db with_db]. rewrite session_rows_set_events.
  destruct (session_rows (db w) !! sessionId).
  - destruct (foreign_keys (db w)) eqn:Hfk; simpl;
      eexists _, _; (split; [reflexivity|]); simpl; rewrite ?Hfk;
      repeat split; eauto.
  - eexists _, _. split; [reflexivity|]. simpl. repeat split; eauto.
Qed.

(** C2 (amended). Once [deleteSession] has returned, the session is not in
    the sessions table and no row of the events table carries its id (the
    other rows of both tables are as before), so that [getSessionEvents]
    for that id throws; when the engine answers the lookup the error is
    [Session not found: <id>] as wrapped by the method.  The two deletes
    are separate statements: a [deleteSession] that throws has left the
    sessions table as it was, and the events table either as it was or
    without the events of the session.  Returning or throwing, it leaves no
    event without its session where there was none; and on a store in
    working order it returns. *)
Theorem deleteSession_cascade `{JSON} (w : World) (sessionId : string)
    (r : Outcome bool) (w' : World) :
  deleteSession sessionId w = (r, w') →
  (∀ b, r = Return b →
     session_rows (db w') = delete sessionId (session_rows (db w)) ∧
     event_rows (db w') = not_of_session sessionId (event_rows (db w)) ∧
     session_rows (db w') !! sessionId = None ∧
     (∀ ev, ev ∈ event_rows (db w') → EventRow.sessionId ev ≠ sessionId) ∧
     (∃ message w'', getSessionEvents sessionId w' = (Throw message, w'')) ∧
     (undisturbed w' →
      getSessionEvents sessionId w' =
        (Throw ("Failed to get session events: Session not found: " +:+ sessionId),
         w'))) ∧
  (∀ e, r = Throw e →
     session_rows (db w') = session_rows (db w) ∧
     (event_rows (db w') = event_rows (db w) ∨
      event_rows (db w') = not_of_session sessionId (event_rows (db w)))) ∧
  (referential (db w) → referential (db w')) ∧
  (ready w → undisturbed w → ∃ b, r = Return b).
Proof.
  intros E. split; [|split; [|split]].
  - intros b ->. apply deleteSession_Return in E as (Hr & Hs & He & _).
    assert (session_rows (db w') !! sessionId = None) as Hnone
      by (rewrite Hs; apply lookup_delete_eq).
    repeat split; try done.
    + intros ev. rewrite He. apply not_of_session_spec.
    + by apply getSessionEvents_unknown_Throw.
    + intros Hu. by apply getSessionEvents_unknown.
  - intros e ->. by apply deleteSession_Throw in E.
  - intros Href. exact (deleteSession_no_orphans _ _ _ _ E Href).
  - intros Hr Hu.
    destruct (deleteSession_returns sessionId w Hr Hu) as (b & w1 & E1 & _).
    rewrite E1 in E. injection E as <- _. by exists b.
Qed.

(** ** The order of a log *)

#[global] Instance timestamp_id_le_total : Total timestamp_id_le.
Proof. intros a b. unfold timestamp_id_le. lia. Qed.

#[global] Instance timestamp_id_le_transitive : Transitive timestamp_id_le.
Proof. intros a b c. unfold timestamp_id_le. lia. Qed.

Lemma ORDER_BY_Permutation l : ORDER_BY_timestamp_id l ≡ₚ l.
Proof. apply merge_sort_Permutation. Qed.


Lemma rowid_ordered_inj l x y :
  rowid_ordered l → x ∈ l → y ∈ l → EventRow.id x = EventRow.id y → x = y.
Proof.
  intros Hl. induction Hl as [|z l _ IH Hz]; [by intros ?%elem_of_nil|].
  rewrite Forall_forall in Hz.
  intros [->|Hx]%elem_of_cons [->|Hy]%elem_of_cons E; auto.
  - apply Hz in Hy. lia.
  - apply Hz in Hx. lia.
Qed.

Lemma rowid_ordered_filter (P : EventRow.t → Prop) `{!∀ r, Decision (P r)} l :
  rowid_ordered l → rowid_ordered (filter P l).
Proof.
  induction 1 as [|r l _ IH Hr]; [constructor|].
  rewrite filter_cons. case_decide; [|done].
  constructor; [done|]. rewrite Forall_forall in Hr. apply Forall_forall.
  intros y [_ Hy]%list_elem_of_filter. by apply Hr.
Qed.



(** ** Rowids *)

Lemma foldr_max_le (s : Z) (l : list Z) : (s ≤ foldr Z.max s l)%Z.
Proof. induction l; simpl; lia. Qed.

Lemma foldr_max_ge (s : Z) (l : list Z) x : x ∈ l → (x ≤ foldr Z.max s l)%Z.
Proof.
  induction l as [|y l IH]; [by intros ?%elem_of_nil|].
  intros [->|Hx]%elem_of_cons; simpl; [lia|]. specialize (IH Hx). lia.
Qed.



Lemma rowid_lt_next d r : r ∈ event_rows d → (EventRow.id r < next_rowid d)%Z.
Proof.
  intros Hr. unfold next_rowid.
  assert (EventRow.id r ∈ EventRow.id <$> event_rows d) as Hid
    by by apply list_elem_of_fmap_2.
  apply (foldr_max_ge (sqlite_sequence d)) in Hid. lia.
Qed.






(** ** A batch of events *)



(** ** Round trip of a payload *)

(** C8. With an encoding that loses nothing (what [JSON.stringify] writes,
    [JSON.parse] reads back), every payload that [JSON.stringify] accepts,
    saved to an existing session of a store in working order, is returned
    by the next [getSessionEvents] in the slot that its row has in the
    order of the query: the store hands the text to the engine and back
    unchanged. *)
Theorem saveEvent_round_trip `{JSON} (w : World) (sessionId : string)
    (payload : JSValue) (text : string) :
  round_trips →
  ready w → undisturbed w →
  is_Some (session_rows (db w) !! sessionId) →
  JSON_stringify payload = Some text →
  ∃ w' events w'' i,
    saveEvent sessionId payload w = (Return tt, w') ∧
    getSessionEvents sessionId w' = (Return events, w'') ∧
    ORDER_BY_timestamp_id (log sessionId w') !! i =
      Some (EventRow.mk (next_rowid (db w)) sessionId (time w (ticks w)) text) ∧
    events !! i = Some payload ∧
    length events = length (log sessionId w').
Proof.
  intros Hlaw Hr Hu [row Hrow] Htext.
  pose proof (Hlaw payload text Htext) as Hparse.
  pose proof (saveEvent_runs w sessionId payload row text Hr Hu Hrow Htext)
    as Esave.
  match type of Esave with _ = (_, ?w1) => set (w' := w1) in * end.
  exists w'.
  destruct (mapM_decode_Return
    (EventRow.eventData <$> ORDER_BY_timestamp_id (log sessionId w')) w')
    as (events & w'' & E & _ & _ & _ & _ & Hevents).
  exists events, w''.
  match type of E with
  | mapM decode (_ <$> ?sorted) _ = _ =>
    assert (EventRow.mk (next_rowid (db w)) sessionId (time w (ticks w)) text
            ∈ sorted) as [i Hi]%list_elem_of_lookup
  end.
  { rewrite ORDER_BY_Permutation. unfold log, of_session. simpl.
    rewrite event_rows_set_sessions, event_rows_set_events, filter_app.
    apply elem_of_app. right. rewrite filter_cons_True by done. by left. }
  exists i. split; [done|].
  split.
  { rewrite getSessionEvents_runs; [done|subst w'; store..|].
    simpl. rewrite session_rows_set_sessions, lookup_insert_eq. by eexists. }
  split; [done|].
  split.
  - eapply Forall2_lookup_l in Hevents as (v & Hv & Hu');
      [|by rewrite list_lookup_fmap, Hi].
    simpl in Hu'. by rewrite (Hu' payload Hparse) in Hv.
  - apply Forall2_length in Hevents. rewrite <- Hevents, length_fmap.
    by rewrite ORDER_BY_Permutation.
Qed.

(** ** The two writes of [saveEvent] *)

Lemma saveEvent_outcome `{JSON} w sessionId event row r w' :
  session_rows (db w) !! sessionId = Some row →
  saveEvent sessionId event w = (r, w') →
  (r = Return tt ∧
   ∃ ev, event_rows (db w') = event_rows (db w) ++ [ev] ∧
     EventRow.sessionId ev = sessionId ∧
     EventRow.timestamp ev = time w (ticks w) ∧
     JSON_stringify event = Some (EventRow.eventData ev) ∧
     session_rows (db w') =
       <[sessionId := assign row (SET_updatedAt (time w (ticks w)))]>
         (session_rows (db w))) ∨
  ((∃ message, r = Throw message) ∧
   session_rows (db w') = session_rows (db w) ∧
   (event_rows (db w') = event_rows (db w) ∨
    ∃ ev, event_rows (db w') = event_rows (db w) ++ [ev] ∧
      EventRow.sessionId ev = sessionId)).
Proof.
  intros Hrow E. unfold saveEvent in E.
  destruct (ensureInitialized w) as [[[]|e0] w1] eqn:E0.
  2:{ erewrite bind_Throw in E by done. injection E as <- <-.
      apply keeps_ensureInitialized in E0 as [-> ->]. right. eauto. }
  erewrite bind_Return in E by done.
  pose proof (ensureInitialized_Return _ _ E0) as (_ & Ht1 & Hk1).
  apply keeps_ensureInitialized in E0 as [Hs1 He1].
  destruct (SELECT_existsFlag sessionId w1) as [[ex|e1] w2] eqn:E1.
  2:{ erewrite try_catch_Throw in E by (erewrite bind_Throw by done; reflexivity).
      injection E as <- <-.
      apply keeps_SELECT_existsFlag in E1 as [-> ->]. rewrite Hs1, He1.
      right. eauto. }
  pose proof (SELECT_existsFlag_Return _ _ _ _ E1) as [[Hs2 He2] Hmiss].
  pose proof E1 as E1'.
  apply statement_Return in E1' as (_ & _ & _ & Ht2 & Hk2 & _).
  rewrite bool_decide_eq_false_2 in Hmiss by (rewrite Hs1, Hrow; done).
  unfold try_catch in E. erewrite bind_Return in E by done.
  rewrite Hmiss in E. erewrite bind_Return in E by reflexivity.
  destruct (JSON_stringify event) as [text|] eqn:Htext.
  2:{ erewrite bind_Throw in E by by apply stringify_None.
      injection E as <- <-. simpl. rewrite Hs2, He2, Hs1, He1. right. eauto. }
  erewrite bind_Return in E by by apply stringify_Some.
  destruct (INSERT_INTO_events sessionId (time w2 (ticks w2)) text
              (with_ticks w2 (S (ticks w2)))) as [[r4|e4] w4] eqn:E4.
  2:{ erewrite bind_Throw in E by done. injection E as <- <-.
      apply statement_Throw in E4 as (_ & _ & _ & [Hd4|Hd4]).
      - rewrite Hd4. simpl. rewrite Hs2, He2, Hs1, He1. right. eauto.
      - simpl in Hd4. rewrite Hs2, Hs1, Hrow in Hd4.
        rewrite bool_decide_eq_true_2, andb_false_r in Hd4 by done. done. }
  erewrite bind_Return in E by done.
  apply statement_Return in E4 as (_ & Hd4 & _). simpl in Hd4.
  rewrite Hs2, Hs1, Hrow in Hd4.
  rewrite bool_decide_eq_true_2, andb_false_r in Hd4 by done.
  injection Hd4 as _ Hd4.
  destruct (UPDATE_sessions [SET_updatedAt (time w2 (ticks w2))] sessionId w4)
    as [[r5|e5] w5] eqn:E5.
  2:{ erewrite bind_Throw in E by done. injection E as <- <-.
      apply statement_Throw in E5 as (_ & _ & _ & [Hd5|Hd5]).
      - rewrite Hd5, <- Hd4. simpl.
        rewrite event_rows_set_events, session_rows_set_events.
        rewrite Hs2, He2, Hs1, He1.
        right. split; [eauto|]. split; [done|]. right. by eexists.
      - rewrite <- Hd4 in Hd5. cbv beta in Hd5.
        rewrite session_rows_set_events, Hs2, Hs1, Hrow in Hd5. done. }
  erewrite bind_Return in E by done. injection E as <- <-.
  apply statement_Return in E5 as (_ & Hd5 & _).
  rewrite <- Hd4 in Hd5. cbv beta in Hd5.
  rewrite session_rows_set_events, Hs2, Hs1, Hrow in Hd5.
  injection Hd5 as _ Hd5. rewrite <- Hd5.
  rewrite session_rows_set_sessions, event_rows_set_sessions.
  rewrite event_rows_set_events.
  rewrite ?Hs2, ?Hs1, He2, He1, Ht2, Hk2, Ht1, Hk1. left. split; [done|]. by eexists.
Qed.

(** C5 (amended). For a session that exists: a [saveEvent] that returns has
    appended the event row and set [updatedAt] of the session to the
    timestamp of that row, the reading of the clock; a [saveEvent] that
    throws has left the sessions table as it was, and the events table
    either as it was or with the new row in it, the insert not being undone
    when the update that follows is refused; and on a store in working order,
    for a payload that has a textual form, [saveEvent] returns. *)
Theorem saveEvent_two_writes `{JSON} (w : World) (sessionId : string)
    (event : JSValue) (row : SessionRow.t) (r : Outcome unit) (w' : World) :
  session_rows (db w) !! sessionId = Some row →
  saveEvent sessionId event w = (r, w') →
  (∀ u, r = Return u →
     ∃ ev, event_rows (db w') = event_rows (db w) ++ [ev] ∧
       EventRow.sessionId ev = sessionId ∧
       EventRow.timestamp ev = time w (ticks w) ∧
       JSON_stringify event = Some (EventRow.eventData ev) ∧
       session_rows (db w') =
         <[sessionId := assign row (SET_updatedAt (time w (ticks w)))]>
           (session_rows (db w))) ∧
  (∀ message, r = Throw message →
     session_rows (db w') = session_rows (db w) ∧
     (event_rows (db w') = event_rows (db w) ∨
      ∃ ev, event_rows (db w') = event_rows (db w) ++ [ev] ∧
        EventRow.sessionId ev = sessionId)) ∧
  (ready w → undisturbed w → is_Some (JSON_stringify event) → r = Return tt).
Proof.
  intros Hrow E.
  pose proof (saveEvent_outcome _ _ _ _ _ _ Hrow E)
    as [[-> Hwritten]|[[message ->] Hthrown]].
  - split; [done|]. split; [by intros ? [=]|done].
  - split; [by intros ? [=]|]. split; [done|].
    intros Hr Hu [text Htext]. erewrite saveEvent_runs in E by done.
    by injection E.
Qed.

(** ** Session records *)

Lemma with_ticks_id w : with_ticks w (ticks w) = w.
Proof. by destruct w. Qed.

Lemma or_now_runs t w :
  or_now t w =
    (Return (if falsy_time t then time w (ticks w) else default 0%Z t),
     with_ticks w (if falsy_time t then S (ticks w) else ticks w)).
Proof.
  destruct t as [t|]; simpl; [|done].
  destruct (t =? 0)%Z; [done|]. by rewrite with_ticks_id.
Qed.

Lemma tags_column_runs `{JSON} tags w :
  tags_storable tags → tags_column tags w = (Return (column_of_tags tags), w).
Proof.
  intros Hs. destruct tags as [v|]; simpl; [|done].
  destruct (truthy v) eqn:Hv; [|done].
  destruct (Hs v eq_refl Hv) as [text Htext].
  erewrite bind_Return by by apply stringify_Some. by rewrite Htext.
Qed.

Lemma tags_property_runs `{JSON} column w :
  tags_readable column →
  tags_property column w = (Return (tags_of_column column), w).
Proof.
  intros Hr. unfold tags_property, tags_of_column.
  destruct (or_absent column) as [text|] eqn:E; [|done].
  destruct (Hr text E) as [v Hv].
  unfold bind, parse. by rewrite Hv.
Qed.

Lemma INSERT_INTO_sessions_runs row w :
  ready w → undisturbed w →
  INSERT_INTO_sessions row w =
    match session_rows (db w) !! SessionRow.id row with
    | Some _ => (Throw "UNIQUE constraint failed: sessions.id", w)
    | None =>
      (Return (RunResult.mk 1),
       with_db w (set_sessions (db w)
                    (<[SessionRow.id row := row]> (session_rows (db w)))))
    end.
Proof.
  intros Hr Hu. unfold INSERT_INTO_sessions. rewrite statement_runs by done.
  destruct (session_rows (db w) !! SessionRow.id row); [|done].
  by rewrite with_db_id.
Qed.

Lemma SELECT_session_runs id w :
  ready w → undisturbed w →
  (∀ row, session_rows (db w) !! id = Some row → row_readable row = true) →
  SELECT_session id w = (Return (session_rows (db w) !! id), w).
Proof.
  intros Hr Hu Hrange. unfold SELECT_session. rewrite statement_runs by done.
  rewrite with_db_id. destruct (session_rows (db w) !! id) as [row|]; [|done].
  by rewrite (Hrange row eq_refl).
Qed.

Lemma SELECT_session_unreadable id w row :
  ready w → undisturbed w →
  session_rows (db w) !! id = Some row → row_readable row = false →
  SELECT_session id w = (Throw RangeError_message, w).
Proof.
  intros Hr Hu Hrow Hrange. unfold SELECT_session.
  rewrite statement_runs by done. by rewrite with_db_id, Hrow, Hrange.
Qed.

Lemma getSessionMetadata_runs `{JSON} sessionId w :
  ready w → undisturbed w →
  (∀ row, session_rows (db w) !! sessionId = Some row →
     row_readable row = true) →
  (∀ row, session_rows (db w) !! sessionId = Some row →
     tags_readable (SessionRow.tags row)) →
  getSessionMetadata sessionId w =
    (Return (metadata_of_row <$> session_rows (db w) !! sessionId), w).
Proof.
  intros Hr Hu Hrange Htags. unfold getSessionMetadata.
  erewrite bind_Return by by apply ensureInitialized_ready.
  apply try_catch_Return.
  erewrite bind_Return by by apply SELECT_session_runs.
  destruct (session_rows (db w) !! sessionId) as [row|]; [|done].
  by erewrite bind_Return by (apply tags_property_runs; auto).
Qed.

(** A row that holds a 64-bit integer beyond the safe range cannot be read:
    [getSessionMetadata] throws, and writes nothing. *)
Lemma getSessionMetadata_unreadable `{JSON} sessionId w row :
  ready w → undisturbed w →
  session_rows (db w) !! sessionId = Some row → row_readable row = false →
  getSessionMetadata sessionId w =
    (Throw ("Failed to get session: " +:+ RangeError_message), w).
Proof.
  intros Hr Hu Hrow Hrange. unfold getSessionMetadata.
  erewrite bind_Return by by apply ensureInitialized_ready.
  erewrite try_catch_Throw; [reflexivity|].
  by erewrite bind_Throw by by eapply SELECT_session_unreadable.
Qed.

Lemma getSessionMetadata_corrupt_tags `{JSON} sessionId w row text :
  ready w → undisturbed w →
  session_rows (db w) !! sessionId = Some row → row_readable row = true →
  or_absent (SessionRow.tags row) = Some text → JSON_parse text = None →
  getSessionMetadata sessionId w =
    (Throw ("Failed to get session: " +:+ SyntaxError_message), w).
Proof.
  intros Hr Hu Hrow Hrange Htext Hparse. unfold getSessionMetadata.
  erewrite bind_Return by by apply ensureInitialized_ready.
  erewrite try_catch_Throw; [reflexivity|].
  erewrite bind_Return
    by (apply SELECT_session_runs; [done..|];
        intros row0 E; rewrite Hrow in E; by injection E as <-).
  rewrite Hrow. erewrite bind_Throw; [reflexivity|].
  unfold tags_property. rewrite Htext.
  erewrite bind_Throw; [reflexivity|]. unfold parse. by rewrite Hparse.
Qed.

Lemma updateSessionMetadata_unreadable `{JSON} sessionId metadata w row :
  ready w → undisturbed w →
  session_rows (db w) !! sessionId = Some row → row_readable row = false →
  updateSessionMetadata sessionId metadata w =
    (Throw ("Failed to get session: " +:+ RangeError_message), w).
Proof.
  intros Hr Hu Hrow Hrange. unfold updateSessionMetadata.
  erewrite bind_Return by by apply ensureInitialized_ready.
  by erewrite bind_Throw by by eapply getSessionMetadata_unreadable.
Qed.

Lemma createSession_runs `{JSON} metadata w :
  ready w → undisturbed w →
  tags_storable (SessionMetadata.tags metadata) →
  let c := if falsy_time (SessionMetadata.createdAt metadata)
           then time w (ticks w)
           else default 0%Z (SessionMetadata.createdAt metadata) in
  let k1 := if falsy_time (SessionMetadata.createdAt metadata)
            then S (ticks w) else ticks w in
  let u := if falsy_time (SessionMetadata.updatedAt metadata)
           then time w k1
           else default 0%Z (SessionMetadata.updatedAt metadata) in
  let k2 := if falsy_time (SessionMetadata.updatedAt metadata)
            then S k1 else k1 in
  createSession metadata w =
    match session_rows (db w) !! SessionMetadata.id metadata with
    | Some _ =>
      (Throw "Failed to create session: UNIQUE constraint failed: sessions.id",
       with_ticks w k2)
    | None =>
      (Return (SessionMetadata.mk (SessionMetadata.id metadata) (Some c) (Some u)
                 (SessionMetadata.name metadata)
                 (SessionMetadata.workingDirectory metadata)
                 (SessionMetadata.tags metadata)),
       with_db (with_ticks w k2)
         (set_sessions (db w)
            (<[SessionMetadata.id metadata :=
                 SessionRow.mk (SessionMetadata.id metadata) c u
                   (or_absent (SessionMetadata.name metadata))
                   (SessionMetadata.workingDirectory metadata)
                   (column_of_tags (SessionMetadata.tags metadata))]>
               (session_rows (db w)))))
    end.
Proof.
  intros Hr Hu Htags c k1 u k2. unfold createSession.
  erewrite bind_Return by by apply ensureInitialized_ready.
  erewrite bind_Return by apply or_now_runs.
  erewrite bind_Return by apply or_now_runs.
  erewrite bind_Return by by apply tags_column_runs.
  unfold try_catch, bind. rewrite INSERT_INTO_sessions_runs by store. simpl.
  by destruct (session_rows (db w) !! SessionMetadata.id metadata).
Qed.

Lemma setClauses_runs `{JSON} metadata updatedAt w :
  tags_storable (Partial.tags metadata) →
  ∃ clauses,
    setClauses metadata updatedAt w = (Return clauses, w) ∧
    (length clauses =? 0)%nat = false ∧
    ∀ row, foldl assign row clauses = updated_row row metadata updatedAt.
Proof.
  intros Htags. unfold setClauses, updated_row.
  destruct metadata as [pc pu n d [v|]];
    cbn [Partial.tags Partial.name Partial.workingDirectory] in *.
  - erewrite bind_Return
      by (erewrite bind_Return by (by apply tags_column_runs); reflexivity).
    eexists. split; [reflexivity|]. split.
    + rewrite !length_app. simpl. apply Nat.eqb_neq. lia.
    + intros row. rewrite !foldl_app. by destruct n, d.
  - erewrite bind_Return by reflexivity.
    eexists. split; [reflexivity|]. split.
    + rewrite !length_app. simpl. apply Nat.eqb_neq. lia.
    + intros row. rewrite !foldl_app. by destruct n, d.
Qed.

Lemma updateSessionMetadata_runs `{JSON} sessionId metadata w row :
  ready w → undisturbed w →
  session_rows (db w) !! sessionId = Some row →
  row_readable row = true →
  tags_readable (SessionRow.tags row) →
  tags_storable (Partial.tags metadata) →
  updateSessionMetadata sessionId metadata w =
    (Return (merged (metadata_of_row row) metadata (time w (ticks w))),
     with_db (with_ticks w (S (ticks w)))
       (set_sessions (db w)
          (<[sessionId := updated_row row metadata (time w (ticks w))]>
             (session_rows (db w))))).
Proof.
  intros Hr Hu Hrow Hrange Hread Hstore. unfold updateSessionMetadata.
  erewrite bind_Return by by apply ensureInitialized_ready.
  erewrite bind_Return
    by (apply getSessionMetadata_runs; [done..| |];
        intros row0 E; rewrite Hrow in E; by injection E as <-).
  rewrite Hrow. simpl.
  erewrite bind_Return by reflexivity.
  apply try_catch_Return.
  destruct (setClauses_runs metadata (time w (ticks w))
              (with_ticks w (S (ticks w))) Hstore) as (clauses & E & Hlen & Hrow').
  erewrite bind_Return by done. rewrite Hlen.
  erewrite bind_Return by (eapply UPDATE_sessions_runs; [store..|exact Hrow]).
  by rewrite Hrow'.
Qed.

(** C6 (amended). On a store in working order, [updateSessionMetadata] of
    an existing session whose row can be read (its timestamps can be read
    as numbers, its tags parse) returns the merged record and rewrites the
    row of that session only: [id] and [createdAt] stay, [updatedAt]
    becomes the reading of the clock, each of [name], [workingDirectory]
    and [tags] that the partial update does not supply stays as it was (in
    the row and in the record returned), and each one supplied is the one
    written.  The events table is not touched.  A session whose row cannot
    be read is not updated at all: the method throws the error of
    [getSessionMetadata], and neither [updatedAt] nor anything else has
    changed. *)
Theorem updateSessionMetadata_sparse `{JSON} (w : World) (sessionId : string)
    (metadata : Partial.t) (row : SessionRow.t) :
  ready w → undisturbed w →
  session_rows (db w) !! sessionId = Some row →
  tags_storable (Partial.tags metadata) →
  (row_readable row = false →
   updateSessionMetadata sessionId metadata w =
     (Throw ("Failed to get session: " +:+ RangeError_message), w)) ∧
  (row_readable row = true →
   ∀ text, or_absent (SessionRow.tags row) = Some text →
     JSON_parse text = None →
     updateSessionMetadata sessionId metadata w =
       (Throw ("Failed to get session: " +:+ SyntaxError_message), w)) ∧
  (row_readable row = true → tags_readable (SessionRow.tags row) →
   ∃ record w' row',
    updateSessionMetadata sessionId metadata w = (Return record, w') ∧
    session_rows (db w') = <[sessionId := row']> (session_rows (db w)) ∧
    event_rows (db w') = event_rows (db w) ∧
    SessionRow.id row' = SessionRow.id row ∧
    SessionRow.createdAt row' = SessionRow.createdAt row ∧
    SessionRow.updatedAt row' = time w (ticks w) ∧
    SessionMetadata.updatedAt record = Some (time w (ticks w)) ∧
    (Partial.createdAt metadata = None →
     SessionMetadata.createdAt record = Some (SessionRow.createdAt row)) ∧
    (Partial.name metadata = None →
     SessionRow.name row' = SessionRow.name row ∧
     SessionMetadata.name record = or_absent (SessionRow.name row)) ∧
    (Partial.workingDirectory metadata = None →
     SessionRow.workingDirectory row' = SessionRow.workingDirectory row ∧
     SessionMetadata.workingDirectory record = SessionRow.workingDirectory row) ∧
    (Partial.tags metadata = None →
     SessionRow.tags row' = SessionRow.tags row ∧
     SessionMetadata.tags record = tags_of_column (SessionRow.tags row)) ∧
    (∀ n, Partial.name metadata = Some n →
       SessionRow.name row' = or_absent (Some n)) ∧
    (∀ d, Partial.workingDirectory metadata = Some d →
       SessionRow.workingDirectory row' = d) ∧
    (∀ v, Partial.tags metadata = Some v →
       SessionRow.tags row' = column_of_tags (Some v))).
Proof.
  intros Hr Hu Hrow Hstore.
  split; [intros Hrange; by eapply updateSessionMetadata_unreadable|].
  split.
  { intros Hrange text Htext Hparse. unfold updateSessionMetadata.
    erewrite bind_Return by by apply ensureInitialized_ready.
    by erewrite bind_Throw by by eapply getSessionMetadata_corrupt_tags. }
  intros Hrange Hread.
  eexists _, _, _. split; [by apply updateSessionMetadata_runs|].
  split; [done|]. split; [done|].
  unfold updated_row, merged. simpl.
  repeat split; intros; try done;
    repeat match goal with E : _ metadata = _ |- _ => rewrite E; clear E end;
    done.
Qed.

(** C9. On a store in working order, [createSession] with an id that is
    already in the sessions table throws, the engine's uniqueness error
    wrapped by the method, and writes no row; with a fresh id it returns the
    record it was given with both timestamps filled in, each the current
    reading of the clock when it was omitted and the caller's when it was
    supplied (and not zero), and inserts the row of that record. *)
Theorem createSession_spec `{JSON} (w : World) (metadata : SessionMetadata.t) :
  ready w → undisturbed w →
  tags_storable (SessionMetadata.tags metadata) →
  (is_Some (session_rows (db w) !! SessionMetadata.id metadata) →
   ∃ w', createSession metadata w =
           (Throw "Failed to create session: UNIQUE constraint failed: sessions.id",
            w') ∧
         same_rows w w') ∧
  (session_rows (db w) !! SessionMetadata.id metadata = None →
   ∃ c u w',
     createSession metadata w =
       (Return (SessionMetadata.mk (SessionMetadata.id metadata) (Some c) (Some u)
                  (SessionMetadata.name metadata)
                  (SessionMetadata.workingDirectory metadata)
                  (SessionMetadata.tags metadata)), w') ∧
     (SessionMetadata.createdAt metadata = None → c = time w (ticks w)) ∧
     (SessionMetadata.updatedAt metadata = None →
      u = time w (if falsy_time (SessionMetadata.createdAt metadata)
                  then S (ticks w) else ticks w)) ∧
     (∀ t, SessionMetadata.createdAt metadata = Some t → t ≠ 0%Z → c = t) ∧
     (∀ t, SessionMetadata.updatedAt metadata = Some t → t ≠ 0%Z → u = t) ∧
     session_rows (db w') =
       <[SessionMetadata.id metadata :=
           SessionRow.mk (SessionMetadata.id metadata) c u
             (or_absent (SessionMetadata.name metadata))
             (SessionMetadata.workingDirectory metadata)
             (column_of_tags (SessionMetadata.tags metadata))]>
         (session_rows (db w)) ∧
     event_rows (db w') = event_rows (db w)).
Proof.
  intros Hr Hu Htags.
  pose proof (createSession_runs metadata w Hr Hu Htags) as E. simpl in E.
  split.
  - intros [row Hrow]. rewrite Hrow in E. by eexists.
  - intros Hrow. rewrite Hrow in E. eexists _, _, _. split; [exact E|].
    split; [by intros ->|]. split; [by intros ->|].
    split. { intros t -> Ht. simpl. by rewrite (proj2 (Z.eqb_neq t 0) Ht). }
    split. { intros t -> Ht. simpl. by rewrite (proj2 (Z.eqb_neq t 0) Ht). }
    done.
Qed.

(** C10 (amended). An empty name does not come back.  [createSession]
    with [name = ""] returns a record that still has the empty name, but
    the row it inserts has no name; [getSessionMetadata] then returns a
    record without one when the timestamps of that row can be read as
    numbers, and throws when they cannot.  The same holds for
    [updateSessionMetadata] with [name = ""] of a session whose row can be
    read. *)
Theorem empty_name_not_preserved `{JSON} (w : World) :
  ready w → undisturbed w →
  (∀ metadata,
     SessionMetadata.name metadata = Some EmptyString →
     session_rows (db w) !! SessionMetadata.id metadata = None →
     tags_storable (SessionMetadata.tags metadata) →
     tags_readable (column_of_tags (SessionMetadata.tags metadata)) →
     ∃ record w' row,
       createSession metadata w = (Return record, w') ∧
       SessionMetadata.name record = Some EmptyString ∧
       session_rows (db w') !! SessionMetadata.id metadata = Some row ∧
       SessionRow.name row = None ∧
       (row_readable row = true →
        ∃ record',
          getSessionMetadata (SessionMetadata.id metadata) w' =
            (Return (Some record'), w') ∧
          SessionMetadata.name record' = None) ∧
       (row_readable row = false →
        getSessionMetadata (SessionMetadata.id metadata) w' =
          (Throw ("Failed to get session: " +:+ RangeError_message), w'))) ∧
  (∀ sessionId metadata row0,
     Partial.name metadata = Some EmptyString →
     session_rows (db w) !! sessionId = Some row0 →
     row_readable row0 = true →
     tags_readable (SessionRow.tags row0) →
     tags_storable (Partial.tags metadata) →
     (∀ v, Partial.tags metadata = Some v →
        tags_readable (column_of_tags (Some v))) →
     ∃ record w' row,
       updateSessionMetadata sessionId metadata w = (Return record, w') ∧
       SessionMetadata.name record = Some EmptyString ∧
       session_rows (db w') !! sessionId = Some row ∧
       SessionRow.name row = None ∧
       (row_readable row = true →
        ∃ record',
          getSessionMetadata sessionId w' = (Return (Some record'), w') ∧
          SessionMetadata.name record' = None) ∧
       (row_readable row = false →
        getSessionMetadata sessionId w' =
          (Throw ("Failed to get session: " +:+ RangeError_message), w'))).
Proof.
  intros Hr Hu. split.
  - intros metadata Hname Hfresh Hstore Hread.
    pose proof (createSession_runs metadata w Hr Hu Hstore) as E. simpl in E.
    rewrite Hfresh in E.
    eexists _, _, _. split; [exact E|]. split; [done|].
    split; [by cbn [db with_db]; rewrite session_rows_set_sessions, lookup_insert_eq|].
    split; [by rewrite Hname|].
    split.
    + intros Hrange. eexists.
      rewrite getSessionMetadata_runs; [|store..| |].
      * cbn [db with_db]. rewrite session_rows_set_sessions, lookup_insert_eq.
        simpl. split; [reflexivity|]. by rewrite Hname.
      * intros row. cbn [db with_db].
        rewrite session_rows_set_sessions, lookup_insert_eq. by intros [= <-].
      * intros row. cbn [db with_db].
        rewrite session_rows_set_sessions, lookup_insert_eq. by intros [= <-].
    + intros Hrange. eapply getSessionMetadata_unreadable; [store..| |exact Hrange].
      cbn [db with_db]. by rewrite session_rows_set_sessions, lookup_insert_eq.
  - intros sessionId metadata row0 Hname Hrow Hrange0 Hread Hstore Hread'.
    eexists _, _, _. split; [by apply updateSessionMetadata_runs|].
    split; [by unfold merged; cbn [SessionMetadata.name]; rewrite Hname|].
    split; [by cbn [db with_db]; rewrite session_rows_set_sessions, lookup_insert_eq|].
    split; [by unfold updated_row; cbn [SessionRow.name]; rewrite Hname|].
    split.
    + intros Hrange. eexists.
      rewrite getSessionMetadata_runs; [|store..| |].
      * cbn [db with_db]. rewrite session_rows_set_sessions, lookup_insert_eq.
        simpl. split; [reflexivity|]. unfold updated_row. cbn [SessionRow.name].
        by rewrite Hname.
      * intros row. cbn [db with_db].
        rewrite session_rows_set_sessions, lookup_insert_eq. by intros [= <-].
      * intros row. cbn [db with_db].
        rewrite session_rows_set_sessions, lookup_insert_eq.
        intros [= <-]. unfold updated_row. cbn [SessionRow.tags].
        destruct (Partial.tags metadata); auto.
    + intros Hrange. eapply getSessionMetadata_unreadable; [store..| |exact Hrange].
      cbn [db with_db]. by rewrite session_rows_set_sessions, lookup_insert_eq.
Qed.

(** ** The encoding of the runtime loses nothing *)

Lemma string_app_nil_r (s : string) : s +:+ "" = s.
Proof. induction s as [|a s IH]; [done|]. by rewrite <- IH at 2. Qed.

Lemma string_app_assoc (s1 s2 s3 : string) :
  (s1 +:+ s2) +:+ s3 = s1 +:+ (s2 +:+ s3).
Proof.
  induction s1 as [|a s1 IH]; [done|].
  change (String a ((s1 +:+ s2) +:+ s3) = String a (s1 +:+ (s2 +:+ s3))).
  by rewrite IH.
Qed.

Lemma string_length_app (s1 s2 : string) :
  String.length (s1 +:+ s2) = (String.length s1 + String.length s2)%nat.
Proof.
  induction s1 as [|a s1 IH]; [done|].
  change (S (String.length (s1 +:+ s2)) = S (String.length s1 + String.length s2)).
  by rewrite IH.
Qed.

Lemma Runtime_digit (d : N) :
  (d < 10)%N →
  let c := Ascii.ascii_of_N (48 + d) in
  Ascii.is_nat c = Some (N.to_nat d) ∧ Ascii.is_space c = false ∧
  Ascii.eqb c "n" = false ∧ Ascii.eqb c "t" = false ∧ Ascii.eqb c "f" = false ∧
  Ascii.eqb c Runtime.quote = false ∧ Ascii.eqb c "-" = false ∧
  Ascii.eqb c "[" = false ∧ Ascii.eqb c "{" = false ∧
  Ascii.eqb c "]" = false ∧ Ascii.eqb c "}" = false.
Proof.
  intros Hd.
  assert (d = 0 ∨ d = 1 ∨ d = 2 ∨ d = 3 ∨ d = 4 ∨ d = 5 ∨ d = 6 ∨ d = 7 ∨
          d = 8 ∨ d = 9)%N as Hcases by lia.
  repeat (destruct Hcases as [->|Hcases]; [by vm_compute|]).
  subst d. by vm_compute.
Qed.

Lemma Runtime_digits_app fuel n acc rest :
  Runtime.digits fuel n acc +:+ rest = Runtime.digits fuel n (acc +:+ rest).
Proof.
  revert n acc. induction fuel as [|fuel IH]; intros n acc; [done|]. simpl.
  destruct (n `div` 10 =? 0)%N; [done|]. apply IH.
Qed.

Lemma Runtime_size_nat_bound (n : N) : (n < 2 ^ N.of_nat (N.size_nat n))%N.
Proof.
  destruct n as [|p]; [done|]. simpl.
  induction p as [p IH|p IH|]; simpl Pos.size_nat.
  - rewrite Nat2N.inj_succ, N.pow_succ_r'. lia.
  - rewrite Nat2N.inj_succ, N.pow_succ_r'. lia.
  - done.
Qed.

Lemma Runtime_read_digits_end rest acc :
  Runtime.ends_number rest →
  Runtime.read_digits rest acc true = Some (acc, rest).
Proof. destruct rest as [|c rest]; [done|]. simpl. by intros ->. Qed.

Lemma Runtime_read_digits_digits fuel n acc :
  (n < 2 ^ N.of_nat (S fuel))%N →
  (∃ k, ∀ a seen,
     Runtime.read_digits (Runtime.digits (S fuel) n acc) a seen =
       Runtime.read_digits acc (a * 10 ^ k + n)%N true) ∧
  (∃ d s, (d < 10)%N ∧
     Runtime.digits (S fuel) n acc = String (Ascii.ascii_of_N (48 + d)) s).
Proof.
  revert n acc. induction fuel as [|fuel IH]; intros n acc Hn.
  - assert (n `mod` 10 < 10)%N as Hd by (apply N.mod_lt; lia).
    destruct (Runtime_digit _ Hd) as (Hnat & _).
    assert (n `div` 10 = 0 ∧ n `mod` 10 = n)%N as [Hq Hsmall].
    { change (n < 2)%N in Hn. rewrite N.div_small, N.mod_small by lia. done. }
    simpl. rewrite Hq. simpl. split; [|by eauto].
    exists 1%N. intros a seen. simpl. rewrite Hnat. f_equal. lia.
  - assert (n `mod` 10 < 10)%N as Hd by (apply N.mod_lt; lia).
    destruct (Runtime_digit _ Hd) as (Hnat & _).
    change (Runtime.digits (S (S fuel)) n acc) with
      (let acc' := String (Ascii.ascii_of_N (48 + n `mod` 10)) acc in
       if (n `div` 10 =? 0)%N then acc'
       else Runtime.digits (S fuel) (n `div` 10)%N acc').
    cbv zeta. destruct (n `div` 10 =? 0)%N eqn:Hq.
    + apply N.eqb_eq in Hq.
      assert (n `mod` 10 = n)%N as Hsmall.
      { pose proof (N.div_mod n 10). lia. }
      split; [|by eauto].
      exists 1%N. intros a seen. simpl. rewrite Hnat. f_equal. lia.
    + apply N.eqb_neq in Hq.
      assert (n `div` 10 < 2 ^ N.of_nat (S fuel))%N as Hless.
      { rewrite (Nat2N.inj_succ (S fuel)), N.pow_succ_r' in Hn.
        apply N.Div0.div_lt_upper_bound. lia. }
      destruct (IH (n `div` 10)%N
                  (String (Ascii.ascii_of_N (48 + n `mod` 10)) acc) Hless)
        as [[k Hk] Hfirst].
      split; [|done].
      exists (N.succ k). intros a seen. rewrite Hk. simpl. rewrite Hnat.
      f_equal. rewrite N.pow_succ_r'. pose proof (N.div_mod n 10). lia.
Qed.

Lemma string_app_cons a (s1 s2 : string) :
  String a s1 +:+ s2 = String a (s1 +:+ s2).
Proof. reflexivity. Qed.

Lemma string_app_nil_l (s : string) : "" +:+ s = s.
Proof. reflexivity. Qed.

Ltac join_text :=
  repeat first [ rewrite string_app_assoc | rewrite string_app_cons
               | rewrite string_app_nil_l ].

Lemma Runtime_read_string s rest :
  Runtime.read_string (Runtime.escaped s +:+ String Runtime.quote rest) =
    Some (s, rest).
Proof.
  induction s as [|c s IH]; [done|]. simpl Runtime.escaped.
  destruct (Ascii.eqb c Runtime.quote || Ascii.eqb c Runtime.backslash) eqn:Hc.
  - join_text. simpl. rewrite Hc, IH. done.
  - join_text. apply orb_false_iff in Hc as [Hq Hb]. simpl. by rewrite Hq, Hb, IH.
Qed.

Lemma Runtime_number_text_app z rest :
  ∃ fuel,
    (Z.abs_N z < 2 ^ N.of_nat (S fuel))%N ∧
    Runtime.number_text z +:+ rest =
      if (z <? 0)%Z
      then String "-" (Runtime.digits (S fuel) (Z.abs_N z) rest)
      else Runtime.digits (S fuel) (Z.abs_N z) rest.
Proof.
  exists (N.size_nat (Z.abs_N z)). split.
  - pose proof (Runtime_size_nat_bound (Z.abs_N z)).
    rewrite Nat2N.inj_succ, N.pow_succ_r'. lia.
  - unfold Runtime.number_text. destruct (z <? 0)%Z; join_text;
      by rewrite Runtime_digits_app.
Qed.

(** A value does not start with a space or a closing bracket. *)
Lemma Runtime_text_first v rest :
  ∃ c s, Runtime.text_of v +:+ rest = String c s ∧
    Ascii.is_space c = false ∧
    Ascii.eqb c "]" = false ∧ Ascii.eqb c "}" = false.
Proof.
  destruct v as [|[]|z|s|items|props]; try (by eexists _, _).
  simpl Runtime.text_of.
  destruct (Runtime_number_text_app z rest) as (fuel & Hz & ->).
  destruct (z <? 0)%Z; [by eexists _, _|].
  destruct (Runtime_read_digits_digits fuel (Z.abs_N z) rest Hz)
    as (_ & d & s & Hd & ->).
  destruct (Runtime_digit d Hd) as (_ & ? & _ & _ & _ & _ & _ & _ & _ & ? & ?).
  by eexists _, _.
Qed.

Lemma Runtime_skip_space_text v rest :
  Runtime.skip_space (Runtime.text_of v +:+ rest) = Runtime.text_of v +:+ rest.
Proof.
  destruct (Runtime_text_first v rest) as (c & s & -> & Hc & _).
  simpl. by rewrite Hc.
Qed.

Lemma JSValue_induction (P : JSValue → Prop) :
  P JNull → (∀ b, P (JBool b)) → (∀ n, P (JNum n)) → (∀ s, P (JStr s)) →
  (∀ items, Forall P items → P (JArr items)) →
  (∀ props, Forall (λ kv, P kv.2) props → P (JObj props)) →
  ∀ v, P v.
Proof.
  intros Hnull Hbool Hnum Hstr Harr Hobj. fix IH 1.
  intros [|b|n|s|items|props]; [done..| |].
  - apply Harr. induction items as [|x items IHitems]; constructor; [apply IH|done].
  - apply Hobj. induction props as [|[k x] props IHprops]; constructor;
      [apply IH|done].
Qed.

Lemma Runtime_parse_number fuel z rest :
  Runtime.ends_number rest →
  Runtime.parse_value (S fuel) (Runtime.text_of (JNum z) +:+ rest) =
    Some (JNum z, rest).
Proof.
  intros Hrest. simpl Runtime.text_of.
  destruct (Runtime_number_text_app z rest) as (k & Hz & ->).
  destruct (Runtime_read_digits_digits k (Z.abs_N z) rest Hz)
    as ((p & Hread) & d & s & Hd & Hfirst).
  destruct (z <? 0)%Z eqn:Hneg.
  - cbn -[Runtime.digits]. rewrite Hread, Runtime_read_digits_end by done.
    cbn. apply Z.ltb_lt in Hneg.
    assert (- Z.of_N (0 * 10 ^ p + Z.abs_N z) = z)%Z as -> by lia. done.
  - destruct (Runtime_digit d Hd)
      as (_ & Hsp & Hn & Ht & Hf & Hq & Hm & Ha & Ho & _).
    pose proof Hread as Hread'. rewrite Hfirst in Hread' |- *.
    cbn -[Runtime.read_digits]. rewrite Hsp, Hn, Ht, Hf, Hq, Hm, Ha, Ho.
    rewrite Hread', Runtime_read_digits_end by done.
    cbn. apply Z.ltb_ge in Hneg.
    assert (Z.of_N (0 * 10 ^ p + Z.abs_N z) = z)%Z as -> by lia. done.
Qed.

Lemma Runtime_items_text_cons x y l :
  Runtime.items_text (x :: y :: l) =
    Runtime.text_of x +:+ "," +:+ Runtime.items_text (y :: l).
Proof. reflexivity. Qed.

Lemma Runtime_props_text_cons k x kv l :
  Runtime.props_text ((k, x) :: kv :: l) =
    Runtime.quoted k +:+ ":" +:+ Runtime.text_of x +:+ "," +:+
    Runtime.props_text (kv :: l).
Proof. reflexivity. Qed.

Lemma Runtime_parse_items items :
  Forall Runtime.parses items → items ≠ [] →
  ∀ fuel rest, (Runtime.need_items items ≤ fuel)%nat →
    Runtime.parse_items fuel (Runtime.items_text items +:+ String "]" rest) =
      Some (items, rest).
Proof.
  induction 1 as [|x items Hx _ IH]; [done|]. intros _ fuel rest Hfuel.
  destruct fuel as [|fuel]; [simpl in Hfuel; lia|].
  change (Runtime.need_items (x :: items))
    with (S (Runtime.need x + Runtime.need_items items)) in Hfuel.
  destruct items as [|y items].
  - change (Runtime.items_text [x]) with (Runtime.text_of x).
    cbn [Runtime.parse_items].
    rewrite (Hx fuel (String "]" rest)) by (done || lia). by cbn.
  - rewrite Runtime_items_text_cons. join_text. cbn [Runtime.parse_items].
    rewrite (Hx fuel) by (done || lia). cbn -[Runtime.parse_items].
    rewrite IH by (done || lia). done.
Qed.

Lemma Runtime_parse_props props :
  Forall (λ kv, Runtime.parses kv.2) props → props ≠ [] →
  ∀ fuel rest, (Runtime.need_props props ≤ fuel)%nat →
    Runtime.parse_props fuel (Runtime.props_text props +:+ String "}" rest) =
      Some (props, rest).
Proof.
  induction 1 as [|[k x] props Hx _ IH]; [done|]. intros _ fuel rest Hfuel.
  destruct fuel as [|fuel]; [simpl in Hfuel; lia|].
  change (Runtime.need_props ((k, x) :: props))
    with (S (Runtime.need x + Runtime.need_props props)) in Hfuel.
  simpl in Hx.
  destruct props as [|kv props].
  - change (Runtime.props_text [(k, x)])
      with (Runtime.quoted k +:+ ":" +:+ Runtime.text_of x).
    unfold Runtime.quoted. join_text. cbn [Runtime.parse_props Runtime.skip_space].
    change (Ascii.is_space Runtime.quote) with false. cbv iota.
    change (Ascii.eqb Runtime.quote Runtime.quote) with true. cbv iota.
    rewrite Runtime_read_string. cbn -[Runtime.parse_value].
    rewrite (Hx fuel (String "}" rest)) by (done || lia). by cbn.
  - rewrite Runtime_props_text_cons.
    unfold Runtime.quoted at 1. join_text. cbn [Runtime.parse_props Runtime.skip_space].
    change (Ascii.is_space Runtime.quote) with false. cbv iota.
    change (Ascii.eqb Runtime.quote Runtime.quote) with true. cbv iota.
    rewrite Runtime_read_string. cbn -[Runtime.parse_value Runtime.parse_props].
    rewrite (Hx fuel) by (done || lia). cbn -[Runtime.parse_props].
    rewrite IH by (done || lia). done.
Qed.

Lemma Runtime_parse_array fuel rest0 :
  Runtime.parse_value (S fuel) (String "[" rest0) =
    match Runtime.skip_space rest0 with
    | String c rest' =>
      if Ascii.eqb c "]" then Some (JArr [], rest')
      else '(items, r) ← Runtime.parse_items fuel rest0; Some (JArr items, r)
    | EmptyString => None
    end.
Proof. reflexivity. Qed.

Lemma Runtime_parse_object fuel rest0 :
  Runtime.parse_value (S fuel) (String "{" rest0) =
    match Runtime.skip_space rest0 with
    | String c rest' =>
      if Ascii.eqb c "}" then Some (JObj [], rest')
      else '(props, r) ← Runtime.parse_props fuel rest0; Some (JObj props, r)
    | EmptyString => None
    end.
Proof. reflexivity. Qed.

Lemma Runtime_items_text_first x items rest :
  ∃ rest', Runtime.items_text (x :: items) +:+ rest = Runtime.text_of x +:+ rest'.
Proof.
  destruct items as [|y items]; [by eexists|].
  rewrite Runtime_items_text_cons. join_text. by eexists.
Qed.

Lemma Runtime_parse_value v : Runtime.parses v.
Proof.
  induction v as [|b|z|s|items IH|props IH] using JSValue_induction;
    intros fuel rest Hfuel Hrest;
    (destruct fuel as [|fuel]; [simpl in Hfuel; lia|]).
  - done.
  - by destruct b.
  - by apply Runtime_parse_number.
  - simpl Runtime.text_of. unfold Runtime.quoted. join_text.
    cbn -[Runtime.read_string]. by rewrite Runtime_read_string.
  - change (Runtime.text_of (JArr items))
      with ("[" +:+ Runtime.items_text items +:+ "]").
    change (Runtime.need (JArr items)) with (S (Runtime.need_items items))
      in Hfuel.
    join_text. rewrite Runtime_parse_array.
    destruct items as [|x items]; [done|].
    destruct (Runtime_items_text_first x items (String "]" rest)) as [rest' E].
    destruct (Runtime_text_first x rest') as (c & s & E' & Hsp & Hc & _).
    rewrite E, E'. cbn [Runtime.skip_space]. rewrite Hsp, Hc, <- E', <- E.
    rewrite Runtime_parse_items by (done || lia). done.
  - change (Runtime.text_of (JObj props))
      with ("{" +:+ Runtime.props_text props +:+ "}").
    change (Runtime.need (JObj props)) with (S (Runtime.need_props props))
      in Hfuel.
    join_text. rewrite Runtime_parse_object.
    destruct props as [|[k x] props]; [done|].
    assert (∃ rest', Runtime.props_text ((k, x) :: props) +:+ String "}" rest =
                     String Runtime.quote rest') as [rest' E].
    { destruct props as [|kv props].
      - change (Runtime.props_text [(k, x)])
          with (Runtime.quoted k +:+ ":" +:+ Runtime.text_of x).
        unfold Runtime.quoted. join_text. by eexists.
      - rewrite Runtime_props_text_cons. unfold Runtime.quoted at 1. join_text.
        by eexists. }
    rewrite E. cbn [Runtime.skip_space].
    change (Ascii.is_space Runtime.quote) with false. cbv iota.
    change (Ascii.eqb Runtime.quote "}") with false. cbv iota. rewrite <- E.
    rewrite Runtime_parse_props by (done || lia). done.
Qed.

Lemma Runtime_text_not_empty v : (1 ≤ String.length (Runtime.text_of v))%nat.
Proof.
  destruct (Runtime_text_first v "") as (c & s & E & _).
  rewrite string_app_nil_r in E. rewrite E. simpl. lia.
Qed.

Lemma Runtime_need_bound v :
  (Runtime.need v ≤ 2 * String.length (Runtime.text_of v))%nat.
Proof.
  induction v as [|b|z|s|items IH|props IH] using JSValue_induction.
  - simpl. lia.
  - destruct b; simpl; lia.
  - pose proof (Runtime_text_not_empty (JNum z)). simpl Runtime.need. lia.
  - pose proof (Runtime_text_not_empty (JStr s)). simpl Runtime.need. lia.
  - change (Runtime.text_of (JArr items))
      with ("[" +:+ Runtime.items_text items +:+ "]").
    change (Runtime.need (JArr items)) with (S (Runtime.need_items items)).
    rewrite !string_length_app.
    change (String.length "[") with 1%nat. change (String.length "]") with 1%nat.
    assert (Runtime.need_items items ≤
            2 * String.length (Runtime.items_text items) + 2)%nat; [|lia].
    induction IH as [|x items Hx _ IHitems]; [simpl; lia|].
    change (Runtime.need_items (x :: items))
      with (S (Runtime.need x + Runtime.need_items items)).
    destruct items as [|y items].
    + change (Runtime.items_text [x]) with (Runtime.text_of x). simpl. lia.
    + rewrite Runtime_items_text_cons, !string_length_app.
      change (String.length ",") with 1%nat. lia.
  - change (Runtime.text_of (JObj props))
      with ("{" +:+ Runtime.props_text props +:+ "}").
    change (Runtime.need (JObj props)) with (S (Runtime.need_props props)).
    rewrite !string_length_app.
    change (String.length "{") with 1%nat. change (String.length "}") with 1%nat.
    assert (Runtime.need_props props ≤
            2 * String.length (Runtime.props_text props) + 2)%nat; [|lia].
    induction IH as [|[k x] props Hx _ IHprops]; [simpl; lia|].
    change (Runtime.need_props ((k, x) :: props))
      with (S (Runtime.need x + Runtime.need_props props)).
    simpl in Hx.
    destruct props as [|kv props].
    + change (Runtime.props_text [(k, x)])
        with (Runtime.quoted k +:+ ":" +:+ Runtime.text_of x).
      rewrite !string_length_app. simpl Runtime.need_props.
      change (String.length ":") with 1%nat. lia.
    + rewrite Runtime_props_text_cons, !string_length_app.
      change (String.length ":") with 1%nat.
      change (String.length ",") with 1%nat. lia.
Qed.

(** Every value comes back from its text. *)
Lemma Runtime_value_of_text_of v :
  Runtime.value_of (Runtime.text_of v) = Some v.
Proof.
  unfold Runtime.value_of.
  pose proof (Runtime_parse_value v
                (2 * String.length (Runtime.text_of v) + 2) "") as E.
  rewrite string_app_nil_r in E. rewrite E; [done| |done].
  pose proof (Runtime_need_bound v). lia.
Qed.

Lemma Runtime_round_trips : @round_trips Runtime.json.
Proof. intros v text [= <-]. apply Runtime_value_of_text_of. Qed.

(** ** The properties at work on the sample store *)

Ltac run := vm_compute; first [reflexivity | by eexists].


Lemma Sample_started_ready : ready Sample.started.
Proof. repeat split; run. Qed.

Lemma Sample_recorded_ready : ready Sample.recorded.
Proof. repeat split; run. Qed.

Lemma Sample_damaged_ready : ready Sample.damaged.
Proof. repeat split; run. Qed.

Lemma Runtime_tags_storable tags : tags_storable tags.
Proof. intros v _ _. by eexists. Qed.

Lemma initialize_idempotent_witness :
  initialize Sample.fresh = (Return tt, (initialize Sample.fresh).2) ∧
  (initialize ;;; initialize) Sample.fresh =
    (Return tt, (initialize Sample.fresh).2) ∧
  initialized Sample.started = true ∧
  initialize Sample.started = (Return tt, Sample.started) ∧
  ∃ w1, initialize Sample.fresh = (Return tt, w1) ∧ ready w1.
Proof.
  assert (initialize Sample.fresh = (Return tt, (initialize Sample.fresh).2))
    as E by run.
  destruct (initialize_idempotent Sample.fresh) as (_ & Hagain & Hfirst).
  split; [exact E|].
  split; [apply (Hagain _ E)|].
  split; [run|].
  split; [apply (proj1 (initialize_idempotent Sample.started)); run|].
  apply Hfirst; run.
Defined.

Lemma saveEvent_unknown_session_witness :
  session_rows (db Sample.started) !! "ghost" = None ∧
  ensureInitialized Sample.started = (Return tt, Sample.started) ∧
  saveEvent "ghost" Sample.a Sample.started =
    (Throw "Failed to save event: Session not found: ghost", Sample.started).
Proof.
  assert (session_rows (db Sample.started) !! "ghost" = None) as Hnone by run.
  assert (ensureInitialized Sample.started = (Return tt, Sample.started))
    as Hinit by run.
  split; [exact Hnone|]. split; [exact Hinit|].
  destruct (saveEvent_unknown_session Sample.started "ghost" Sample.a Hnone)
    as (message & w' & E & _ & Hfound).
  destruct (Hfound _ Hinit Sample_started_ready eq_refl) as [-> ->].
  exact E.
Defined.

Lemma deleteSession_cascade_witness :
  deleteSession "s1" Sample.recorded =
    (Return true, (deleteSession "s1" Sample.recorded).2) ∧
  event_rows (db (deleteSession "s1" Sample.recorded).2) = [] ∧
  getSessionEvents "s1" (deleteSession "s1" Sample.recorded).2 =
    (Throw "Failed to get session events: Session not found: s1",
     (deleteSession "s1" Sample.recorded).2) ∧
  deleteSession "s1" Scenario.halfway =
    (Throw "Failed to delete session: database is locked",
     (deleteSession "s1" Scenario.halfway).2) ∧
  session_rows (db (deleteSession "s1" Scenario.halfway).2) =
    session_rows (db Scenario.halfway).
Proof.
  assert (deleteSession "s1" Sample.recorded =
            (Return true, (deleteSession "s1" Sample.recorded).2)) as E by run.
  assert (deleteSession "s1" Scenario.halfway =
            (Throw "Failed to delete session: database is locked",
             (deleteSession "s1" Scenario.halfway).2)) as E' by run.
  split; [exact E|].
  destruct (deleteSession_cascade _ _ _ _ E) as (Hreturn & _).
  destruct (Hreturn true eq_refl) as (_ & He & _ & _ & _ & Hthrow).
  split; [rewrite He; run|]. split; [apply Hthrow; run|].
  split; [exact E'|].
  destruct (deleteSession_cascade _ _ _ _ E') as (_ & Hthrown & _).
  exact (proj1 (Hthrown _ eq_refl)).
Defined.

(** C2, as the claim has it, fails: when the engine refuses the second
    delete after it ran the first, [deleteSession] throws and the store is
    left with the session in place and its events gone. *)
Lemma deleteSession_not_atomic :
  (deleteSession "s1" Scenario.halfway).1 =
    Throw "Failed to delete session: database is locked" ∧
  ¬ deleted_together "s1" Scenario.halfway
      (deleteSession "s1" Scenario.halfway).2.
Proof.
  split; [run|].
  intros [[Hs _]|[_ Hl]].
  - vm_compute in Hs. discriminate Hs.
  - vm_compute in Hl. discriminate Hl.
Qed.


Lemma getSessionEvents_corrupt_record_witness :
  ready Sample.damaged ∧ undisturbed Sample.damaged ∧
  getSessionEvents "s1" Sample.damaged =
    (Return [Sample.a;
             JObj [("type", JStr "system");
                   ("message", JStr "Failed to parse event data");
                   ("timestamp", JNum 1700000000002)];
             Sample.c],
     with_ticks Sample.damaged (S (ticks Sample.damaged))).
Proof.
  split; [exact Sample_damaged_ready|]. split; [run|].
  destruct (getSessionEvents_corrupt_record Sample.damaged "s1"
              [EventRow.mk 1 "s1" 1700000000001 (Runtime.text_of Sample.a)]
              (EventRow.mk 2 "s1" 1700000000001 "{oops")
              [EventRow.mk 3 "s1" 1700000000002 (Runtime.text_of Sample.c)])
    as (vs_before & vs_after & E & Hbefore & Hafter).
  - exact Sample_damaged_ready.
  - run.
  - run.
  - run.
  - run.
  - repeat constructor; run.
  - repeat constructor; run.
  - rewrite E.
    apply Forall2_cons_inv_l in Hbefore as (va & ? & Ha & ->%Forall2_nil_inv_l & ->).
    apply Forall2_cons_inv_l in Hafter as (vc & ? & Hc & ->%Forall2_nil_inv_l & ->).
    vm_compute in Ha, Hc. injection Ha as <-. injection Hc as <-. run.
Defined.

(** C5, as the claim has it, fails: when the engine refuses the update
    after it ran the insert, [saveEvent] throws and the store is left with
    the event row but with [updatedAt] of the session where it was. *)
Lemma saveEvent_not_atomic :
  (saveEvent "s1" Sample.a Sample.interrupted).1 =
    Throw "Failed to save event: database is locked" ∧
  ¬ both_or_neither "s1" Sample.interrupted
      (saveEvent "s1" Sample.a Sample.interrupted).2.
Proof.
  split; [run|].
  intros [[He _]|(ev & row & He & Hrow & Hts)].
  - vm_compute in He. discriminate He.
  - vm_compute in He. injection He as <-.
    vm_compute in Hrow. injection Hrow as <-.
    vm_compute in Hts. discriminate Hts.
Qed.

Lemma saveEvent_two_writes_witness :
  (∃ row, session_rows (db Sample.interrupted) !! "s1" = Some row) ∧
  session_rows (db (saveEvent "s1" Sample.a Sample.interrupted).2) =
    session_rows (db Sample.interrupted) ∧
  (saveEvent "s1" Sample.b Sample.started).1 = Return tt.
Proof.
  split; [run|].
  split.
  - eapply (saveEvent_two_writes Sample.interrupted "s1" Sample.a _
              (saveEvent "s1" Sample.a Sample.interrupted).1
              (saveEvent "s1" Sample.a Sample.interrupted).2).
    + run.
    + apply surjective_pairing.
    + run.
  - eapply (saveEvent_two_writes Sample.started "s1" Sample.b).
    + run.
    + apply surjective_pairing.
    + exact Sample_started_ready.
    + run.
    + run.
Defined.

Lemma updateSessionMetadata_sparse_witness :
  ready Sample.started ∧ undisturbed Sample.started ∧
  (∃ record w' row',
     updateSessionMetadata "s1" Sample.rename Sample.started = (Return record, w') ∧
     session_rows (db w') !! "s1" = Some row' ∧
     SessionRow.name row' = Some "X" ∧
     SessionRow.workingDirectory row' = "/tmp" ∧
     SessionRow.tags row' = Some (Runtime.text_of (JArr [JStr "alpha"; JStr "beta"])) ∧
     SessionRow.createdAt row' = 1700000000000%Z ∧
     SessionRow.updatedAt row' = 1700000000001%Z) ∧
  ready Scenario.overdated ∧ undisturbed Scenario.overdated ∧
  updateSessionMetadata "s9" Sample.rename Scenario.overdated =
    (Throw ("Failed to get session: " +:+ RangeError_message),
     Scenario.overdated).
Proof.
  assert (ready Scenario.overdated) as Hr' by (repeat split; run).
  split; [exact Sample_started_ready|]. split; [run|].
  split; [|split; [exact Hr'|split; [run|]]].
  - destruct (updateSessionMetadata_sparse Sample.started "s1" Sample.rename
                (SessionRow.mk "s1" 1700000000000 1700000000000 (Some "demo")
                   "/tmp" (Some (Runtime.text_of (JArr [JStr "alpha"; JStr "beta"])))))
      as (_ & _ & Hupdate).
    + exact Sample_started_ready.
    + run.
    + run.
    + apply Runtime_tags_storable.
    + destruct Hupdate
        as (record & w' & row' & E & Hs & _ & _ & Hc & Hu & _ & _ & _ & Hwd
            & Htags & Hname & _).
      * run.
      * intros text [= <-]. run.
      * exists record, w', row'. split; [exact E|].
        split; [by rewrite Hs, lookup_insert_eq|].
        split; [exact (Hname "X" eq_refl)|].
        split; [exact (proj1 (Hwd eq_refl))|].
        split; [exact (proj1 (Htags eq_refl))|].
        split; [exact Hc|exact Hu].
  - destruct (updateSessionMetadata_sparse Scenario.overdated "s9" Sample.rename
                (SessionRow.mk "s9" 9007199254740992 1700000000001 None "/big"
                   None))
      as (Hthrow & _).
    + exact Hr'.
    + run.
    + run.
    + apply Runtime_tags_storable.
    + apply Hthrow. run.
Defined.

(** C6, as the claim has it, fails: a session can exist whose row cannot be
    read back.  For one created through [createSession] at a time of
    [2^53], and for one whose tags column does not parse,
    [updateSessionMetadata] of the name throws, and [updatedAt] has not
    advanced. *)
Lemma updateSessionMetadata_not_every_session :
  (is_Some (session_rows (db Scenario.overdated) !! "s9") ∧
   ¬ renamed "s9" "X" Scenario.overdated ∧
   updateSessionMetadata "s9" Sample.rename Scenario.overdated =
     (Throw ("Failed to get session: " +:+ RangeError_message),
      Scenario.overdated)) ∧
  (is_Some (session_rows (db Scenario.mistagged) !! "s1") ∧
   ¬ renamed "s1" "X" Scenario.mistagged ∧
   updateSessionMetadata "s1" Sample.rename Scenario.mistagged =
     (Throw ("Failed to get session: " +:+ SyntaxError_message),
      Scenario.mistagged)).
Proof.
  split; (split; [run|]); (split; [|run]).
  - intros (record & w' & row & row' & _ & E & _). vm_compute in E. discriminate E.
  - intros (record & w' & row & row' & _ & E & _). vm_compute in E. discriminate E.
Qed.

Lemma saveEvent_round_trip_witness :
  @round_trips Runtime.json ∧
  ready Sample.started ∧ undisturbed Sample.started ∧
  ∃ w' events w'' i,
    saveEvent "s1" Sample.c Sample.started = (Return tt, w') ∧
    getSessionEvents "s1" w' = (Return events, w'') ∧
    events !! i = Some Sample.c.
Proof.
  split; [exact Runtime_round_trips|].
  split; [exact Sample_started_ready|]. split; [run|].
  destruct (saveEvent_round_trip Sample.started "s1" Sample.c
              (Runtime.text_of Sample.c))
    as (w' & events & w'' & i & Esave & Eget & _ & Hslot & _).
  - exact Runtime_round_trips.
  - exact Sample_started_ready.
  - run.
  - run.
  - run.
  - exists w', events, w'', i.
    split; [exact Esave|]. split; [exact Eget|exact Hslot].
Defined.

Lemma createSession_spec_witness :
  ready Sample.started ∧ undisturbed Sample.started ∧
  (∃ w', createSession Sample.s1 Sample.started =
           (Throw "Failed to create session: UNIQUE constraint failed: sessions.id",
            w')) ∧
  (∃ w', createSession Sample.unnamed Sample.started =
           (Return (SessionMetadata.mk "s2" (Some 1700000000001%Z)
                      (Some 1700000000001%Z) (Some EmptyString) "/srv" None), w')).
Proof.
  split; [exact Sample_started_ready|]. split; [run|].
  split.
  - destruct (proj1 (createSession_spec Sample.started Sample.s1
                       Sample_started_ready eq_refl (Runtime_tags_storable _)))
      as (w' & E & _); [run|].
    by exists w'.
  - destruct (proj2 (createSession_spec Sample.started Sample.unnamed
                       Sample_started_ready eq_refl (Runtime_tags_storable _)))
      as (c & u & w' & E & Hc & Hu & _); [run|].
    exists w'. rewrite E, (Hc eq_refl), (Hu eq_refl). run.
Defined.

Lemma empty_name_not_preserved_witness :
  ready Sample.started ∧ undisturbed Sample.started ∧
  (∃ record w' record',
     createSession Sample.unnamed Sample.started = (Return record, w') ∧
     SessionMetadata.name record = Some EmptyString ∧
     getSessionMetadata "s2" w' = (Return (Some record'), w') ∧
     SessionMetadata.name record' = None) ∧
  (∃ record w' record',
     updateSessionMetadata "s1" Sample.unname Sample.started = (Return record, w') ∧
     SessionMetadata.name record = Some EmptyString ∧
     getSessionMetadata "s1" w' = (Return (Some record'), w') ∧
     SessionMetadata.name record' = None) ∧
  (∃ record w',
     createSession Scenario.oversized Sample.started = (Return record, w') ∧
     SessionMetadata.name record = Some EmptyString ∧
     getSessionMetadata "s9" w' =
       (Throw ("Failed to get session: " +:+ RangeError_message),
        w')).
Proof.
  split; [exact Sample_started_ready|]. split; [run|].
  destruct (empty_name_not_preserved Sample.started Sample_started_ready eq_refl)
    as [Hcreate Hupdate].
  split; [|split].
  - destruct (Hcreate Sample.unnamed)
      as (record & w' & row & E & Hname & Hrow & _ & Hget & _).
    + run.
    + run.
    + apply Runtime_tags_storable.
    + by intros text [=].
    + destruct Hget as (record' & Eget & Hname').
      * assert (session_rows (db (createSession Sample.unnamed Sample.started).2)
                  !! "s2" = Some row) as Hrow' by (by rewrite E).
        vm_compute in Hrow'. injection Hrow' as <-. reflexivity.
      * exists record, w', record'.
        split; [exact E|]. split; [exact Hname|]. split; [exact Eget|exact Hname'].
  - destruct (Hupdate "s1" Sample.unname
                (SessionRow.mk "s1" 1700000000000 1700000000000 (Some "demo")
                   "/tmp" (Some (Runtime.text_of (JArr [JStr "alpha"; JStr "beta"])))))
      as (record & w' & row & E & Hname & Hrow & _ & Hget & _).
    + run.
    + run.
    + run.
    + intros text [= <-]. run.
    + apply Runtime_tags_storable.
    + by intros v [=].
    + destruct Hget as (record' & Eget & Hname').
      * assert (session_rows
                  (db (updateSessionMetadata "s1" Sample.unname Sample.started).2)
                  !! "s1" = Some row) as Hrow' by (by rewrite E).
        vm_compute in Hrow'. injection Hrow' as <-. reflexivity.
      * exists record, w', record'.
        split; [exact E|]. split; [exact Hname|]. split; [exact Eget|exact Hname'].
  - destruct (Hcreate Scenario.oversized)
      as (record & w' & row & E & Hname & Hrow & _ & _ & Hget).
    + run.
    + run.
    + apply Runtime_tags_storable.
    + by intros text [=].
    + exists record, w'. split; [exact E|]. split; [exact Hname|].
      apply Hget.
      assert (session_rows (db (createSession Scenario.oversized Sample.started).2)
                !! "s9" = Some row) as Hrow' by (by rewrite E).
      vm_compute in Hrow'. injection Hrow' as <-. reflexivity.
Defined.

(** C10, as the claim has it, fails: a session created with an empty name
    at a time of [2^53] is stored without a name, but [getSessionMetadata]
    does not return a record for it; it throws. *)
Lemma empty_name_no_record :
  SessionMetadata.name Scenario.oversized = Some EmptyString ∧
  session_rows (db Sample.started) !! "s9" = None ∧
  ¬ comes_back_unnamed Scenario.oversized Sample.started ∧
  (createSession Scenario.oversized Sample.started).1 =
    Return (SessionMetadata.mk "s9" (Some 9007199254740992%Z)
              (Some 1700000000001%Z) (Some EmptyString) "/big" None) ∧
  SessionRow.name <$> session_rows (db Scenario.overdated) !! "s9" = Some None ∧
  getSessionMetadata "s9" Scenario.overdated =
    (Throw ("Failed to get session: " +:+ RangeError_message),
     Scenario.overdated).
Proof.
  split; [reflexivity|]. split; [run|]. split; [|split; [run|split; run]].
  intros (record & w' & row & record' & E & _ & _ & Eget & _).
  vm_compute in E. injection E as <- <-.
  vm_compute in Eget. discriminate Eget.
Qed.

(** ** More on what computations keep *)

Lemma keeps_weaken {A} (R R' : World → World → Prop) (m : Js A) :
  (∀ w w', R w w' → R' w w') → keeps R m → keeps R' m.
Proof. intros Hsub Hm w r w' E. by eapply Hsub, Hm. Qed.

(** A statement relates the worlds around it as soon as every way it can
    end does: refused, with the database as it was, or run. *)
Lemma keeps_statement_gen {A} (R : World → World → Prop) a b
    (run : Database → Outcome A * Database) :
  (∀ w w', db w' = db w → initialized w' = initialized w → R w w') →
  (∀ w w' r, run (db w) = (r, db w') → initialized w' = initialized w →
     R w w') →
  keeps R (statement a b run).
Proof.
  intros Hrefused Hrun w [x|e] w' E.
  - apply statement_Return in E as (_ & E & Hi & _). by eapply Hrun.
  - apply statement_Throw in E as (Hi & _ & _ & [E|E]).
    + by apply Hrefused.
    + by eapply Hrun.
Qed.

#[global] Instance same_store_preorder : PreOrder same_store.
Proof.
  split.
  - by intros w.
  - intros w1 w2 w3 [E1 E2] [E3 E4]. split; congruence.
Qed.

#[global] Instance same_data_preorder : PreOrder same_data.
Proof.
  split.
  - by intros w.
  - intros w1 w2 w3 [E1 E2] [E3 E4]. split; [by etrans|congruence].
Qed.

#[global] Instance stable_preorder (P : World → Prop) : PreOrder (stable P).
Proof. split; unfold stable; [by intros w|intros w1 w2 w3; auto]. Qed.

#[global] Instance others_untouched_preorder sessionId :
  PreOrder (others_untouched sessionId).
Proof.
  split.
  - by intros w other _.
  - intros w1 w2 w3 H12 H23 other Hne.
    destruct (H12 other Hne) as [E1 E2], (H23 other Hne) as [E3 E4].
    split; congruence.
Qed.

#[global] Instance rowids_fresh_preorder : PreOrder rowids_fresh.
Proof.
  split.
  - intros w. split; [done|]. by left.
  - intros w1 w2 w3 [Hs12 H12] [Hs23 H23]. split; [lia|].
    intros ev Hev. destruct (H23 ev Hev) as [Hev2|Hlt]; [|right; lia].
    apply H12 in Hev2. done.
Qed.

Lemma same_store_same_data w w' : same_store w w' → same_data w w'.
Proof. intros [E _]. unfold same_data, same_rows. by rewrite E. Qed.

Lemma same_data_others_untouched sessionId w w' :
  same_data w w' → others_untouched sessionId w w'.
Proof. intros [[Hs He] _] other _. unfold log. by rewrite Hs, He. Qed.

Lemma same_data_rowids_fresh w w' : same_data w w' → rowids_fresh w w'.
Proof. intros [[_ He] Hseq]. split; [lia|]. rewrite He. by left. Qed.

(** *** The parts of a method that do not touch the store *)

Lemma keeps_store_Date_now : keeps same_store Date_now.
Proof. by intros w r w' [= <- <-]. Qed.

Lemma keeps_store_stringify `{JSON} v : keeps same_store (stringify v).
Proof. unfold stringify. destruct (JSON_stringify v); [apply keeps_ret | apply keeps_throw]. Qed.

Lemma keeps_store_parse `{JSON} text : keeps same_store (parse text).
Proof. unfold parse. destruct (JSON_parse text); [apply keeps_ret | apply keeps_throw]. Qed.

Lemma keeps_store_or_now t : keeps same_store (or_now t).
Proof.
  unfold or_now. destruct t as [t|]; [|apply keeps_store_Date_now].
  destruct (t =? 0)%Z; [apply keeps_store_Date_now | apply keeps_ret].
Qed.

Lemma keeps_store_tags_column `{JSON} tags : keeps same_store (tags_column tags).
Proof.
  unfold tags_column. destruct tags as [v|]; [|apply keeps_ret].
  destruct (truthy v); [|apply keeps_ret].
  apply keeps_bind; [apply keeps_store_stringify|]. intros text. apply keeps_ret.
Qed.

Lemma keeps_store_tags_property `{JSON} column :
  keeps same_store (tags_property column).
Proof.
  unfold tags_property. destruct (or_absent column); [|apply keeps_ret].
  apply keeps_bind; [apply keeps_store_parse|]. intros v. apply keeps_ret.
Qed.

Lemma keeps_store_setClauses `{JSON} metadata updatedAt :
  keeps same_store (setClauses metadata updatedAt).
Proof.
  unfold setClauses. apply keeps_bind; [|intros ?; apply keeps_ret].
  destruct (Partial.tags metadata); [|apply keeps_ret].
  apply keeps_bind; [apply keeps_store_tags_column|]. intros ?. apply keeps_ret.
Qed.

Lemma keeps_store_decode `{JSON} text : keeps same_store (decode text).
Proof.
  apply keeps_try_catch; [apply keeps_store_parse|]. intros _.
  apply keeps_bind; [apply keeps_store_Date_now|]. intros t. apply keeps_ret.
Qed.

Lemma keeps_store_listed `{JSON} row : keeps same_store (listed row).
Proof.
  apply keeps_bind; [apply keeps_store_tags_property|]. intros ?. apply keeps_ret.
Qed.

(** A query leaves the database as it was. *)
Lemma keeps_store_query {A} a b (f : Database → Outcome A) :
  keeps same_store (statement a b (λ d, (f d, d))).
Proof.
  apply keeps_statement_gen.
  - by intros w w' Hd Hi.
  - intros w w' r [= _ E] Hi. by split.
Qed.

Lemma keeps_store_SELECT_existsFlag id : keeps same_store (SELECT_existsFlag id).
Proof. apply keeps_store_query. Qed.

Lemma keeps_store_SELECT_eventData id : keeps same_store (SELECT_eventData id).
Proof. apply keeps_store_query. Qed.

Lemma keeps_store_SELECT_session id : keeps same_store (SELECT_session id).
Proof. apply keeps_store_query. Qed.

Lemma keeps_store_SELECT_sessions : keeps same_store SELECT_sessions.
Proof. apply keeps_store_query. Qed.

(** *** Initialisation keeps the data *)

Lemma same_data_of_db w w' : db w' = db w → same_data w w'.
Proof. intros E. unfold same_data, same_rows. by rewrite E. Qed.

Ltac same_data_statement :=
  apply keeps_statement_gen;
  [ by intros w w' Hd _; apply same_data_of_db
  | intros w w' r [= _ E] _; unfold same_data, same_rows;
    by rewrite <- E ].

Lemma keeps_data_db_open : keeps same_data db_open.
Proof.
  intros w r w'. unfold db_open. destruct (isOpen (db w)); [by intros [= <- <-]|].
  destruct (faults w) as [|[f|] fs]; by intros [= <- <-].
Qed.

Lemma keeps_data_initialize : keeps same_data initialize.
Proof.
  intros w r w'. unfold initialize.
  destruct (negb (initialized w)); [|by intros [= <- <-]].
  revert w r w'. apply keeps_try_catch; [|intros e; apply keeps_throw].
  repeat (apply keeps_bind; [|intros _]); try same_data_statement.
  - apply keeps_data_db_open.
  - by intros w r w' [= <- <-].
Qed.

Lemma keeps_data_ensureInitialized : keeps same_data ensureInitialized.
Proof.
  intros w r w'. unfold ensureInitialized.
  destruct (negb (initialized w)); [apply keeps_data_initialize | by intros [= <- <-]].
Qed.

Lemma ensureInitialized_initialized w :
  initialized w = true → ensureInitialized w = (Return tt, w).
Proof. intros Hi. unfold ensureInitialized. by rewrite Hi. Qed.

(** *** The bodies of the reading methods *)

Ltac keeps_compose leaf :=
  repeat first
    [ apply keeps_ret
    | apply keeps_throw
    | apply keeps_bind; [|intros ?]
    | apply keeps_try_catch; [|intros ?]
    | apply keeps_mapM; intros ?
    | match goal with
      | |- keeps _ (match ?x with _ => _ end) => destruct x
      end
    | leaf ].

Ltac store_leaf :=
  first
    [ apply keeps_store_Date_now | apply keeps_store_stringify
    | apply keeps_store_parse | apply keeps_store_or_now
    | apply keeps_store_tags_column | apply keeps_store_tags_property
    | apply keeps_store_setClauses | apply keeps_store_decode
    | apply keeps_store_listed | apply keeps_store_SELECT_existsFlag
    | apply keeps_store_SELECT_eventData | apply keeps_store_SELECT_session
    | apply keeps_store_SELECT_sessions ].

Lemma keeps_store_reads `{JSON} sessionId :
  keeps same_store
    (try_catch
       (let! row := SELECT_session sessionId in
        match row with
        | None => ret None
        | Some row =>
          let! tags := tags_property (SessionRow.tags row) in
          ret (Some (SessionMetadata.mk (SessionRow.id row)
                       (Some (SessionRow.createdAt row))
                       (Some (SessionRow.updatedAt row))
                       (or_absent (SessionRow.name row))
                       (SessionRow.workingDirectory row) tags))
        end)
       (λ error, throw ("Failed to get session: " +:+ error))) ∧
  keeps same_store
    (try_catch (let! rows := SELECT_sessions in mapM listed rows)
       (λ error, throw ("Failed to get all sessions: " +:+ error))) ∧
  keeps same_store
    (try_catch
       (let! sessionExists := SELECT_existsFlag sessionId in
        if missing sessionExists
        then throw ("Session not found: " +:+ sessionId)
        else let! rows := SELECT_eventData sessionId in mapM decode rows)
       (λ error, throw ("Failed to get session events: " +:+ error))).
Proof. split; [|split]; keeps_compose store_leaf. Qed.

(** X1. The three reading methods never write: whatever they return or
    throw, the rows of both tables are as before; and on a store that is
    initialised the database and the flag are exactly as before. *)
Theorem reads_never_write `{JSON} (w : World) (sessionId : string) :
  same_rows w (getSessionMetadata sessionId w).2 ∧
  same_rows w (getAllSessions w).2 ∧
  same_rows w (getSessionEvents sessionId w).2 ∧
  (initialized w = true →
   same_store w (getSessionMetadata sessionId w).2 ∧
   same_store w (getAllSessions w).2 ∧
   same_store w (getSessionEvents sessionId w).2).
Proof.
  destruct (keeps_store_reads sessionId) as (Hget & Hall & Hevents).
  assert (∀ {A} (body : Js A), keeps same_store body →
          keeps same_rows (ensureInitialized ;;; body)) as Hrows.
  { intros A body Hbody. apply keeps_bind; [apply keeps_ensureInitialized|].
    intros _. eapply keeps_weaken; [|exact Hbody].
    intros w1 w2 Hs. by apply same_store_same_data in Hs as [? _]. }
  split; [|split; [|split]].
  - eapply (Hrows _ _ Hget). apply surjective_pairing.
  - eapply (Hrows _ _ Hall). apply surjective_pairing.
  - eapply (Hrows _ _ Hevents). apply surjective_pairing.
  - intros Hi. unfold getSessionMetadata, getAllSessions, getSessionEvents.
    erewrite !bind_Return by by apply ensureInitialized_initialized.
    split; [|split].
    + eapply Hget. apply surjective_pairing.
    + eapply Hall. apply surjective_pairing.
    + eapply Hevents. apply surjective_pairing.
Qed.

Lemma keeps_data_getSessionMetadata `{JSON} sessionId :
  keeps same_data (getSessionMetadata sessionId).
Proof.
  apply keeps_bind; [apply keeps_data_ensureInitialized|]. intros _.
  eapply keeps_weaken; [apply same_store_same_data|].
  apply (keeps_store_reads sessionId).
Qed.

(** Leaves that keep the data keep every relation the data decides. *)
Ltac data_leaf sub :=
  first
    [ eapply keeps_weaken;
      [intros ? ? ?; by apply sub | apply keeps_data_ensureInitialized]
    | eapply keeps_weaken;
      [intros ? ? ?; by apply sub | apply keeps_data_getSessionMetadata]
    | eapply keeps_weaken;
      [intros ? ? ?%same_store_same_data; by apply sub | store_leaf] ].

(** ** A method for one session leaves the others alone *)

Lemma others_untouched_of_db sessionId w w' :
  db w' = db w → others_untouched sessionId w w'.
Proof. intros E other _. unfold log. by rewrite E. Qed.

Lemma of_session_not_of_session other sessionId l :
  other ≠ sessionId →
  of_session other (not_of_session sessionId l) = of_session other l.
Proof.
  intros Hne. unfold of_session, not_of_session.
  induction l as [|r l IH]; [done|].
  rewrite !filter_cons. repeat case_decide; simplify_eq; try done.
  - rewrite filter_cons. by rewrite decide_True, IH by done.
  - rewrite filter_cons. by rewrite decide_False, IH by done.
Qed.

Lemma keeps_others_INSERT_INTO_events sessionId timestamp eventData :
  keeps (others_untouched sessionId)
    (INSERT_INTO_events sessionId timestamp eventData).
Proof.
  apply keeps_statement_gen.
  - intros w w' E _. by apply others_untouched_of_db.
  - intros w w' r E _ other Hne. unfold log.
    destruct (foreign_keys (db w) && _); injection E as _ <-; [done|].
    rewrite session_rows_set_events, event_rows_set_events.
    split; [done|]. unfold of_session. rewrite filter_app.
    rewrite filter_cons_False, filter_nil, app_nil_r by (simpl; congruence).
    done.
Qed.

Lemma keeps_others_UPDATE_sessions clauses sessionId :
  keeps (others_untouched sessionId) (UPDATE_sessions clauses sessionId).
Proof.
  apply keeps_statement_gen.
  - intros w w' E _. by apply others_untouched_of_db.
  - intros w w' r E _ other Hne. unfold log.
    destruct (session_rows (db w) !! sessionId); injection E as _ <-; [|done].
    rewrite session_rows_set_sessions, event_rows_set_sessions.
    by rewrite lookup_insert_ne.
Qed.

Lemma keeps_others_INSERT_INTO_sessions row :
  keeps (others_untouched (SessionRow.id row)) (INSERT_INTO_sessions row).
Proof.
  apply keeps_statement_gen.
  - intros w w' E _. by apply others_untouched_of_db.
  - intros w w' r E _ other Hne. unfold log.
    destruct (session_rows (db w) !! SessionRow.id row); injection E as _ <-;
      [done|].
    rewrite session_rows_set_sessions, event_rows_set_sessions.
    by rewrite lookup_insert_ne.
Qed.

Lemma keeps_others_DELETE_FROM_events sessionId :
  keeps (others_untouched sessionId) (DELETE_FROM_events sessionId).
Proof.
  apply keeps_statement_gen.
  - intros w w' E _. by apply others_untouched_of_db.
  - intros w w' r [= _ E] _ other Hne. unfold log. rewrite <- E.
    rewrite session_rows_set_events, event_rows_set_events.
    by rewrite of_session_not_of_session.
Qed.

Lemma keeps_others_DELETE_FROM_sessions sessionId :
  keeps (others_untouched sessionId) (DELETE_FROM_sessions sessionId).
Proof.
  apply keeps_statement_gen.
  - intros w w' E _. by apply others_untouched_of_db.
  - intros w w' r E _ other Hne. unfold log.
    destruct (session_rows (db w) !! sessionId); injection E as _ <-; [|done].
    destruct (foreign_keys (db w)), (events (db w)) as [l|] eqn:El.
    + rewrite session_rows_set_events, event_rows_set_events.
      rewrite session_rows_set_sessions, lookup_delete_ne by done.
      unfold event_rows. rewrite El. simpl.
      by rewrite of_session_not_of_session.
    + by rewrite session_rows_set_sessions, event_rows_set_sessions,
        lookup_delete_ne.
    + by rewrite session_rows_set_sessions, event_rows_set_sessions,
        lookup_delete_ne.
    + by rewrite session_rows_set_sessions, event_rows_set_sessions,
        lookup_delete_ne.
Qed.

Ltac others_leaf :=
  first
    [ apply keeps_others_INSERT_INTO_events
    | apply keeps_others_UPDATE_sessions
    | apply keeps_others_DELETE_FROM_events
    | apply keeps_others_DELETE_FROM_sessions
    | apply keeps_others_INSERT_INTO_sessions
    | data_leaf same_data_others_untouched ].

(** X2. Whatever they return or throw, and whatever the engine does,
    [saveEvent], [updateSessionMetadata] and [deleteSession] for one session
    and [createSession] of one id leave the row and the log of every other
    session as they were. *)
Theorem methods_leave_other_sessions `{JSON} (w : World) (sessionId : string)
    (event : JSValue) (partial : Partial.t) (metadata : SessionMetadata.t) :
  others_untouched sessionId w (saveEvent sessionId event w).2 ∧
  others_untouched sessionId w (updateSessionMetadata sessionId partial w).2 ∧
  others_untouched sessionId w (deleteSession sessionId w).2 ∧
  others_untouched (SessionMetadata.id metadata) w (createSession metadata w).2.
Proof.
  split; [|split; [|split]].
  - assert (keeps (others_untouched sessionId) (saveEvent sessionId event)) as Hk
      by (unfold saveEvent; keeps_compose others_leaf).
    eapply Hk, surjective_pairing.
  - assert (keeps (others_untouched sessionId)
              (updateSessionMetadata sessionId partial)) as Hk
      by (unfold updateSessionMetadata; keeps_compose others_leaf).
    eapply Hk, surjective_pairing.
  - assert (keeps (others_untouched sessionId) (deleteSession sessionId)) as Hk
      by (unfold deleteSession; keeps_compose others_leaf).
    eapply Hk, surjective_pairing.
  - assert (keeps (others_untouched (SessionMetadata.id metadata))
              (createSession metadata)) as Hk
      by (unfold createSession; keeps_compose others_leaf).
    eapply Hk, surjective_pairing.
Qed.

(** ** Rowids are never given out twice *)

Lemma rowids_fresh_of_db w w' : db w' = db w → rowids_fresh w w'.
Proof. intros E. unfold rowids_fresh. rewrite E. split; [done|]. by left. Qed.

Lemma rowids_fresh_subset w w' :
  sqlite_sequence (db w') = sqlite_sequence (db w) →
  (∀ ev, ev ∈ event_rows (db w') → ev ∈ event_rows (db w)) →
  rowids_fresh w w'.
Proof. intros Hseq Hsub. split; [lia|]. intros ev Hev. left. by apply Hsub. Qed.

Lemma elem_of_not_of_session sessionId l ev :
  ev ∈ not_of_session sessionId l → ev ∈ l.
Proof. unfold not_of_session. rewrite list_elem_of_filter. tauto. Qed.

Lemma keeps_fresh_INSERT_INTO_events sessionId timestamp eventData :
  keeps rowids_fresh (INSERT_INTO_events sessionId timestamp eventData).
Proof.
  apply keeps_statement_gen.
  - intros w w' E _. by apply rowids_fresh_of_db.
  - intros w w' r E _.
    destruct (foreign_keys (db w) && _); injection E as _ E;
      [by apply rowids_fresh_of_db|].
    pose proof (foldr_max_le (sqlite_sequence (db w))
                  (EventRow.id <$> event_rows (db w))) as Hle.
    unfold rowids_fresh. rewrite <- E. simpl. unfold next_rowid.
    split; [lia|]. intros ev. rewrite event_rows_set_events.
    intros [Hev| ->%list_elem_of_singleton]%elem_of_app; [by left|].
    right. simpl. lia.
Qed.

Lemma keeps_fresh_UPDATE_sessions clauses sessionId :
  keeps rowids_fresh (UPDATE_sessions clauses sessionId).
Proof.
  apply keeps_statement_gen.
  - intros w w' E _. by apply rowids_fresh_of_db.
  - intros w w' r E _.
    destruct (session_rows (db w) !! sessionId); injection E as _ E;
      [|by apply rowids_fresh_of_db].
    apply rowids_fresh_subset; by rewrite <- E.
Qed.

Lemma keeps_fresh_INSERT_INTO_sessions row :
  keeps rowids_fresh (INSERT_INTO_sessions row).
Proof.
  apply keeps_statement_gen.
  - intros w w' E _. by apply rowids_fresh_of_db.
  - intros w w' r E _.
    destruct (session_rows (db w) !! SessionRow.id row); injection E as _ E;
      [by apply rowids_fresh_of_db|].
    apply rowids_fresh_subset; by rewrite <- E.
Qed.

Lemma keeps_fresh_DELETE_FROM_events sessionId :
  keeps rowids_fresh (DELETE_FROM_events sessionId).
Proof.
  apply keeps_statement_gen.
  - intros w w' E _. by apply rowids_fresh_of_db.
  - intros w w' r [= _ E] _.
    apply rowids_fresh_subset; rewrite <- E; [done|].
    intros ev. rewrite event_rows_set_events. apply elem_of_not_of_session.
Qed.

Lemma keeps_fresh_DELETE_FROM_sessions sessionId :
  keeps rowids_fresh (DELETE_FROM_sessions sessionId).
Proof.
  apply keeps_statement_gen.
  - intros w w' E _. by apply rowids_fresh_of_db.
  - intros w w' r E _.
    destruct (session_rows (db w) !! sessionId); injection E as _ E;
      [|by apply rowids_fresh_of_db].
    destruct (foreign_keys (db w)), (events (db w)) as [l|] eqn:El;
      apply rowids_fresh_subset; rewrite <- E; try done.
    intros ev. rewrite event_rows_set_events. unfold event_rows.
    rewrite El. apply elem_of_not_of_session.
Qed.

Ltac fresh_leaf :=
  first
    [ apply keeps_fresh_INSERT_INTO_events
    | apply keeps_fresh_UPDATE_sessions
    | apply keeps_fresh_DELETE_FROM_events
    | apply keeps_fresh_DELETE_FROM_sessions
    | apply keeps_fresh_INSERT_INTO_sessions
    | data_leaf same_data_rowids_fresh ].

Lemma after_rowids_fresh `{JSON} c w : rowids_fresh w (after c w).
Proof.
  destruct c; simpl.
  - eapply same_data_rowids_fresh, keeps_data_initialize, surjective_pairing.
  - assert (keeps rowids_fresh (createSession metadata)) as Hk
      by (unfold createSession; keeps_compose fresh_leaf).
    eapply Hk, surjective_pairing.
  - assert (keeps rowids_fresh (updateSessionMetadata sessionId metadata)) as Hk
      by (unfold updateSessionMetadata; keeps_compose fresh_leaf).
    eapply Hk, surjective_pairing.
  - eapply same_data_rowids_fresh, keeps_data_getSessionMetadata,
      surjective_pairing.
  - assert (keeps rowids_fresh getAllSessions) as Hk
      by (unfold getAllSessions; keeps_compose fresh_leaf).
    eapply Hk, surjective_pairing.
  - assert (keeps rowids_fresh (deleteSession sessionId)) as Hk
      by (unfold deleteSession; keeps_compose fresh_leaf).
    eapply Hk, surjective_pairing.
  - assert (keeps rowids_fresh (saveEvent sessionId event)) as Hk
      by (unfold saveEvent; keeps_compose fresh_leaf).
    eapply Hk, surjective_pairing.
  - assert (keeps rowids_fresh (getSessionEvents sessionId)) as Hk
      by (unfold getSessionEvents; keeps_compose fresh_leaf).
    eapply Hk, surjective_pairing.
  - apply rowids_fresh_subset; unfold close; destruct (isOpen (db w)); done.
Qed.

Lemma history_rowids_fresh `{JSON} calls w : rowids_fresh w (history calls w).
Proof.
  revert w. induction calls as [|c calls IH]; intros w; [done|].
  simpl. etrans; [apply (after_rowids_fresh c)|apply IH].
Qed.

(** X3. Event ids are never reused.  Over any sequence of calls, with any
    behaviour of the engine, an event row that is in the table afterwards
    and was not there before has an id greater than that of every row that
    was there before, deleted since or not; and the largest id given out
    never goes back. *)
Theorem event_ids_never_reused `{JSON} (calls : list Call) (w : World)
    (ev ev' : EventRow.t) :
  rowids_bounded (db w) →
  ev ∈ event_rows (db w) →
  ev' ∈ event_rows (db (history calls w)) →
  (sqlite_sequence (db w) ≤ sqlite_sequence (db (history calls w)))%Z ∧
  (ev' ∈ event_rows (db w) ∨ (EventRow.id ev < EventRow.id ev')%Z).
Proof.
  intros Hb Hev Hev'. destruct (history_rowids_fresh calls w) as [Hseq Hnew].
  split; [done|]. destruct (Hnew ev' Hev') as [?|Hlt]; [by left|right].
  unfold rowids_bounded in Hb. rewrite Forall_forall in Hb.
  specialize (Hb ev Hev). lia.
Qed.

(** ** The invariants of the tables *)

#[global] Instance enforcing_preorder : PreOrder enforcing.
Proof.
  split.
  - intros w. split; auto.
  - intros w1 w2 w3 [Hm12 H12] [Hm23 H23]. split; [auto|].
    destruct H23 as [E23|?]; [|by right].
    destruct H12 as [E12|?]; [left; congruence|right; auto].
Qed.

Lemma enforcing_of_db w w' :
  foreign_keys (db w') = foreign_keys (db w) →
  initialized w' = initialized w → enforcing w w'.
Proof. intros Hfk Hi. split; [by rewrite Hfk|by left]. Qed.

Lemma keeps_enforcing_initialize : keeps enforcing initialize.
Proof.
  intros w r w'. unfold initialize.
  destruct (negb (initialized w)); [|by intros [= <- <-]].
  revert w r w'. apply keeps_try_catch; [|intros e; apply keeps_throw].
  assert (∀ (run : Database → Outcome unit * Database),
            (∀ d r d', run d = (r, d') → foreign_keys d' = foreign_keys d) →
            keeps enforcing (statement false false run)) as Hexec.
  { intros run Hrun. apply keeps_statement_gen.
    - intros w w' E Hi. apply enforcing_of_db; [by rewrite E|done].
    - intros w w' r E Hi. apply enforcing_of_db; [by eapply Hrun|done]. }
  apply keeps_bind; [|intros _].
  { intros w r w'. unfold db_open. destruct (isOpen (db w)); [by intros [= <- <-]|].
    destruct (faults w) as [|[f|] fs]; intros [= <- <-]; by apply enforcing_of_db. }
  apply keeps_bind; [apply Hexec; by intros d r d' [= _ <-]|intros _].
  apply keeps_bind; [apply Hexec; by intros d r d' [= _ <-]|intros _].
  apply keeps_bind; [apply Hexec; by intros d r d' [= _ <-]|intros _].
  apply keeps_bind; [|intros _].
  { apply keeps_statement_gen.
    - intros w w' E Hi. apply enforcing_of_db; [by rewrite E|done].
    - intros w w' r [= _ E] Hi. apply enforcing_of_db; [by rewrite <- E|done]. }
  intros w r w' E. unfold bind in E.
  destruct (PRAGMA_foreign_keys_ON w) as [[[]|e] w1] eqn:E1.
  - injection E as _ <-.
    apply statement_Return in E1 as (_ & [= E1] & _).
    split; [intros _|right]; simpl; by rewrite <- E1.
  - injection E as _ <-.
    apply statement_Throw in E1 as (Hi & _ & _ & [E1|[=]]).
    apply enforcing_of_db; [by rewrite E1|done].
Qed.

Lemma consistent_transfer w w' :
  same_data w w' →
  (initialized w' = true → foreign_keys (db w') = true) →
  consistent w → consistent w'.
Proof.
  intros [[Hs He] Hseq] Hfk (_ & Hr & Ho & Hb & Hk).
  unfold consistent, referential, rowids_bounded, keyed in *.
  by rewrite Hs, He, Hseq.
Qed.

Lemma initialize_consistent w r w' :
  initialize w = (r, w') → consistent w → consistent w'.
Proof.
  intros E Hc. apply (consistent_transfer w); [by eapply keeps_data_initialize| |done].
  destruct (keeps_enforcing_initialize _ _ _ E) as [Hm [Hi|Hfk]]; [|done].
  rewrite Hi. intros Hi'. apply Hm. by apply Hc.
Qed.

Lemma ensureInitialized_consistent w r w' :
  ensureInitialized w = (r, w') → consistent w →
  consistent w' ∧ (r = Return tt → consistent_initialized w').
Proof.
  unfold ensureInitialized. intros E Hc.
  assert (consistent w') as Hc'.
  { destruct (negb (initialized w)); [by eapply initialize_consistent|].
    by injection E as _ <-. }
  split; [done|]. intros ->. split; [|done].
  by eapply ensureInitialized_Return.
Qed.

Lemma stable_initialized_of_store w w' :
  same_store w w' → stable consistent_initialized w w'.
Proof.
  intros [Hd Hi] [Hi' Hc]. unfold consistent_initialized, consistent.
  by rewrite Hd, Hi.
Qed.

Lemma SessionRow_id_foldl_assign row clauses :
  SessionRow.id (foldl assign row clauses) = SessionRow.id row.
Proof.
  revert row. induction clauses as [|c clauses IH]; intros row; [done|].
  simpl. rewrite IH. by destruct c.
Qed.

Lemma consistent_initialized_intro w :
  initialized w = true → foreign_keys (db w) = true →
  referential (db w) → rowid_ordered (event_rows (db w)) →
  rowids_bounded (db w) → keyed (db w) → consistent_initialized w.
Proof. by repeat split. Qed.

Lemma keeps_consistent_INSERT_INTO_events sessionId timestamp eventData :
  keeps (stable consistent_initialized)
    (INSERT_INTO_events sessionId timestamp eventData).
Proof.
  apply keeps_statement_gen.
  - intros w w' E Hi. by apply stable_initialized_of_store.
  - intros w w' r E Hi HP. pose proof HP as (Hi' & Hfk & Hr & Ho & Hb & Hk).
    specialize (Hfk Hi'). rewrite Hfk in E. simpl in E.
    destruct (session_rows (db w) !! sessionId) as [row|] eqn:Hrow.
    2:{ rewrite bool_decide_eq_false_2 in E by by intros [? [=]].
        injection E as _ E. apply (stable_initialized_of_store w); [by split|done]. }
    rewrite bool_decide_eq_true_2 in E by done. injection E as _ E.
    apply consistent_initialized_intro; [congruence|..]; rewrite <- E.
    + done.
    + intros ev. rewrite event_rows_set_events, session_rows_set_events.
      intros [Hev| ->%list_elem_of_singleton]%elem_of_app; [by apply Hr|].
      simpl. by rewrite Hrow.
    + rewrite event_rows_set_events.
      apply StronglySorted_app_2; [|done|repeat constructor].
      intros x y Hx ->%list_elem_of_singleton. simpl. by apply rowid_lt_next.
    + unfold rowids_bounded. rewrite event_rows_set_events. simpl.
      apply Forall_app. split; [|by repeat constructor].
      apply Forall_forall. intros ev Hev%rowid_lt_next. lia.
    + done.
Qed.

Lemma keeps_consistent_UPDATE_sessions clauses sessionId :
  keeps (stable consistent_initialized) (UPDATE_sessions clauses sessionId).
Proof.
  apply keeps_statement_gen.
  - intros w w' E Hi. by apply stable_initialized_of_store.
  - intros w w' r E Hi HP. pose proof HP as (Hi' & Hfk & Hr & Ho & Hb & Hk).
    destruct (session_rows (db w) !! sessionId) as [row|] eqn:Hrow;
      injection E as _ E.
    2:{ apply (stable_initialized_of_store w); [by split|done]. }
    apply consistent_initialized_intro; [congruence|..]; rewrite <- E;
      try done; simpl; auto.
    + intros ev Hev. rewrite session_rows_set_sessions.
      rewrite event_rows_set_sessions in Hev. apply Hr in Hev.
      destruct (decide (sessionId = EventRow.sessionId ev)) as [<-|Hne].
      * by rewrite lookup_insert_eq.
      * by rewrite lookup_insert_ne.
    + intros k row'. rewrite session_rows_set_sessions.
      destruct (decide (sessionId = k)) as [<-|Hne].
      * rewrite lookup_insert_eq. intros [= <-].
        rewrite SessionRow_id_foldl_assign. by apply Hk.
      * rewrite lookup_insert_ne by done. apply Hk.
Qed.

Lemma keeps_consistent_INSERT_INTO_sessions row :
  keeps (stable consistent_initialized) (INSERT_INTO_sessions row).
Proof.
  apply keeps_statement_gen.
  - intros w w' E Hi. by apply stable_initialized_of_store.
  - intros w w' r E Hi HP. pose proof HP as (Hi' & Hfk & Hr & Ho & Hb & Hk).
    destruct (session_rows (db w) !! SessionRow.id row) as [row0|] eqn:Hrow;
      injection E as _ E.
    { apply (stable_initialized_of_store w); [by split|done]. }
    apply consistent_initialized_intro; [congruence|..]; rewrite <- E;
      try done; simpl; auto.
    + intros ev Hev. rewrite session_rows_set_sessions.
      rewrite event_rows_set_sessions in Hev. apply Hr in Hev.
      destruct (decide (SessionRow.id row = EventRow.sessionId ev)) as [<-|Hne].
      * by rewrite lookup_insert_eq.
      * by rewrite lookup_insert_ne.
    + intros k row'. rewrite session_rows_set_sessions.
      destruct (decide (SessionRow.id row = k)) as [<-|Hne].
      * rewrite lookup_insert_eq. by intros [= <-].
      * rewrite lookup_insert_ne by done. apply Hk.
Qed.

Lemma rowids_bounded_filter (P : EventRow.t → Prop) `{!∀ r, Decision (P r)}
    (l : list EventRow.t) (seq : Z) :
  Forall (λ ev, (EventRow.id ev ≤ seq)%Z) l →
  Forall (λ ev, (EventRow.id ev ≤ seq)%Z) (filter P l).
Proof.
  rewrite !Forall_forall. intros Hl ev [_ Hev]%list_elem_of_filter. by apply Hl.
Qed.

Lemma keeps_consistent_DELETE_FROM_events sessionId :
  keeps (stable consistent_initialized) (DELETE_FROM_events sessionId).
Proof.
  apply keeps_statement_gen.
  - intros w w' E Hi. by apply stable_initialized_of_store.
  - intros w w' r [= _ E] Hi HP. pose proof HP as (Hi' & Hfk & Hr & Ho & Hb & Hk).
    apply consistent_initialized_intro; [congruence|..]; rewrite <- E;
      try done; simpl; auto.
    + intros ev. rewrite event_rows_set_events, session_rows_set_events.
      intros Hev%elem_of_not_of_session. by apply Hr.
    + rewrite event_rows_set_events. by apply rowid_ordered_filter.
    + unfold rowids_bounded. rewrite event_rows_set_events. simpl.
      by apply rowids_bounded_filter.
Qed.

Lemma keeps_consistent_DELETE_FROM_sessions sessionId :
  keeps (stable consistent_initialized) (DELETE_FROM_sessions sessionId).
Proof.
  apply keeps_statement_gen.
  - intros w w' E Hi. by apply stable_initialized_of_store.
  - intros w w' r E Hi HP. pose proof HP as (Hi' & Hfk & Hr & Ho & Hb & Hk).
    destruct (session_rows (db w) !! sessionId) as [row|] eqn:Hrow;
      injection E as _ E.
    2:{ apply (stable_initialized_of_store w); [by split|done]. }
    specialize (Hfk Hi'). rewrite Hfk in E.
    assert (keyed (set_sessions (db w) (delete sessionId (session_rows (db w)))))
      as Hk'.
    { intros k row'. rewrite session_rows_set_sessions.
      intros [_ Hrow']%lookup_delete_Some. by apply Hk. }
    destruct (events (db w)) as [l|] eqn:El.
    + assert (event_rows (db w) = l) as Hl by (unfold event_rows; by rewrite El).
      apply consistent_initialized_intro; [congruence|..]; rewrite <- E;
        try done; simpl.
      * intros ev. rewrite event_rows_set_events, session_rows_set_events,
          session_rows_set_sessions.
        intros Hev. pose proof (not_of_session_spec _ _ _ Hev) as Hne.
        apply elem_of_not_of_session in Hev.
        rewrite lookup_delete_ne by done. apply Hr. by rewrite Hl.
      * rewrite event_rows_set_events. apply rowid_ordered_filter.
        by rewrite <- Hl.
      * unfold rowids_bounded. rewrite event_rows_set_events. simpl.
        apply rowids_bounded_filter. by rewrite <- Hl.
    + assert (event_rows (db w) = []) as Hl by (unfold event_rows; by rewrite El).
      apply consistent_initialized_intro; [congruence|..]; rewrite <- E;
        try done.
      intros ev. rewrite event_rows_set_sessions, Hl. by intros ?%elem_of_nil.
Qed.

Lemma keeps_consistent_getSessionMetadata `{JSON} sessionId :
  keeps (stable consistent_initialized) (getSessionMetadata sessionId).
Proof.
  intros w r w' E HP. pose proof HP as [Hi _]. unfold getSessionMetadata in E.
  erewrite bind_Return in E by by apply ensureInitialized_initialized.
  apply (keeps_store_reads sessionId) in E.
  by apply (stable_initialized_of_store w).
Qed.

Lemma keeps_consistent_ensureInitialized :
  keeps (stable consistent_initialized) ensureInitialized.
Proof.
  intros w r w' E HP. pose proof HP as [Hi _].
  rewrite ensureInitialized_initialized in E by done. by injection E as _ <-.
Qed.

Ltac consistent_leaf :=
  first
    [ apply keeps_consistent_ensureInitialized
    | apply keeps_consistent_INSERT_INTO_events
    | apply keeps_consistent_UPDATE_sessions
    | apply keeps_consistent_DELETE_FROM_events
    | apply keeps_consistent_DELETE_FROM_sessions
    | apply keeps_consistent_INSERT_INTO_sessions
    | apply keeps_consistent_getSessionMetadata
    | eapply keeps_weaken; [apply stable_initialized_of_store | store_leaf] ].

(** A method keeps the invariants as soon as what it does after
    [ensureInitialized] keeps them on an initialised store. *)
Lemma method_consistent {A} (body : Js A) w :
  keeps (stable consistent_initialized) body →
  consistent w → consistent (bind ensureInitialized (λ _, body) w).2.
Proof.
  intros Hbody Hc. unfold bind.
  destruct (ensureInitialized w) as [[[]|e] w1] eqn:E1.
  - destruct (ensureInitialized_consistent _ _ _ E1 Hc) as [_ Hci].
    destruct (body w1) as [r w'] eqn:E. simpl.
    exact (proj2 (Hbody _ _ _ E (Hci eq_refl))).
  - exact (proj1 (ensureInitialized_consistent _ _ _ E1 Hc)).
Qed.

Lemma after_consistent `{JSON} c w : consistent w → consistent (after c w).
Proof.
  intros Hc. destruct c; simpl.
  - eapply initialize_consistent; [apply surjective_pairing|done].
  - apply method_consistent; [|done]. keeps_compose consistent_leaf.
  - apply method_consistent; [|done]. keeps_compose consistent_leaf.
  - apply method_consistent; [|done]. keeps_compose consistent_leaf.
  - apply method_consistent; [|done]. keeps_compose consistent_leaf.
  - apply method_consistent; [|done]. keeps_compose consistent_leaf.
  - apply method_consistent; [|done]. keeps_compose consistent_leaf.
  - apply method_consistent; [|done]. keeps_compose consistent_leaf.
  - unfold close. destruct (isOpen (db w)); [|done]. simpl.
    destruct Hc as (Hfk & Hr & Ho & Hb & Hk). by repeat split.
Qed.

Lemma history_consistent `{JSON} calls w :
  consistent w → consistent (history calls w).
Proof.
  revert w. induction calls as [|c calls IH]; intros w Hc; [done|].
  simpl. by apply IH, after_consistent.
Qed.

(** X4. No event is ever left without its session: on a store whose tables
    are consistent to begin with (an empty file is), after any sequence of
    calls, whatever each returned or threw and whatever the engine refused,
    every row of the events table carries the id of a row of the sessions
    table. *)
Theorem no_orphan_events `{JSON} (calls : list Call) (w : World)
    (ev : EventRow.t) :
  consistent w →
  ev ∈ event_rows (db (history calls w)) →
  is_Some (session_rows (db (history calls w)) !! EventRow.sessionId ev).
Proof.
  intros Hc Hev. apply (history_consistent calls) in Hc as (_ & Hr & _).
  by apply Hr.
Qed.

(** X5. Event ids are unique and grow along the table: on a store whose
    tables are consistent to begin with, after any sequence of calls the rows
    of the events table are in strictly increasing order of id, so that two
    rows with the same id are the same row. *)
Theorem event_ids_unique `{JSON} (calls : list Call) (w : World) :
  consistent w →
  rowid_ordered (event_rows (db (history calls w))) ∧
  ∀ ev1 ev2,
    ev1 ∈ event_rows (db (history calls w)) →
    ev2 ∈ event_rows (db (history calls w)) →
    EventRow.id ev1 = EventRow.id ev2 → ev1 = ev2.
Proof.
  intros Hc. apply (history_consistent calls) in Hc as (_ & _ & Ho & _).
  split; [done|]. intros ev1 ev2. by apply rowid_ordered_inj.
Qed.

Lemma getSessionMetadata_Return `{JSON} sessionId w record w' :
  getSessionMetadata sessionId w = (Return (Some record), w') →
  ∃ row, session_rows (db w) !! sessionId = Some row ∧
    SessionMetadata.id record = SessionRow.id row ∧
    SessionMetadata.createdAt record = Some (SessionRow.createdAt row) ∧
    SessionMetadata.updatedAt record = Some (SessionRow.updatedAt row) ∧
    SessionMetadata.name record = or_absent (SessionRow.name row) ∧
    SessionMetadata.workingDirectory record = SessionRow.workingDirectory row.
Proof.
  unfold getSessionMetadata. intros E.
  apply bind_Return_inv in E as ([] & w1 & E1 & E).
  apply keeps_ensureInitialized in E1 as [Hs1 _].
  apply try_catch_rethrow_Return in E.
  apply bind_Return_inv in E as (found & w2 & E2 & E).
  apply statement_Return in E2 as (_ & E2 & _).
  rewrite Hs1 in E2.
  destruct (session_rows (db w) !! sessionId) as [row|]; [|by injection E2 as <-].
  destruct (row_readable row); [|done]. injection E2 as <- _.
  apply bind_Return_inv in E as (tags & w3 & _ & [= <- _]).
  by exists row.
Qed.

(** X6. The record [getSessionMetadata] returns carries the id that was
    asked for: on a store whose tables are consistent to begin with, after
    any sequence of calls. *)
Theorem getSessionMetadata_id `{JSON} (calls : list Call) (w : World)
    (sessionId : string) (record : SessionMetadata.t) (w' : World) :
  consistent w →
  getSessionMetadata sessionId (history calls w) = (Return (Some record), w') →
  SessionMetadata.id record = sessionId.
Proof.
  intros Hc E. apply (history_consistent calls) in Hc as (_ & _ & _ & _ & Hk).
  apply getSessionMetadata_Return in E as (row & Hrow & -> & _).
  by apply Hk.
Qed.

(** ** Deleting twice *)

Lemma database_eq d d' :
  isOpen d' = isOpen d → journal_mode_wal d' = journal_mode_wal d →
  foreign_keys d' = foreign_keys d →
  idx_events_sessionId d' = idx_events_sessionId d →
  sqlite_sequence d' = sqlite_sequence d →
  is_Some (sessions d) → is_Some (events d) →
  is_Some (sessions d') → is_Some (events d') →
  session_rows d' = session_rows d → event_rows d' = event_rows d →
  d' = d.
Proof.
  destruct d as [o wal fk s e idx seq], d' as [o' wal' fk' s' e' idx' seq'].
  unfold session_rows, event_rows. simpl.
  intros -> -> -> -> -> [sv ->] [ev ->] [sv' ->] [ev' ->]. simpl.
  by intros -> ->.
Qed.

(** X7. Deleting is idempotent.  On a store in working order [deleteSession]
    returns [true] exactly when the session was there; a second
    [deleteSession] of the same id returns [false] and leaves the database
    as the first one left it; and deleting an id that is not there leaves
    the sessions table as it was. *)
Theorem deleteSession_twice `{JSON} (w : World) (sessionId : string) :
  ready w → undisturbed w →
  ∃ b w1 w2,
    deleteSession sessionId w = (Return b, w1) ∧
    b = bool_decide (is_Some (session_rows (db w) !! sessionId)) ∧
    deleteSession sessionId w1 = (Return false, w2) ∧
    db w2 = db w1 ∧
    (session_rows (db w) !! sessionId = None →
     session_rows (db w1) = session_rows (db w)).
Proof.
  intros Hr Hu.
  destruct (deleteSession_returns sessionId w Hr Hu)
    as (b & w1 & E1 & Hu1 & Ho1 & Hfk1 & Hwal1 & Hidx1 & Hseq1 & Hss1 & Hes1).
  pose proof (deleteSession_Return _ _ _ _ E1) as (Hr1 & Hs1 & He1 & Hb).
  destruct (deleteSession_returns sessionId w1 Hr1 Hu1)
    as (b2 & w2 & E2 & Hu2 & Ho2 & Hfk2 & Hwal2 & Hidx2 & Hseq2 & Hss2 & Hes2).
  pose proof (deleteSession_Return _ _ _ _ E2) as (Hr2 & Hs2 & He2 & Hb2).
  exists b, w1, w2. split; [done|]. split; [done|].
  assert (session_rows (db w1) !! sessionId = None) as Hgone
    by (rewrite Hs1; apply lookup_delete_eq).
  split.
  { rewrite E2. f_equal. f_equal. rewrite Hb2.
    apply bool_decide_eq_false_2. rewrite Hgone. by intros [? [=]]. }
  split.
  - apply database_eq; try done; try congruence.
    + rewrite Hs2. by apply delete_id.
    + rewrite He2, He1. apply not_of_session_idemp.
  - intros Hnone. rewrite Hs1. by apply delete_id.
Qed.

(** ** A session that is not there *)

(** X8. For an id that is not in the sessions table, on a store in working
    order, [getSessionMetadata] returns [null] and is no error, while
    [updateSessionMetadata] throws [Session not found: <id>], not wrapped
    as its other errors are; neither changes anything, the clock is not
    even read. *)
Theorem missing_session_probe_and_update `{JSON} (w : World)
    (sessionId : string) (metadata : Partial.t) :
  ready w → undisturbed w →
  session_rows (db w) !! sessionId = None →
  getSessionMetadata sessionId w = (Return None, w) ∧
  updateSessionMetadata sessionId metadata w =
    (Throw ("Session not found: " +:+ sessionId), w).
Proof.
  intros Hr Hu Hnone.
  assert (getSessionMetadata sessionId w = (Return None, w)) as Eget.
  { rewrite getSessionMetadata_runs; [by rewrite Hnone|done..| |];
      intros row; by rewrite Hnone. }
  split; [done|]. unfold updateSessionMetadata.
  erewrite bind_Return by by apply ensureInitialized_ready.
  by erewrite bind_Return by done.
Qed.

(** ** What is stored and what is returned *)

(** X9. A session comes back as it was created: on a store in working
    order, for a fresh id, a name that is not the empty string and tags
    that survive their encoding, [getSessionMetadata] returns the very
    record that [createSession] returned, provided the timestamps of the
    row can be read as numbers; when they cannot, it throws. *)
Theorem createSession_then_getSessionMetadata `{JSON} (w : World)
    (metadata : SessionMetadata.t) :
  ready w → undisturbed w →
  session_rows (db w) !! SessionMetadata.id metadata = None →
  SessionMetadata.name metadata ≠ Some EmptyString →
  tags_of_column (column_of_tags (SessionMetadata.tags metadata)) =
    SessionMetadata.tags metadata →
  ∃ record w' row,
    createSession metadata w = (Return record, w') ∧
    session_rows (db w') !! SessionMetadata.id metadata = Some row ∧
    SessionMetadata.createdAt record = Some (SessionRow.createdAt row) ∧
    SessionMetadata.updatedAt record = Some (SessionRow.updatedAt row) ∧
    (row_readable row = true →
     getSessionMetadata (SessionMetadata.id metadata) w' =
       (Return (Some record), w')) ∧
    (row_readable row = false →
     getSessionMetadata (SessionMetadata.id metadata) w' =
       (Throw ("Failed to get session: " +:+ RangeError_message), w')).
Proof.
  intros Hr Hu Hfresh Hname Htags.
  assert (tags_storable (SessionMetadata.tags metadata)) as Hstore.
  { intros v Hv Htruthy. rewrite Hv in Htags.
    unfold column_of_tags, tags_of_column in Htags. rewrite Htruthy in Htags.
    destruct (JSON_stringify v); [by eexists|done]. }
  assert (tags_readable (column_of_tags (SessionMetadata.tags metadata)))
    as Hread.
  { intros text Htext. unfold tags_of_column in Htags. rewrite Htext in Htags.
    destruct (SessionMetadata.tags metadata) as [v|] eqn:Hv; [by eexists|].
    done. }
  pose proof (createSession_runs metadata w Hr Hu Hstore) as E. simpl in E.
  rewrite Hfresh in E. eexists _, _, _. split; [exact E|].
  split; [by cbn [db with_db]; rewrite session_rows_set_sessions, lookup_insert_eq|].
  split; [done|]. split; [done|]. split.
  - intros Hrange. rewrite getSessionMetadata_runs; [|store..| |].
    + cbn [db with_db]. rewrite session_rows_set_sessions, lookup_insert_eq.
      simpl. unfold metadata_of_row. simpl. rewrite Htags.
      do 4 f_equal. destruct (SessionMetadata.name metadata) as [[|]|]; done.
    + intros row. cbn [db with_db].
      rewrite session_rows_set_sessions, lookup_insert_eq. by intros [= <-].
    + intros row. cbn [db with_db].
      rewrite session_rows_set_sessions, lookup_insert_eq. by intros [= <-].
  - intros Hrange. eapply getSessionMetadata_unreadable; [store..| |exact Hrange].
    cbn [db with_db]. by rewrite session_rows_set_sessions, lookup_insert_eq.
Qed.

(** X10. [updateSessionMetadata] never writes [createdAt], and always sets
    [updatedAt] itself.  On a session whose row can be read, at a reading of
    the clock that can be read back as a number: when the partial update
    supplies a [createdAt], the record returned carries it, but the row
    keeps its own, which is what [getSessionMetadata] then returns; and
    whatever [updatedAt] the update supplies, the one returned and the one
    stored are the reading of the clock. *)
Theorem updateSessionMetadata_createdAt_not_written `{JSON} (w : World)
    (sessionId : string) (metadata : Partial.t) (row : SessionRow.t) (t : Z) :
  ready w → undisturbed w →
  session_rows (db w) !! sessionId = Some row →
  row_readable row = true →
  column_readable (time w (ticks w)) = true →
  tags_readable (SessionRow.tags row) →
  tags_storable (Partial.tags metadata) →
  (∀ v, Partial.tags metadata = Some v →
     tags_readable (column_of_tags (Some v))) →
  Partial.createdAt metadata = Some t →
  ∃ record w' record',
    updateSessionMetadata sessionId metadata w = (Return record, w') ∧
    SessionMetadata.createdAt record = Some t ∧
    SessionMetadata.updatedAt record = Some (time w (ticks w)) ∧
    getSessionMetadata sessionId w' = (Return (Some record'), w') ∧
    SessionMetadata.createdAt record' = Some (SessionRow.createdAt row) ∧
    SessionMetadata.updatedAt record' = Some (time w (ticks w)).
Proof.
  intros Hr Hu Hrow Hrange Hnow Hread Hstore Hread' Ht.
  eexists _, _, _. split; [by apply updateSessionMetadata_runs|].
  split; [by unfold merged; cbn [SessionMetadata.createdAt]; rewrite Ht|].
  split; [done|].
  rewrite getSessionMetadata_runs; [|store..| |].
  - cbn [db with_db]. rewrite session_rows_set_sessions, lookup_insert_eq.
    by simpl.
  - intros row'. cbn [db with_db].
    rewrite session_rows_set_sessions, lookup_insert_eq.
    intros [= <-]. unfold row_readable, updated_row in *.
    cbn [SessionRow.createdAt SessionRow.updatedAt].
    apply andb_true_iff in Hrange as [-> _]. by rewrite Hnow.
  - intros row'. cbn [db with_db].
    rewrite session_rows_set_sessions, lookup_insert_eq.
    intros [= <-]. unfold updated_row. cbn [SessionRow.tags].
    destruct (Partial.tags metadata); auto.
Qed.

(** X11. A timestamp of zero is not kept: [createSession] with
    [createdAt = 0] (or [updatedAt = 0]) returns, and stores, the reading of
    the clock instead, as if the field had been omitted. *)
Theorem createSession_zero_timestamp `{JSON} (w : World)
    (metadata : SessionMetadata.t) :
  ready w → undisturbed w →
  tags_storable (SessionMetadata.tags metadata) →
  session_rows (db w) !! SessionMetadata.id metadata = None →
  SessionMetadata.createdAt metadata = Some 0%Z →
  ∃ record w' row,
    createSession metadata w = (Return record, w') ∧
    SessionMetadata.createdAt record = Some (time w (ticks w)) ∧
    session_rows (db w') !! SessionMetadata.id metadata = Some row ∧
    SessionRow.createdAt row = time w (ticks w) ∧
    (SessionMetadata.updatedAt metadata = Some 0%Z →
     SessionMetadata.updatedAt record = Some (time w (S (ticks w))) ∧
     SessionRow.updatedAt row = time w (S (ticks w))).
Proof.
  intros Hr Hu Hstore Hfresh Hzero.
  pose proof (createSession_runs metadata w Hr Hu Hstore) as E. simpl in E.
  rewrite Hfresh, Hzero in E. simpl in E.
  eexists _, _, _. split; [exact E|]. split; [done|].
  split; [by cbn [db with_db]; rewrite session_rows_set_sessions, lookup_insert_eq|].
  split; [done|]. by intros ->.
Qed.

(** X12. A payload that [JSON.stringify] rejects is not saved: on a store in
    working order, for a session that exists, [saveEvent] throws the
    wrapped error and leaves the database as it was; the clock has been
    read once. *)
Theorem saveEvent_not_serializable `{JSON} (w : World) (sessionId : string)
    (event : JSValue) :
  ready w → undisturbed w →
  is_Some (session_rows (db w) !! sessionId) →
  JSON_stringify event = None →
  saveEvent sessionId event w =
    (Throw ("Failed to save event: " +:+ TypeError_message),
     with_ticks w (S (ticks w))).
Proof.
  intros Hr Hu [row Hrow] Hnone. unfold saveEvent.
  erewrite bind_Return by by apply ensureInitialized_ready.
  erewrite try_catch_Throw; [reflexivity|].
  erewrite bind_Return by by apply SELECT_existsFlag_runs.
  rewrite Hrow. simpl.
  erewrite bind_Return by reflexivity.
  by erewrite bind_Throw by by apply stringify_None.
Qed.

(** ** After [close] *)

Lemma statement_closed {A} a b (run : Database → Outcome A * Database) w :
  isOpen (db w) = false →
  statement a b run w = (Throw "database is not open", w).
Proof. intros Ho. unfold statement, prepare. by rewrite Ho. Qed.

(** X13. [close] does not reset the store: once a store that was initialised
    is closed, closing again and [initialize] are no-ops that leave it
    closed, and every other method throws [database is not open], wrapped
    in the method's own message ([updateSessionMetadata] in that of
    [getSessionMetadata], through which it fails); the rows stay in the
    file. *)
Theorem closed_store_is_unusable `{JSON} (w : World) :
  ready w →
  ∃ w', close w = (Return tt, w') ∧ same_data w w' ∧
    close w' = (Return tt, w') ∧
    initialize w' = (Return tt, w') ∧
    (∀ sessionId event,
       saveEvent sessionId event w' =
         (Throw "Failed to save event: database is not open", w')) ∧
    (∀ sessionId,
       getSessionEvents sessionId w' =
         (Throw "Failed to get session events: database is not open", w')) ∧
    (∀ sessionId,
       getSessionMetadata sessionId w' =
         (Throw "Failed to get session: database is not open", w')) ∧
    (∀ sessionId metadata,
       updateSessionMetadata sessionId metadata w' =
         (Throw "Failed to get session: database is not open", w')) ∧
    (∀ sessionId,
       deleteSession sessionId w' =
         (Throw "Failed to delete session: database is not open", w')) ∧
    getAllSessions w' =
      (Throw "Failed to get all sessions: database is not open", w') ∧
    (∀ metadata, tags_storable (SessionMetadata.tags metadata) →
       ∃ w'', createSession metadata w' =
                (Throw "Failed to create session: database is not open", w'') ∧
              db w'' = db w').
Proof.
  intros (Hi & Ho & _). unfold close. rewrite Ho.
  eexists. split; [reflexivity|].
  set (w' := with_db w _).
  assert (initialized w' = true) as Hi' by done.
  assert (isOpen (db w') = false) as Ho' by done.
  assert (ensureInitialized w' = (Return tt, w')) as Einit
    by by apply ensureInitialized_initialized.
  split; [done|]. split; [by rewrite Ho'|].
  split; [unfold initialize; by rewrite Hi'|].
  assert (∀ sessionId,
            getSessionMetadata sessionId w' =
              (Throw "Failed to get session: database is not open", w'))
    as Hget.
  { intros sessionId. unfold getSessionMetadata.
    erewrite bind_Return by done.
    erewrite try_catch_Throw; [reflexivity|].
    by erewrite bind_Throw by by apply statement_closed. }
  repeat split.
  - intros sessionId event. unfold saveEvent.
    erewrite bind_Return by done.
    erewrite try_catch_Throw; [reflexivity|].
    by erewrite bind_Throw by by apply statement_closed.
  - intros sessionId. unfold getSessionEvents.
    erewrite bind_Return by done.
    erewrite try_catch_Throw; [reflexivity|].
    by erewrite bind_Throw by by apply statement_closed.
  - done.
  - intros sessionId metadata. unfold updateSessionMetadata.
    erewrite bind_Return by done. by erewrite bind_Throw by done.
  - intros sessionId. unfold deleteSession.
    erewrite bind_Return by done.
    erewrite try_catch_Throw; [reflexivity|].
    by erewrite bind_Throw by by apply statement_closed.
  - unfold getAllSessions.
    erewrite bind_Return by done.
    erewrite try_catch_Throw; [reflexivity|].
    by erewrite bind_Throw by by apply statement_closed.
  - intros metadata Hstore. unfold createSession.
    erewrite bind_Return by done.
    erewrite bind_Return by apply or_now_runs.
    erewrite bind_Return by apply or_now_runs.
    erewrite bind_Return by by apply tags_column_runs.
    eexists. split.
    + erewrite try_catch_Throw; [reflexivity|].
      by erewrite bind_Throw by by apply statement_closed.
    + done.
Qed.

(** ** An initialisation that fails *)

Lemma bind_Throw_flag {A B} (m : Js A) (k : A → Js B) :
  (∀ w r w', m w = (r, w') → initialized w' = initialized w) →
  (∀ a w e w', k a w = (Throw e, w') → initialized w' = initialized w) →
  ∀ w e w', bind m k w = (Throw e, w') → initialized w' = initialized w.
Proof.
  intros Hm Hk w e w'. unfold bind.
  destruct (m w) as [[a|e1] w1] eqn:E1.
  - intros E. rewrite (Hk _ _ _ _ E). by eapply Hm.
  - intros [= _ <-]. by eapply Hm.
Qed.

Lemma statement_flag {A} a b (run : Database → Outcome A * Database) w r w' :
  statement a b run w = (r, w') → initialized w' = initialized w.
Proof.
  destruct r as [x|e]; intros E.
  - by apply statement_Return in E as (_ & _ & ? & _).
  - by apply statement_Throw in E as (? & _).
Qed.

Lemma initialize_Throw_flag w e w' :
  initialize w = (Throw e, w') → initialized w' = initialized w.
Proof.
  unfold initialize. destruct (negb (initialized w)); [|done].
  unfold try_catch.
  match goal with |- context [?chain w] =>
    destruct (chain w) as [[[]|e1] w1] eqn:E1 end; [done|].
  intros [= _ <-]. revert E1.
  apply bind_Throw_flag.
  { intros w0 r w0'. unfold db_open. destruct (isOpen (db w0)); [by intros [= _ <-]|].
    destruct (faults w0) as [|[f|] fs]; by intros [= _ <-]. }
  intros _.
  do 5 (apply bind_Throw_flag; [apply statement_flag|intros _]).
  by intros w0 e0 w0'.
Qed.

(** X14. A failed initialisation cannot be retried once the connection was
    opened: when [initialize] throws on a store that was not initialised,
    the flag stays down and the rows are as before, and if the database is
    open by then, every later [initialize] throws
    [database is already open], and so, unwrapped, does every method,
    which changes nothing. *)
Theorem initialize_failure_is_final `{JSON} (w : World) (e : string)
    (w1 : World) :
  initialized w = false →
  initialize w = (Throw e, w1) →
  initialized w1 = false ∧ same_rows w w1 ∧
  (isOpen (db w1) = true →
   initialize w1 = (Throw "database is already open", w1) ∧
   (∀ metadata,
      createSession metadata w1 = (Throw "database is already open", w1)) ∧
   (∀ sessionId metadata,
      updateSessionMetadata sessionId metadata w1 =
        (Throw "database is already open", w1)) ∧
   (∀ sessionId,
      getSessionMetadata sessionId w1 =
        (Throw "database is already open", w1)) ∧
   getAllSessions w1 = (Throw "database is already open", w1) ∧
   (∀ sessionId,
      deleteSession sessionId w1 = (Throw "database is already open", w1)) ∧
   (∀ sessionId event,
      saveEvent sessionId event w1 = (Throw "database is already open", w1)) ∧
   (∀ sessionId,
      getSessionEvents sessionId w1 =
        (Throw "database is already open", w1))).
Proof.
  intros Hi E.
  assert (initialized w1 = false) as Hi1
    by (rewrite <- Hi; by eapply initialize_Throw_flag).
  split; [done|]. split; [by eapply keeps_initialize|].
  intros Ho1.
  assert (initialize w1 = (Throw "database is already open", w1)) as Einit.
  { unfold initialize. rewrite Hi1. simpl.
    erewrite try_catch_Throw; [reflexivity|].
    erewrite bind_Throw; [reflexivity|]. unfold db_open. by rewrite Ho1. }
  assert (ensureInitialized w1 = (Throw "database is already open", w1))
    as Eensure by (unfold ensureInitialized; by rewrite Hi1).
  split; [done|].
  repeat split; intros;
    unfold createSession, updateSessionMetadata, getSessionMetadata,
      getAllSessions, deleteSession, saveEvent, getSessionEvents;
    by erewrite bind_Throw by done.
Qed.

(** ** Initialising by hand *)

Lemma initialize_then_ensureInitialized {A} (k : unit → Js A) w :
  bind initialize (λ _, bind ensureInitialized k) w = bind ensureInitialized k w.
Proof.
  destruct (initialized w) eqn:Hi.
  - erewrite bind_Return; [done|]. unfold initialize. by rewrite Hi.
  - assert (ensureInitialized w = initialize w) as Eens
      by (unfold ensureInitialized; by rewrite Hi).
    destruct (initialize w) as [[[]|e] w1] eqn:E.
    + erewrite bind_Return by done.
      apply initialize_Return in E as ((Hi1 & _) & _); [|done].
      unfold bind at 1 2. rewrite Eens.
      by rewrite ensureInitialized_initialized.
    + erewrite bind_Throw by done. unfold bind. by rewrite Eens.
Qed.

(** X15. Calling [initialize] before a method changes nothing: for every
    method, on every store and with every behaviour of the engine,
    [initialize] followed by the method ends exactly as the method alone,
    with the same result and in the same state. *)
Theorem initialize_before_method `{JSON} (w : World) (sessionId : string)
    (metadata : SessionMetadata.t) (partial : Partial.t) (event : JSValue) :
  (initialize ;;; createSession metadata) w = createSession metadata w ∧
  (initialize ;;; updateSessionMetadata sessionId partial) w =
    updateSessionMetadata sessionId partial w ∧
  (initialize ;;; getSessionMetadata sessionId) w =
    getSessionMetadata sessionId w ∧
  (initialize ;;; getAllSessions) w = getAllSessions w ∧
  (initialize ;;; deleteSession sessionId) w = deleteSession sessionId w ∧
  (initialize ;;; saveEvent sessionId event) w = saveEvent sessionId event w ∧
  (initialize ;;; getSessionEvents sessionId) w = getSessionEvents sessionId w.
Proof. repeat split; apply initialize_then_ensureInitialized. Qed.

(** ** Listing the sessions *)

#[global] Instance updatedAt_ge_total : Total updatedAt_ge.
Proof. intros a b. unfold updatedAt_ge. lia. Qed.

#[global] Instance updatedAt_ge_transitive : Transitive updatedAt_ge.
Proof. intros a b c. unfold updatedAt_ge. lia. Qed.

Lemma elem_of_scanned d row :
  row ∈ scanned d ↔ ∃ k, session_rows d !! k = Some row.
Proof.
  unfold scanned. rewrite list_elem_of_fmap. split.
  - intros ([k row'] & -> & Hin). exists k. by apply elem_of_map_to_list.
  - intros [k Hk]. exists (k, row). split; [done|]. by apply elem_of_map_to_list.
Qed.

Lemma SELECT_sessions_runs w :
  ready w → undisturbed w →
  (∀ k row, session_rows (db w) !! k = Some row → row_readable row = true) →
  SELECT_sessions w = (Return (merge_sort updatedAt_ge (scanned (db w))), w).
Proof.
  intros Hr Hu Hrange. unfold SELECT_sessions. rewrite statement_runs by done.
  rewrite with_db_id. fold (scanned (db w)). cbv zeta.
  assert (forallb row_readable (merge_sort updatedAt_ge (scanned (db w))) = true)
    as ->; [|done].
  apply forallb_forall. intros row Hin%list_elem_of_In.
  rewrite merge_sort_Permutation, elem_of_scanned in Hin.
  destruct Hin as [k Hk]. by eapply Hrange.
Qed.

Lemma SELECT_sessions_unreadable w k row :
  ready w → undisturbed w →
  session_rows (db w) !! k = Some row → row_readable row = false →
  SELECT_sessions w = (Throw RangeError_message, w).
Proof.
  intros Hr Hu Hk Hrange. unfold SELECT_sessions.
  rewrite statement_runs by done.
  rewrite with_db_id. fold (scanned (db w)). cbv zeta.
  destruct (forallb row_readable (merge_sort updatedAt_ge (scanned (db w))))
    eqn:Hall; [|done].
  rewrite forallb_forall in Hall.
  rewrite (Hall row) in Hrange; [done|].
  apply list_elem_of_In. rewrite merge_sort_Permutation, elem_of_scanned.
  by exists k.
Qed.

Lemma listed_readable `{JSON} row w :
  tags_readable (SessionRow.tags row) →
  listed row w = (Return (metadata_of_row row), w).
Proof.
  intros Hread. unfold listed.
  by erewrite bind_Return by by apply tags_property_runs.
Qed.

Lemma listed_unreadable `{JSON} row w :
  tags_unreadable (SessionRow.tags row) →
  listed row w = (Throw SyntaxError_message, w).
Proof.
  intros (text & Htext & Hparse). unfold listed, tags_property.
  rewrite Htext. unfold bind, parse. by rewrite Hparse.
Qed.

Lemma readable_or_unreadable `{JSON} column :
  tags_readable column ∨ tags_unreadable column.
Proof.
  unfold tags_readable, tags_unreadable.
  destruct (or_absent column) as [text|]; [|left; by intros ? [=]].
  destruct (JSON_parse text) as [v|] eqn:E.
  - left. intros ? [= <-]. by rewrite E.
  - right. by exists text.
Qed.

Lemma mapM_listed_readable `{JSON} rows w :
  Forall (λ row, tags_readable (SessionRow.tags row)) rows →
  mapM listed rows w = (Return (metadata_of_row <$> rows), w).
Proof.
  induction 1 as [|row rows Hrow _ IH]; [done|]. simpl.
  erewrite bind_Return by by apply listed_readable.
  by erewrite bind_Return by done.
Qed.

Lemma mapM_listed_unreadable `{JSON} rows row w :
  row ∈ rows → tags_unreadable (SessionRow.tags row) →
  mapM listed rows w = (Throw SyntaxError_message, w).
Proof.
  intros Hin Hbad. induction rows as [|r rows IH]; [by apply elem_of_nil in Hin|].
  simpl. destruct (readable_or_unreadable (SessionRow.tags r)) as [Hr|Hr].
  - erewrite bind_Return by by apply listed_readable.
    apply elem_of_cons in Hin as [->|Hin].
    + destruct Hbad as (text & Htext & Hparse).
      destruct (Hr text Htext) as [v Hv]. congruence.
    + by erewrite bind_Throw by by apply IH.
  - by erewrite bind_Throw by by apply listed_unreadable.
Qed.

Lemma getAllSessions_runs `{JSON} w :
  ready w → undisturbed w →
  (∀ k row, session_rows (db w) !! k = Some row → row_readable row = true) →
  (∀ k row, session_rows (db w) !! k = Some row →
     tags_readable (SessionRow.tags row)) →
  getAllSessions w =
    (Return (metadata_of_row <$> merge_sort updatedAt_ge (scanned (db w))), w).
Proof.
  intros Hr Hu Hrange Hread. unfold getAllSessions.
  erewrite bind_Return by by apply ensureInitialized_ready.
  apply try_catch_Return.
  erewrite bind_Return by by apply SELECT_sessions_runs.
  apply mapM_listed_readable, Forall_forall. intros row.
  rewrite merge_sort_Permutation, elem_of_scanned. intros [k Hk]. by eapply Hread.
Qed.

Lemma getAllSessions_unreadable `{JSON} w k row :
  ready w → undisturbed w →
  session_rows (db w) !! k = Some row → row_readable row = false →
  getAllSessions w =
    (Throw ("Failed to get all sessions: " +:+ RangeError_message), w).
Proof.
  intros Hr Hu Hk Hrange. unfold getAllSessions.
  erewrite bind_Return by by apply ensureInitialized_ready.
  erewrite try_catch_Throw; [reflexivity|].
  by erewrite bind_Throw by by eapply SELECT_sessions_unreadable.
Qed.

(** X16. [getAllSessions] lists every session once, the most recently
    updated first: on a store in working order whose rows can all be read
    (their timestamps as numbers, their tags as JSON), it returns the
    records of rows that are a permutation of the sessions table, in
    decreasing order of [updatedAt] (ties in any order), as many as there
    are sessions, and leaves the store as it was. *)
Theorem getAllSessions_sorted `{JSON} (w : World) :
  ready w → undisturbed w →
  (∀ k row, session_rows (db w) !! k = Some row → row_readable row = true) →
  (∀ k row, session_rows (db w) !! k = Some row →
     tags_readable (SessionRow.tags row)) →
  ∃ rows,
    getAllSessions w = (Return (metadata_of_row <$> rows), w) ∧
    rows ≡ₚ scanned (db w) ∧
    StronglySorted updatedAt_ge rows ∧
    (∀ row, row ∈ rows ↔ ∃ k, session_rows (db w) !! k = Some row) ∧
    length rows = size (session_rows (db w)).
Proof.
  intros Hr Hu Hrange Hread. exists (merge_sort updatedAt_ge (scanned (db w))).
  split; [by apply getAllSessions_runs|].
  split; [apply merge_sort_Permutation|].
  split; [apply StronglySorted_merge_sort; apply _|].
  split.
  - intros row. by rewrite merge_sort_Permutation, elem_of_scanned.
  - rewrite merge_sort_Permutation. unfold scanned.
    by rewrite length_fmap, length_map_to_list.
Qed.

(** X17. One tags column that does not parse hides every session from the
    listing: where [getSessionEvents] replaces a corrupt event by a
    placeholder, [getAllSessions] throws as a whole, and so does
    [getSessionMetadata] for the session concerned, each error wrapped by
    its method and nothing changed; the error is that of the parser
    whenever the rows read can be read as numbers. *)
Theorem getAllSessions_corrupt_tags `{JSON} (w : World) (sessionId : string)
    (row : SessionRow.t) :
  ready w → undisturbed w →
  session_rows (db w) !! sessionId = Some row →
  tags_unreadable (SessionRow.tags row) →
  (∃ e, getAllSessions w = (Throw ("Failed to get all sessions: " +:+ e), w)) ∧
  (∃ e, getSessionMetadata sessionId w =
          (Throw ("Failed to get session: " +:+ e), w)) ∧
  ((∀ k row', session_rows (db w) !! k = Some row' →
      row_readable row' = true) →
   getAllSessions w =
     (Throw ("Failed to get all sessions: " +:+ SyntaxError_message), w)) ∧
  (row_readable row = true →
   getSessionMetadata sessionId w =
     (Throw ("Failed to get session: " +:+ SyntaxError_message), w)).
Proof.
  intros Hr Hu Hrow Hbad.
  assert ((∀ k row', session_rows (db w) !! k = Some row' →
             row_readable row' = true) →
          getAllSessions w =
            (Throw ("Failed to get all sessions: " +:+ SyntaxError_message), w))
    as Hall.
  { intros Hrange. unfold getAllSessions.
    erewrite bind_Return by by apply ensureInitialized_ready.
    erewrite try_catch_Throw; [reflexivity|].
    erewrite bind_Return by by apply SELECT_sessions_runs.
    apply (mapM_listed_unreadable _ row); [|done].
    rewrite merge_sort_Permutation, elem_of_scanned. by exists sessionId. }
  assert (row_readable row = true →
          getSessionMetadata sessionId w =
            (Throw ("Failed to get session: " +:+ SyntaxError_message), w))
    as Hone.
  { intros Hrange. destruct Hbad as (text & Htext & Hparse).
    by eapply getSessionMetadata_corrupt_tags. }
  split; [|split; [|done]].
  - destruct (decide (map_Forall (λ _ row', row_readable row' = true)
                        (session_rows (db w)))) as [Hrange|Hrange].
    + eexists. by apply Hall.
    + apply map_not_Forall in Hrange as (k & row' & Hk & Hrange); [|apply _].
      apply not_true_is_false in Hrange.
      eexists. by eapply getAllSessions_unreadable.
  - destruct (row_readable row) eqn:Hrange.
    + eexists. by apply Hone.
    + eexists. by eapply getSessionMetadata_unreadable.
Qed.

(** X18. The session that just got an event heads the listing: on a store in
    working order whose rows can all be read, after a [saveEvent] at a
    reading of the clock that is later than the [updatedAt] of every other
    session and can be read back as a number, [getAllSessions] returns that
    session first, with [updatedAt] equal to the timestamp of the event. *)
Theorem getAllSessions_after_saveEvent `{JSON} (w : World)
    (sessionId : string) (event : JSValue) (row : SessionRow.t) :
  ready w → undisturbed w →
  session_rows (db w) !! sessionId = Some row →
  is_Some (JSON_stringify event) →
  (∀ k row', session_rows (db w) !! k = Some row' → row_readable row' = true) →
  column_readable (time w (ticks w)) = true →
  (∀ k row', session_rows (db w) !! k = Some row' →
     tags_readable (SessionRow.tags row')) →
  (∀ k row', k ≠ sessionId → session_rows (db w) !! k = Some row' →
     (SessionRow.updatedAt row' < time w (ticks w))%Z) →
  ∃ w' rest,
    saveEvent sessionId event w = (Return tt, w') ∧
    getAllSessions w' =
      (Return (metadata_of_row (assign row (SET_updatedAt (time w (ticks w))))
                 :: rest), w').
Proof.
  intros Hr Hu Hrow [text Htext] Hrange Hnow Hread Hlater.
  pose proof (saveEvent_runs w sessionId event row text Hr Hu Hrow Htext)
    as Esave.
  match type of Esave with _ = (_, ?w1) => set (w' := w1) in * end.
  set (row1 := assign row (SET_updatedAt (time w (ticks w)))).
  assert (session_rows (db w') =
          <[sessionId := row1]> (session_rows (db w))) as Hs' by done.
  assert (getAllSessions w' =
          (Return (metadata_of_row <$> merge_sort updatedAt_ge (scanned (db w'))),
           w')) as Eall.
  { apply getAllSessions_runs; [subst w'; store..| |].
    - intros k row'. rewrite Hs'.
      destruct (decide (sessionId = k)) as [<-|Hne].
      + rewrite lookup_insert_eq. intros [= <-]. unfold row1, row_readable.
        cbn [assign SessionRow.createdAt SessionRow.updatedAt].
        pose proof (Hrange _ _ Hrow) as [-> _]%andb_true_iff. by rewrite Hnow.
      + rewrite lookup_insert_ne by done. apply Hrange.
    - intros k row'. rewrite Hs'.
      destruct (decide (sessionId = k)) as [<-|Hne].
      + rewrite lookup_insert_eq. intros [= <-]. unfold row1. simpl.
        by eapply Hread.
      + rewrite lookup_insert_ne by done. apply Hread. }
  exists w'.
  pose proof (StronglySorted_merge_sort updatedAt_ge (scanned (db w'))) as Hsorted.
  assert (row1 ∈ merge_sort updatedAt_ge (scanned (db w'))) as Hin.
  { rewrite merge_sort_Permutation, elem_of_scanned. exists sessionId.
    by rewrite Hs', lookup_insert_eq. }
  destruct (merge_sort updatedAt_ge (scanned (db w'))) as [|first rest] eqn:El;
    [by apply elem_of_nil in Hin|].
  exists (metadata_of_row <$> rest). split; [done|].
  rewrite Eall. simpl. do 3 f_equal.
  apply elem_of_cons in Hin as [->|Hin]; [done|].
  apply StronglySorted_cons in Hsorted as [Hfirst _].
  rewrite Forall_forall in Hfirst. specialize (Hfirst row1 Hin).
  assert (first ∈ scanned (db w')) as Hfirst'
    by (rewrite <- (merge_sort_Permutation updatedAt_ge), El; by left).
  apply elem_of_scanned in Hfirst' as [k Hk]. rewrite Hs' in Hk.
  destruct (decide (sessionId = k)) as [<-|Hne].
  - rewrite lookup_insert_eq in Hk. by injection Hk as <-.
  - rewrite lookup_insert_ne in Hk by done.
    assert (k ≠ sessionId) as Hne' by done.
    specialize (Hlater k first Hne' Hk).
    unfold updatedAt_ge, row1 in Hfirst. simpl in Hfirst. lia.
Qed.

(** ** Timestamps that cannot be read back *)

(** X19. A timestamp that is stored as a 64-bit integer but is not a safe
    integer locks its session out of every read: on a store in working
    order, [getSessionMetadata] and [updateSessionMetadata] of that session
    throw, and [getAllSessions] throws for the whole listing, each with the
    error of the engine's reader wrapped, and nothing is changed.  Such a
    row is what [createSession] stores when it is given [2^53] for
    [createdAt]; [deleteSession] still removes it. *)
Theorem unreadable_timestamp `{JSON} (w : World) (sessionId : string)
    (row : SessionRow.t) (metadata : Partial.t) :
  ready w → undisturbed w →
  session_rows (db w) !! sessionId = Some row →
  row_readable row = false →
  getSessionMetadata sessionId w =
    (Throw ("Failed to get session: " +:+ RangeError_message), w) ∧
  updateSessionMetadata sessionId metadata w =
    (Throw ("Failed to get session: " +:+ RangeError_message), w) ∧
  getAllSessions w =
    (Throw ("Failed to get all sessions: " +:+ RangeError_message), w) ∧
  ∃ w', deleteSession sessionId w = (Return true, w') ∧
        session_rows (db w') !! sessionId = None.
Proof.
  intros Hr Hu Hrow Hrange.
  split; [by eapply getSessionMetadata_unreadable|].
  split; [by eapply updateSessionMetadata_unreadable|].
  split; [by eapply getAllSessions_unreadable|].
  destruct (deleteSession_returns sessionId w Hr Hu) as (b & w' & E & _).
  pose proof (deleteSession_Return _ _ _ _ E) as (_ & Hs & _ & ->).
  exists w'. rewrite bool_decide_eq_true_2 in E by by rewrite Hrow.
  split; [done|]. rewrite Hs. apply lookup_delete_eq.
Qed.

(** ** The further properties at work *)

Lemma Sample_fresh_consistent : consistent Sample.fresh.
Proof.
  split; [by intros [=]|]. split; [by intros ev ?%elem_of_nil|].
  split; [constructor|]. split; [constructor|].
  intros k row Hk.
  change (session_rows (db Sample.fresh)) with (∅ : gmap string SessionRow.t) in Hk.
  by rewrite lookup_empty in Hk.
Qed.

Lemma Scenario_two_ready : ready Scenario.two.
Proof. repeat split; run. Qed.

Lemma Scenario_mistagged_ready : ready Scenario.mistagged.
Proof. repeat split; run. Qed.

(** The rows of the sessions table of [Scenario.two]. *)
Lemma Scenario_two_rows k row :
  session_rows (db Scenario.two) !! k = Some row →
  (k = "s1" ∧
   row = SessionRow.mk "s1" 1700000000000 1700000000002 (Some "demo") "/tmp"
           (Some (Runtime.text_of (JArr [JStr "alpha"; JStr "beta"])))) ∨
  (k = "s2" ∧
   row = SessionRow.mk "s2" 1700000000002 1700000000003 (Some "later") "/srv"
           (Some (Runtime.text_of (JObj [("kind", JStr "scratch")])))).
Proof.
  intros Hk%elem_of_map_to_list. vm_compute in Hk.
  apply elem_of_cons in Hk as [[= -> ->]|Hk]; [by left|].
  apply elem_of_cons in Hk as [[= -> ->]|Hk]; [by right|].
  by apply elem_of_nil in Hk.
Qed.

Lemma Scenario_two_readable k row :
  session_rows (db Scenario.two) !! k = Some row →
  tags_readable (SessionRow.tags row).
Proof.
  intros [[_ ->]|[_ ->]]%Scenario_two_rows; intros text [= <-]; run.
Qed.

Lemma Scenario_two_in_range k row :
  session_rows (db Scenario.two) !! k = Some row → row_readable row = true.
Proof. by intros [[_ ->]|[_ ->]]%Scenario_two_rows. Qed.

Lemma Scenario_overdated_ready : ready Scenario.overdated.
Proof. repeat split; run. Qed.

Lemma reads_never_write_witness :
  initialized Sample.recorded = true ∧
  same_store Sample.recorded (getSessionMetadata "s1" Sample.recorded).2 ∧
  same_store Sample.recorded (getAllSessions Sample.recorded).2 ∧
  same_store Sample.recorded (getSessionEvents "s1" Sample.recorded).2.
Proof.
  assert (initialized Sample.recorded = true) as Hinit by run.
  split; [exact Hinit|].
  exact (proj2 (proj2 (proj2 (reads_never_write Sample.recorded "s1"))) Hinit).
Defined.

Lemma methods_leave_other_sessions_witness :
  "s2" ≠ "s1" ∧
  session_rows (db (deleteSession "s1" Scenario.two).2) !! "s2" =
    session_rows (db Scenario.two) !! "s2" ∧
  log "s2" (deleteSession "s1" Scenario.two).2 = log "s2" Scenario.two.
Proof.
  assert ("s2" ≠ "s1") as Hne by (by intros [=]).
  split; [exact Hne|].
  exact (proj1 (proj2 (proj2 (methods_leave_other_sessions Scenario.two "s1"
                                Sample.a Sample.rename Scenario.s2)))
           "s2" Hne).
Defined.

Lemma event_ids_never_reused_witness :
  rowids_bounded (db Sample.recorded) ∧
  EventRow.mk 3 "s1" 1700000000002 (Runtime.text_of Sample.c)
    ∈ event_rows (db Sample.recorded) ∧
  EventRow.mk 4 "s1" 1700000000003 (Runtime.text_of Sample.a)
    ∈ event_rows (db (history Scenario.later Sample.recorded)) ∧
  (sqlite_sequence (db Sample.recorded)
     ≤ sqlite_sequence (db (history Scenario.later Sample.recorded)))%Z ∧
  (EventRow.mk 4 "s1" 1700000000003 (Runtime.text_of Sample.a)
     ∈ event_rows (db Sample.recorded) ∨
   (EventRow.id (EventRow.mk 3 "s1" 1700000000002 (Runtime.text_of Sample.c))
      < EventRow.id
          (EventRow.mk 4 "s1" 1700000000003 (Runtime.text_of Sample.a)))%Z).
Proof.
  assert (rowids_bounded (db Sample.recorded)) as Hb.
  { unfold rowids_bounded. apply Forall_forall. intros ev Hev.
    vm_compute in Hev.
    repeat (apply elem_of_cons in Hev as [->|Hev]; [by vm_compute|]).
    by apply elem_of_nil in Hev. }
  assert (EventRow.mk 3 "s1" 1700000000002 (Runtime.text_of Sample.c)
            ∈ event_rows (db Sample.recorded)) as Hev
    by (apply (list_elem_of_lookup_2 _ 2%nat); run).
  assert (EventRow.mk 4 "s1" 1700000000003 (Runtime.text_of Sample.a)
            ∈ event_rows (db (history Scenario.later Sample.recorded))) as Hev'
    by (apply (list_elem_of_lookup_2 _ 0%nat); run).
  split; [exact Hb|]. split; [exact Hev|]. split; [exact Hev'|].
  exact (event_ids_never_reused Scenario.later Sample.recorded _ _ Hb Hev Hev').
Defined.

Lemma no_orphan_events_witness :
  consistent Sample.fresh ∧
  EventRow.mk 3 "s2" 1700000000003 (Runtime.text_of Sample.c)
    ∈ event_rows (db (history Scenario.calls Sample.fresh)) ∧
  is_Some (session_rows (db (history Scenario.calls Sample.fresh)) !! "s2").
Proof.
  assert (EventRow.mk 3 "s2" 1700000000003 (Runtime.text_of Sample.c)
            ∈ event_rows (db (history Scenario.calls Sample.fresh))) as Hev
    by (apply (list_elem_of_lookup_2 _ 1%nat); run).
  split; [exact Sample_fresh_consistent|]. split; [exact Hev|].
  exact (no_orphan_events Scenario.calls Sample.fresh _
           Sample_fresh_consistent Hev).
Defined.

Lemma event_ids_unique_witness :
  consistent Sample.fresh ∧
  rowid_ordered (event_rows (db (history Scenario.calls Sample.fresh))) ∧
  ∀ ev1 ev2,
    ev1 ∈ event_rows (db (history Scenario.calls Sample.fresh)) →
    ev2 ∈ event_rows (db (history Scenario.calls Sample.fresh)) →
    EventRow.id ev1 = EventRow.id ev2 → ev1 = ev2.
Proof.
  split; [exact Sample_fresh_consistent|].
  exact (event_ids_unique Scenario.calls Sample.fresh Sample_fresh_consistent).
Defined.

Lemma getSessionMetadata_id_witness :
  consistent Sample.fresh ∧
  getSessionMetadata "s2" (history (removelast Scenario.calls) Sample.fresh) =
    (Return (Some (SessionMetadata.mk "s2" (Some 1700000000001%Z)
                     (Some 1700000000003%Z) (Some "X") "/srv"
                     (Some (JObj [("kind", JStr "scratch")])))),
     history (removelast Scenario.calls) Sample.fresh) ∧
  SessionMetadata.id
    (SessionMetadata.mk "s2" (Some 1700000000001%Z) (Some 1700000000003%Z)
       (Some "X") "/srv" (Some (JObj [("kind", JStr "scratch")]))) = "s2".
Proof.
  assert (getSessionMetadata "s2"
            (history (removelast Scenario.calls) Sample.fresh) =
          (Return (Some (SessionMetadata.mk "s2" (Some 1700000000001%Z)
                           (Some 1700000000003%Z) (Some "X") "/srv"
                           (Some (JObj [("kind", JStr "scratch")])))),
           history (removelast Scenario.calls) Sample.fresh)) as E by run.
  split; [exact Sample_fresh_consistent|]. split; [exact E|].
  exact (getSessionMetadata_id (removelast Scenario.calls) Sample.fresh "s2"
           _ _ Sample_fresh_consistent E).
Defined.

Lemma deleteSession_twice_witness :
  ready Sample.recorded ∧ undisturbed Sample.recorded ∧
  ∃ b w1 w2,
    deleteSession "s1" Sample.recorded = (Return b, w1) ∧
    b = bool_decide (is_Some (session_rows (db Sample.recorded) !! "s1")) ∧
    deleteSession "s1" w1 = (Return false, w2) ∧
    db w2 = db w1 ∧
    (session_rows (db Sample.recorded) !! "s1" = None →
     session_rows (db w1) = session_rows (db Sample.recorded)).
Proof.
  assert (undisturbed Sample.recorded) as Hu by run.
  split; [exact Sample_recorded_ready|]. split; [exact Hu|].
  exact (deleteSession_twice Sample.recorded "s1" Sample_recorded_ready Hu).
Defined.

Lemma missing_session_probe_and_update_witness :
  ready Sample.started ∧ undisturbed Sample.started ∧
  session_rows (db Sample.started) !! "ghost" = None ∧
  getSessionMetadata "ghost" Sample.started = (Return None, Sample.started) ∧
  updateSessionMetadata "ghost" Sample.rename Sample.started =
    (Throw "Session not found: ghost", Sample.started).
Proof.
  assert (undisturbed Sample.started) as Hu by run.
  assert (session_rows (db Sample.started) !! "ghost" = None) as Hnone by run.
  split; [exact Sample_started_ready|]. split; [exact Hu|].
  split; [exact Hnone|].
  exact (missing_session_probe_and_update Sample.started "ghost" Sample.rename
           Sample_started_ready Hu Hnone).
Defined.

Lemma createSession_then_getSessionMetadata_witness :
  ready Sample.recorded ∧ undisturbed Sample.recorded ∧
  session_rows (db Sample.recorded) !! "s2" = None ∧
  ∃ record w',
    createSession Scenario.s2 Sample.recorded = (Return record, w') ∧
    getSessionMetadata "s2" w' = (Return (Some record), w').
Proof.
  assert (undisturbed Sample.recorded) as Hu by run.
  assert (session_rows (db Sample.recorded) !! "s2" = None) as Hnone by run.
  split; [exact Sample_recorded_ready|]. split; [exact Hu|].
  split; [exact Hnone|].
  destruct (createSession_then_getSessionMetadata Sample.recorded Scenario.s2
              Sample_recorded_ready Hu Hnone)
    as (record & w' & row & E & Hrow & _ & _ & Hget & _).
  - by intros [=].
  - run.
  - exists record, w'. split; [exact E|]. apply Hget.
    assert (session_rows (db (createSession Scenario.s2 Sample.recorded).2)
              !! "s2" = Some row) as Hrow' by (by rewrite E).
    vm_compute in Hrow'. injection Hrow' as <-. reflexivity.
Defined.

Lemma updateSessionMetadata_createdAt_not_written_witness :
  ready Sample.started ∧ undisturbed Sample.started ∧
  ∃ record w' record',
    updateSessionMetadata "s1" Scenario.redate Sample.started =
      (Return record, w') ∧
    SessionMetadata.createdAt record = Some 5%Z ∧
    SessionMetadata.updatedAt record = Some 1700000000001%Z ∧
    getSessionMetadata "s1" w' = (Return (Some record'), w') ∧
    SessionMetadata.createdAt record' = Some 1700000000000%Z ∧
    SessionMetadata.updatedAt record' = Some 1700000000001%Z.
Proof.
  assert (undisturbed Sample.started) as Hu by run.
  split; [exact Sample_started_ready|]. split; [exact Hu|].
  apply (updateSessionMetadata_createdAt_not_written Sample.started "s1"
           Scenario.redate
           (SessionRow.mk "s1" 1700000000000 1700000000000 (Some "demo") "/tmp"
              (Some (Runtime.text_of (JArr [JStr "alpha"; JStr "beta"]))))
           5 Sample_started_ready Hu).
  - run.
  - run.
  - run.
  - intros text [= <-]. run.
  - apply Runtime_tags_storable.
  - by intros v [=].
  - reflexivity.
Defined.

Lemma createSession_zero_timestamp_witness :
  ready Sample.started ∧ undisturbed Sample.started ∧
  session_rows (db Sample.started) !! "s3" = None ∧
  ∃ record w' row,
    createSession Scenario.dated Sample.started = (Return record, w') ∧
    SessionMetadata.createdAt record = Some 1700000000001%Z ∧
    session_rows (db w') !! "s3" = Some row ∧
    SessionRow.createdAt row = 1700000000001%Z ∧
    (Some 0%Z = Some 0%Z →
     SessionMetadata.updatedAt record = Some 1700000000001%Z ∧
     SessionRow.updatedAt row = 1700000000001%Z).
Proof.
  assert (undisturbed Sample.started) as Hu by run.
  assert (session_rows (db Sample.started) !! "s3" = None) as Hnone by run.
  split; [exact Sample_started_ready|]. split; [exact Hu|].
  split; [exact Hnone|].
  exact (createSession_zero_timestamp Sample.started Scenario.dated
           Sample_started_ready Hu (Runtime_tags_storable _) Hnone eq_refl).
Defined.

Lemma saveEvent_not_serializable_witness :
  ready Sample.started ∧ undisturbed Sample.started ∧
  is_Some (session_rows (db Sample.started) !! "s1") ∧
  @saveEvent Scenario.circular "s1" Sample.a Sample.started =
    (Throw "Failed to save event: Converting circular structure to JSON",
     with_ticks Sample.started 3).
Proof.
  assert (undisturbed Sample.started) as Hu by run.
  assert (is_Some (session_rows (db Sample.started) !! "s1")) as Hs by run.
  split; [exact Sample_started_ready|]. split; [exact Hu|]. split; [exact Hs|].
  exact (@saveEvent_not_serializable Scenario.circular Sample.started "s1"
           Sample.a Sample_started_ready Hu Hs eq_refl).
Defined.

Lemma closed_store_is_unusable_witness :
  ready Sample.recorded ∧
  ∃ w', close Sample.recorded = (Return tt, w') ∧
    event_rows (db w') = event_rows (db Sample.recorded) ∧
    initialize w' = (Return tt, w') ∧
    getSessionEvents "s1" w' =
      (Throw "Failed to get session events: database is not open", w') ∧
    updateSessionMetadata "s1" Sample.rename w' =
      (Throw "Failed to get session: database is not open", w').
Proof.
  split; [exact Sample_recorded_ready|].
  destruct (closed_store_is_unusable Sample.recorded Sample_recorded_ready)
    as (w' & Eclose & [[_ Hevents] _] & _ & Einit & _ & Eevents & _ & Eupdate & _).
  exists w'. split; [exact Eclose|]. split; [exact Hevents|].
  split; [exact Einit|]. split; [exact (Eevents "s1")|].
  exact (Eupdate "s1" Sample.rename).
Defined.

Lemma initialize_failure_is_final_witness :
  initialized Scenario.unlucky = false ∧
  initialize Scenario.unlucky =
    (Throw "disk I/O error", (initialize Scenario.unlucky).2) ∧
  isOpen (db (initialize Scenario.unlucky).2) = true ∧
  initialized (initialize Scenario.unlucky).2 = false ∧
  initialize (initialize Scenario.unlucky).2 =
    (Throw "database is already open", (initialize Scenario.unlucky).2) ∧
  createSession Sample.s1 (initialize Scenario.unlucky).2 =
    (Throw "database is already open", (initialize Scenario.unlucky).2).
Proof.
  assert (initialize Scenario.unlucky =
          (Throw "disk I/O error", (initialize Scenario.unlucky).2)) as E by run.
  assert (isOpen (db (initialize Scenario.unlucky).2) = true) as Hopen by run.
  destruct (initialize_failure_is_final Scenario.unlucky _ _ eq_refl E)
    as (Hflag & _ & Hfinal).
  destruct (Hfinal Hopen) as (Einit & Ecreate & _).
  split; [reflexivity|]. split; [exact E|]. split; [exact Hopen|].
  split; [exact Hflag|]. split; [exact Einit|]. exact (Ecreate Sample.s1).
Defined.

Lemma getAllSessions_sorted_witness :
  ready Scenario.two ∧ undisturbed Scenario.two ∧
  ∃ rows,
    getAllSessions Scenario.two = (Return (metadata_of_row <$> rows), Scenario.two) ∧
    rows ≡ₚ scanned (db Scenario.two) ∧
    StronglySorted updatedAt_ge rows ∧
    (∀ row, row ∈ rows ↔ ∃ k, session_rows (db Scenario.two) !! k = Some row) ∧
    length rows = size (session_rows (db Scenario.two)).
Proof.
  assert (undisturbed Scenario.two) as Hu by run.
  split; [exact Scenario_two_ready|]. split; [exact Hu|].
  exact (getAllSessions_sorted Scenario.two Scenario_two_ready Hu
           Scenario_two_in_range Scenario_two_readable).
Defined.

Lemma getAllSessions_corrupt_tags_witness :
  ready Scenario.mistagged ∧ undisturbed Scenario.mistagged ∧
  getAllSessions Scenario.mistagged =
    (Throw "Failed to get all sessions: Unexpected token in JSON",
     Scenario.mistagged) ∧
  getSessionMetadata "s1" Scenario.mistagged =
    (Throw "Failed to get session: Unexpected token in JSON",
     Scenario.mistagged).
Proof.
  assert (undisturbed Scenario.mistagged) as Hu by run.
  split; [exact Scenario_mistagged_ready|]. split; [exact Hu|].
  destruct (getAllSessions_corrupt_tags Scenario.mistagged "s1"
              (SessionRow.mk "s1" 1700000000000 1700000000002 (Some "demo") "/tmp"
                 (Some "[oops"))
              Scenario_mistagged_ready Hu)
    as (_ & _ & Hall & Hone).
  - run.
  - exists "[oops". split; run.
  - split; [|apply Hone; run]. apply Hall.
    intros k row Hk%elem_of_map_to_list. vm_compute in Hk.
    apply elem_of_cons in Hk as [[= -> ->]|Hk]; [reflexivity|].
    apply elem_of_cons in Hk as [[= -> ->]|Hk]; [reflexivity|].
    apply elem_of_nil in Hk. destruct Hk.
Defined.

Lemma getAllSessions_after_saveEvent_witness :
  ready Scenario.two ∧ undisturbed Scenario.two ∧
  ∃ w' rest,
    saveEvent "s1" Sample.a Scenario.two = (Return tt, w') ∧
    getAllSessions w' =
      (Return
         (SessionMetadata.mk "s1" (Some 1700000000000%Z) (Some 1700000000004%Z)
            (Some "demo") "/tmp" (Some (JArr [JStr "alpha"; JStr "beta"]))
            :: rest), w').
Proof.
  assert (undisturbed Scenario.two) as Hu by run.
  split; [exact Scenario_two_ready|]. split; [exact Hu|].
  destruct (getAllSessions_after_saveEvent Scenario.two "s1" Sample.a
              (SessionRow.mk "s1" 1700000000000 1700000000002 (Some "demo") "/tmp"
                 (Some (Runtime.text_of (JArr [JStr "alpha"; JStr "beta"]))))
              Scenario_two_ready Hu)
    as (w' & rest & Esave & Eall).
  - run.
  - run.
  - exact Scenario_two_in_range.
  - run.
  - exact Scenario_two_readable.
  - intros k row' Hne [[-> _]|[_ ->]]%Scenario_two_rows.
    + exfalso. exact (Hne eq_refl).
    + vm_compute. reflexivity.
  - exists w', rest. split; [exact Esave|]. rewrite Eall. run.
Defined.

Lemma unreadable_timestamp_witness :
  ready Scenario.overdated ∧ undisturbed Scenario.overdated ∧
  getSessionMetadata "s9" Scenario.overdated =
    (Throw ("Failed to get session: " +:+ RangeError_message),
     Scenario.overdated) ∧
  getAllSessions Scenario.overdated =
    (Throw ("Failed to get all sessions: " +:+ RangeError_message),
     Scenario.overdated) ∧
  ∃ w', deleteSession "s9" Scenario.overdated = (Return true, w') ∧
        session_rows (db w') !! "s9" = None.
Proof.
  assert (undisturbed Scenario.overdated) as Hu by run.
  split; [exact Scenario_overdated_ready|]. split; [exact Hu|].
  destruct (unreadable_timestamp Scenario.overdated "s9"
              (SessionRow.mk "s9" 9007199254740992 1700000000001 None "/big" None)
              Sample.rename Scenario_overdated_ready Hu)
    as (Hget & _ & Hall & Hdelete).
  - run.
  - run.
  - split; [exact Hget|]. split; [exact Hall|exact Hdelete].
Defined.
